(** * Lucky-client: the message pipeline, embedded and verified

  A shallow embedding of the client-side message pipeline of Lucky-client
  (TypeScript): the priority chosen for inbound socket envelopes
  ([core.ts]), the safe-execute wrapper ([utils/ErrorHandler.ts]), the chat
  store ([store/modules/chat.ts]: reconciliation, sorting, unread counters,
  body codec, recall), the message models ([models/index.ts]) and the
  group-operation state machine ([store/modules/group.ts]).

  Conventions of the embedding:
  - a JavaScript number that the code treats as an integer (codes, counters,
    timestamps, sequence numbers) is a [Z]; a field that may be [undefined]
    is an [option];
  - a string is the sequence of the bytes of its UTF-8 encoding;
  - a function that may throw returns an [outcome]; [try]/[catch] is
    [try_catch];
  - mutable store state is threaded explicitly; work handed to the idle
    executor ([addTask]) is appended to a queue of pending tasks and applied
    to the persisted store by [runTask];
  - an object used as a dictionary is a [gmap string _]; arrays are lists.

  Around the pipeline, Part I also embeds the error classes and their
  factory ([utils/ErrorTypes.ts]), the dispatch of queued envelopes, the
  draft manager and the file queue ([core.ts]), the file types
  ([constants/index.ts]), the remaining actions of the chat store and the
  getters and actions of the group store; the last sections of Part II hold
  their properties.

  Part I holds the definitions, Part II the proofs. *)

From Stdlib Require Import ZArith String Ascii List Bool Lia Permutation Sorted.
From Stdlib Require Import DecimalString DecimalZ DecimalPos.
From stdpp Require Import base option list gmap strings sorting.

Local Open Scope Z_scope.

(* ===================================================================== *)
(** * Part I: the embedding *)
(* ===================================================================== *)

(** ** JavaScript run-time conventions *)
Module Js.

(** An error value: [name] and [message] of an [Error]; [appError] carries
    the extra fields of an [AppError] ([utils/ErrorTypes.ts]). *)
Inductive ErrorSeverity := SevLow | SevMedium | SevHigh | SevCritical.

Record AppErrorFields := {
  errCode : string;
  errCategory : string;
  errSeverity : ErrorSeverity
}.

Record JsError := {
  errName : string;
  errMessage : string;
  errStack : option string;
  appError : option AppErrorFields
}.

Definition mkError (msg : string) : JsError :=
  {| errName := "Error"; errMessage := msg; errStack := None; appError := None |}.

(** The result of running a piece of code: it returns or it throws. *)
Inductive outcome (A : Type) : Type :=
| Returned (a : A)
| Thrown (e : JsError).
Arguments Returned {A} a.
Arguments Thrown {A} e.

(** [try { body } catch (e) { handler(e) }] *)
Definition try_catch {A} (body : outcome A) (handler : JsError -> outcome A) : outcome A :=
  match body with
  | Returned a => Returned a
  | Thrown e => handler e
  end.

Definition bind {A B} (o : outcome A) (k : A -> outcome B) : outcome B :=
  match o with
  | Returned a => k a
  | Thrown e => Thrown e
  end.

Definition throws {A} (o : outcome A) : Prop := exists e, o = Thrown e.
Definition returns {A} (o : outcome A) : Prop := exists a, o = Returned a.

(** [x || d] on a number that may be [undefined]: [undefined] and [0] are
    falsy. *)
Definition num_or (x : option Z) (d : Z) : Z :=
  match x with
  | Some v => if v =? 0 then d else v
  | None => d
  end.

(** [a || b] on two numbers. *)
Definition z_or (a b : Z) : Z := if a =? 0 then b else a.

(** [s || d] on a string that may be [undefined]: [""] is falsy. *)
Definition str_or (x : option string) (d : string) : string :=
  match x with
  | Some s => if String.eqb s "" then d else s
  | None => d
  end.

(** Truthiness of a string id. *)
Definition truthy_str (s : string) : bool := negb (String.eqb s "").

Definition truthy_ostr (s : option string) : bool :=
  match s with Some s => truthy_str s | None => false end.

(** [String(x)] for a string that may be [undefined]. *)
Definition String_of_ostr (s : option string) : string :=
  match s with Some s => s | None => "undefined" end.

End Js.
Export Js.

(** ** [constants]: message types, content types, group roles *)

(** [constants/MessageType.ts] is not among the sources; the envelope codes
  are known by name only, so the table of their numeric values is a
  parameter of everything that reads it. *)
Module MessageType.
Record codes := {
  REGISTER : Z;
  REGISTER_SUCCESS : Z;
  REGISTER_FAILED : Z;
  HEART_BEAT : Z;
  HEART_BEAT_SUCCESS : Z;
  HEART_BEAT_FAILED : Z;
  FORCE_LOGOUT : Z;
  LOGIN_EXPIRED : Z;
  REFRESH_TOKEN : Z;
  SINGLE_MESSAGE : Z;
  GROUP_MESSAGE : Z;
  VIDEO_MESSAGE : Z;
  GROUP_OPERATION : Z;
  MESSAGE_OPERATION : Z
}.

Definition all (T : codes) : list Z :=
  [ REGISTER T; REGISTER_SUCCESS T; REGISTER_FAILED T;
    HEART_BEAT T; HEART_BEAT_SUCCESS T; HEART_BEAT_FAILED T;
    FORCE_LOGOUT T; LOGIN_EXPIRED T; REFRESH_TOKEN T;
    SINGLE_MESSAGE T; GROUP_MESSAGE T; VIDEO_MESSAGE T;
    GROUP_OPERATION T; MESSAGE_OPERATION T ].

(** Each name of the table stands for a code of its own. *)
Definition distinct (T : codes) : Prop := NoDup (all T).

(** A table with pairwise distinct codes, used to run the definitions. *)
Definition sample : codes :=
  {| REGISTER := 200; REGISTER_SUCCESS := 201; REGISTER_FAILED := 202;
     HEART_BEAT := 206; HEART_BEAT_SUCCESS := 207; HEART_BEAT_FAILED := 208;
     FORCE_LOGOUT := 300; LOGIN_EXPIRED := 301; REFRESH_TOKEN := 302;
     SINGLE_MESSAGE := 1000; GROUP_MESSAGE := 1001; VIDEO_MESSAGE := 1002;
     GROUP_OPERATION := 1003; MESSAGE_OPERATION := 1004 |}.
End MessageType.

(** [constants/MessageContentType.ts] *)
Module MessageContentType.
Definition TIP : Z := 0.
Definition TEXT : Z := 1.
Definition IMAGE : Z := 100.
Definition VIDEO : Z := 110.
Definition AUDIO : Z := 120.
Definition FILE : Z := 200.
Definition LOCATION : Z := 300.
Definition INVITE_TO_GROUP : Z := 401.
Definition JOIN_GROUP : Z := 402.
Definition LEAVE_GROUP : Z := 403.
Definition KICK_FROM_GROUP : Z := 404.
Definition PROMOTE_TO_ADMIN : Z := 405.
Definition DEMOTE_FROM_ADMIN : Z := 406.
Definition TRANSFER_GROUP_OWNER : Z := 407.
Definition SET_GROUP_INFO : Z := 408.
Definition SET_GROUP_ANNOUNCEMENT : Z := 409.
Definition SET_GROUP_JOIN_MODE : Z := 410.
Definition JOIN_APPROVE_GROUP : Z := 413.
Definition MUTE_MEMBER : Z := 415.
Definition UNMUTE_MEMBER : Z := 416.
Definition MUTE_ALL : Z := 417.
Definition UNMUTE_ALL : Z := 418.
Definition SET_MEMBER_ROLE : Z := 419.
Definition REMOVE_GROUP : Z := 420.
Definition EDIT_MESSAGE : Z := 451.
Definition RECALL_MESSAGE : Z := 453.
Definition COMPLEX : Z := 500.

(** [isTextType]: the text range 1..99. *)
Definition isTextType (code : Z) : bool := (1 <=? code) && (code <=? 99).
End MessageContentType.

(** [GroupMemberRole] and [GroupMuteStatus] of [constants/index.ts]. *)
Module GroupMemberRole.
Definition OWNER : Z := 0.
Definition ADMIN : Z := 1.
Definition MEMBER : Z := 2.
Definition MUTED : Z := 3.
End GroupMemberRole.

Module GroupMuteStatus.
Definition MUTED : Z := 0.
Definition NORMAL : Z := 1.
End GroupMuteStatus.

(** ** [core.ts]: the priority of an inbound envelope *)
Module Core.
Import MessageType.

(** Modelled from the spec: [Priority] of [utils/MessageQueue] (not among
    the sources), the four lanes of the inbound queue. *)
Inductive Priority := URGENT | HIGH | NORMAL | LOW.

(** [MainManager.getMessagePriority] *)
Definition getMessagePriority (T : codes) (code : Z) : Priority :=
  if (code =? FORCE_LOGOUT T) || (code =? LOGIN_EXPIRED T) then URGENT
  else if code =? VIDEO_MESSAGE T then HIGH
  else if (code =? HEART_BEAT_SUCCESS T) || (code =? REGISTER_SUCCESS T) then LOW
  else NORMAL.
End Core.

(** ** [utils/ErrorHandler.ts]: the global error handler *)
Module ErrorHandler.

(** [HandleErrorContext].  The interface declares no [fallback]; the stores
    pass one all the same ([exec] of [chat.ts] and [group.ts]), so the
    object that reaches [execute] can carry it. *)
Record HandleErrorContext (T : Type) := {
  operation : option string;
  showNotification : option bool;
  silent : option bool;
  customMessage : option string;
  data : option (list (string * string));
  fallback : option T
}.
Arguments operation {T} _.
Arguments showNotification {T} _.
Arguments silent {T} _.
Arguments customMessage {T} _.
Arguments data {T} _.
Arguments fallback {T} _.

(** The default argument [context = {}]. *)
Definition emptyContext {T} : HandleErrorContext T :=
  {| operation := None; showNotification := None; silent := None;
     customMessage := None; data := None; fallback := None |}.

(** The [errorInfo] object assembled by [logError]. *)
Record ErrorInfo := {
  infoOperation : option string;
  infoMessage : string;
  infoName : string;
  infoApp : option AppErrorFields;
  infoData : option (list (string * string));
  infoStack : option string
}.

Inductive LogLevel := LvError | LvWarn | LvInfo.

(** What the handler does to the outside world, in order.  [Log] is a call
    of the logger on an [Error] object; [LogObject] is [prettyError] on an
    object that is no [Error], whose [errorInfo] has [name: undefined] and
    the [message] the object has; [ConsoleError] is [console.error];
    [SetTimeout] arms the timer of a key, [SetTimeoutUndefined] that of the
    key [undefined]. *)
Inductive Effect :=
| Log (level : LogLevel) (tag message : string) (info : ErrorInfo)
| LogObject (tag message : string) (operation errorMessage : option string)
    (data : option (list (string * string)))
| ConsoleError (label : string)
| SetTimeout (key : string) (ms : Z)
| SetTimeoutUndefined (ms : Z)
| ElNotification (message : string)
| ElMessage (message : string).

(** [notificationDebounce] holds the keys shown in the last
    [DEBOUNCE_TIME] ms, [undefinedDebounced] tells whether the key
    [undefined] is among them (the key is [error.message], which a value
    that is no [Error] may lack); [trace] is the list of effects so far. *)
Record HandlerState := {
  notificationDebounce : list string;
  undefinedDebounced : bool;
  trace : list Effect
}.

Definition initial : HandlerState :=
  {| notificationDebounce := []; undefinedDebounced := false; trace := [] |}.

Definition emit (e : Effect) (st : HandlerState) : HandlerState :=
  {| notificationDebounce := notificationDebounce st;
     undefinedDebounced := undefinedDebounced st;
     trace := trace st ++ [e] |}.

Definition DEBOUNCE_TIME : Z := 3000.

Definition USER_FRIENDLY_MESSAGES : list (string * string) :=
  [ ("NETWORK_ERROR", "网络连接失败，请检查网络设置");
    ("AUTH_ERROR", "登录已过期，请重新登录");
    ("PERMISSION_ERROR", "您没有权限执行此操作");
    ("VALIDATION_ERROR", "输入数据格式不正确");
    ("DATABASE_ERROR", "数据保存失败，请稍后重试");
    ("WEBSOCKET_ERROR", "连接已断开，正在重新连接...");
    ("FILE_ERROR", "文件操作失败，请检查文件权限");
    ("SYSTEM_ERROR", "系统错误，请稍后重试") ]%string.

Fixpoint lookupMessage (table : list (string * string)) (key : string) : option string :=
  match table with
  | [] => None
  | (k, v) :: rest => if String.eqb k key then Some v else lookupMessage rest key
  end.

(** [s.toLowerCase()] on the ASCII letters. *)
Definition lowerAscii (c : ascii) : ascii :=
  let n := nat_of_ascii c in
  if ((65 <=? n) && (n <=? 90))%nat then ascii_of_nat (n + 32) else c.

Fixpoint toLowerCase (s : string) : string :=
  match s with
  | EmptyString => EmptyString
  | String c rest => String (lowerAscii c) (toLowerCase rest)
  end.

(** [s.includes(needle)] *)
Fixpoint includes (s needle : string) : bool :=
  String.prefix needle s ||
  match s with
  | EmptyString => false
  | String _ rest => includes rest needle
  end.

(** [ErrorNotification.getUserFriendlyMessage] *)
Definition getUserFriendlyMessage (error : JsError) : string :=
  match appError error with
  | Some app => str_or (lookupMessage USER_FRIENDLY_MESSAGES (errCode app)) (errMessage error)
  | None =>
      let errorName := toLowerCase (errName error) in
      if includes errorName "network" then "网络连接失败，请检查网络设置"
      else if includes errorName "auth" then "登录已过期，请重新登录"
      else if includes errorName "validation" then "输入数据格式不正确"
      else if includes errorName "database" then "数据保存失败，请稍后重试"
      else str_or (Some (errMessage error)) "操作失败，请稍后重试"
  end.

(** [ErrorNotification.show] *)
Definition show (error : JsError) (customMessage : option string) (st : HandlerState)
  : HandlerState :=
  let message := str_or customMessage (getUserFriendlyMessage error) in
  let severity := match appError error with Some app => errSeverity app | None => SevMedium end in
  let errorKey := match appError error with Some app => errCode app | None => errMessage error end in
  if existsb (String.eqb errorKey) (notificationDebounce st) then st
  else
    let st1 := emit (SetTimeout errorKey DEBOUNCE_TIME)
                 {| notificationDebounce := errorKey :: notificationDebounce st;
                    undefinedDebounced := undefinedDebounced st;
                    trace := trace st |} in
    match severity with
    | SevCritical => emit (ElNotification message) st1
    | _ => emit (ElMessage message) st1
    end.

(** The timer armed by [show] fires: the key leaves the debounce table. *)
Definition debounceExpired (key : string) (st : HandlerState) : HandlerState :=
  {| notificationDebounce :=
       List.filter (fun k => negb (String.eqb k key)) (notificationDebounce st);
     undefinedDebounced := undefinedDebounced st;
     trace := trace st |}.

(** [ErrorHandler.logError] *)
Definition logError (error : JsError) (operation : option string)
    (data : option (list (string * string))) (st : HandlerState) : HandlerState :=
  let errorInfo :=
    {| infoOperation := operation; infoMessage := errMessage error;
       infoName := errName error; infoApp := appError error;
       infoData := data; infoStack := errStack error |} in
  let op := str_or operation "未知操作" in
  match appError error with
  | Some app =>
      match errSeverity app with
      | SevCritical => emit (Log LvError "ErrorHandler" ("致命错误: " ++ op) errorInfo) st
      | SevHigh => emit (Log LvError "ErrorHandler" ("严重错误: " ++ op) errorInfo) st
      | SevMedium => emit (Log LvWarn "ErrorHandler" ("警告: " ++ op) errorInfo) st
      | SevLow => emit (Log LvInfo "ErrorHandler" ("信息: " ++ op) errorInfo) st
      end
  | None => emit (Log LvError "ErrorHandler" ("错误: " ++ op) errorInfo) st
  end.

(** [ErrorHandler.handle] on an [Error] object, the type of its parameter:
    [showNotification] defaults to [true] and [silent] to [false]. *)
Definition handle {T} (error : JsError) (context : HandleErrorContext T)
    (st : HandlerState) : HandlerState :=
  if default false (silent context) then st
  else
    let st1 := logError error (operation context) (data context) st in
    if default true (showNotification context)
    then show error (customMessage context) st1
    else st1.

(** What a [catch] clause receives: JavaScript throws any value, and
    [execute] passes what it caught to [handle] under the cast
    [error as Error].  The value is an [Error] object, whose [name] and
    [message] are strings ([CaughtError]); [null] or [undefined]
    ([CaughtNullish]); a string, a number or a boolean ([CaughtPrimitive]:
    [throw 'boom']); or an object that is no [Error] ([CaughtObject]: a
    promise rejected with an object literal).  Of the last kind the type has
    the objects that have none of the properties [name], [code],
    [severity], [category] and [stack], and whose [message] is a string or
    is not there. *)
Inductive Caught :=
| CaughtError (e : JsError)
| CaughtNullish
| CaughtPrimitive
| CaughtObject (message : option string).

(** The [TypeError] of a property read on [null] or [undefined], of a call
    of what is no function, or of [in] on a primitive. *)
Definition typeError (message : string) : JsError :=
  {| errName := "TypeError"; errMessage := message; errStack := None; appError := None |}.

(** [logError] on a value caught.  [error.message] throws on [null] and
    [undefined], ["code" in error] throws on a primitive; an object that is
    no [Error] has neither [code] nor [severity] nor [stack] and is logged
    by [prettyError]. *)
Definition logCaught (error : Caught) (operation : option string)
    (data : option (list (string * string))) (st : HandlerState) : outcome HandlerState :=
  match error with
  | CaughtError e => Returned (logError e operation data st)
  | CaughtNullish => Thrown (typeError "Cannot read properties of undefined (reading 'message')")
  | CaughtPrimitive => Thrown (typeError "Cannot use 'in' operator to search for 'code'")
  | CaughtObject message =>
      Returned (emit (LogObject "ErrorHandler" ("错误: " ++ str_or operation "未知操作")
                        operation message data) st)
  end.

(** The part of [ErrorNotification.show] after the message is chosen, for a
    value that is no [AppError]: its severity is [MEDIUM], its key
    [error.message]. *)
Definition notify (errorKey : option string) (message : string) (st : HandlerState)
  : HandlerState :=
  match errorKey with
  | Some key =>
      if existsb (String.eqb key) (notificationDebounce st) then st
      else emit (ElMessage message)
             (emit (SetTimeout key DEBOUNCE_TIME)
                {| notificationDebounce := key :: notificationDebounce st;
                   undefinedDebounced := undefinedDebounced st;
                   trace := trace st |})
  | None =>
      if undefinedDebounced st then st
      else emit (ElMessage message)
             (emit (SetTimeoutUndefined DEBOUNCE_TIME)
                {| notificationDebounce := notificationDebounce st;
                   undefinedDebounced := true;
                   trace := trace st |})
  end.

(** [ErrorNotification.show] on a value caught.
    [customMessage || this.getUserFriendlyMessage(error)] calls
    [getUserFriendlyMessage] when [customMessage] is falsy, and there
    [error.name.toLowerCase()] throws on a value without [name]; the key
    [error.message] throws on [null] and [undefined] whatever the
    message. *)
Definition showCaught (error : Caught) (customMessage : option string) (st : HandlerState)
  : outcome HandlerState :=
  match error with
  | CaughtError e => Returned (show e customMessage st)
  | CaughtNullish =>
      Thrown (typeError (if truthy_ostr customMessage
                         then "Cannot read properties of undefined (reading 'message')"
                         else "Cannot read properties of undefined (reading 'name')"))
  | CaughtPrimitive =>
      if truthy_ostr customMessage then Returned (notify None (str_or customMessage "") st)
      else Thrown (typeError "Cannot read properties of undefined (reading 'toLowerCase')")
  | CaughtObject message =>
      if truthy_ostr customMessage then Returned (notify message (str_or customMessage "") st)
      else Thrown (typeError "Cannot read properties of undefined (reading 'toLowerCase')")
  end.

(** [ErrorHandler.handle] on a value caught: the [try] is around [logError]
    only, so what [ErrorNotification.show] throws leaves [handle]. *)
Definition handleCaught {T} (error : Caught) (context : HandleErrorContext T)
    (st : HandlerState) : outcome unit * HandlerState :=
  if default false (silent context) then (Returned tt, st)
  else
    let st1 :=
      match logCaught error (operation context) (data context) st with
      | Returned st1 => st1
      | Thrown _ => emit (ConsoleError "日志记录失败:") st
      end in
    if default true (showNotification context)
    then match showCaught error (customMessage context) st1 with
         | Returned st2 => (Returned tt, st2)
         | Thrown e => (Thrown e, st1)
         end
    else (Returned tt, st1).

(** The completion of [await fn()]: the value [fn] gave, or the value it
    threw or rejected with. *)
Inductive Completion (T : Type) : Type :=
| Resolved (v : T)
| Rejected (reason : Caught).
Arguments Resolved {T} v.
Arguments Rejected {T} reason.

(** [ErrorHandler.execute], exported as [safeExecute]:
    [try { return await fn() } catch (error) { this.handle(error as Error, context); return undefined }].
    The result is [T | undefined]: [None] is [undefined].  The promise
    rejects when [handle] throws. *)
Definition execute {T} (fn : unit -> Completion T) (context : HandleErrorContext T)
    (st : HandlerState) : outcome (option T) * HandlerState :=
  match fn tt with
  | Resolved v => (Returned (Some v), st)
  | Rejected error =>
      let '(handled, st') := handleCaught error context st in
      (bind handled (fun _ => Returned None), st')
  end.

Definition safeExecute {T} := @execute T.

End ErrorHandler.

(** ** JSON values and the platform codec *)
Module Json.

(** The values a message body can take: what [JSON.parse] produces.  An
    object is the list of its fields in insertion order; [undefined] is not a
    value of this type (an argument that may be [undefined] is an [option],
    an absent field is absent from the list). *)
#[local] Unset Elimination Schemes.
Inductive jsval :=
| JNull
| JBool (b : bool)
| JNum (n : Z)
| JStr (s : string)
| JArr (items : list jsval)
| JObj (fields : list (string * jsval)).
#[local] Set Elimination Schemes.

(** [typeof v === "object"]: true of [null], arrays and objects. *)
Definition typeof_object (v : jsval) : bool :=
  match v with
  | JNull | JArr _ | JObj _ => true
  | _ => false
  end.

(** [typeof v === "string"] *)
Definition typeof_string (v : jsval) : bool :=
  match v with JStr _ => true | _ => false end.

(** [Array.isArray(v)] *)
Definition isArray (v : jsval) : bool :=
  match v with JArr _ => true | _ => false end.

(** [Boolean(v)]: [null], [false], [0] and [""] are falsy. *)
Definition truthy (v : jsval) : bool :=
  match v with
  | JNull => false
  | JBool b => b
  | JNum n => negb (n =? 0)
  | JStr s => truthy_str s
  | JArr _ | JObj _ => true
  end.

(** Decimal notation of an integer, as [String(n)] prints it. *)
Definition string_of_Z (n : Z) : string := NilZero.string_of_int (Z.to_int n).

Definition join (sep : string) (parts : list string) : string :=
  match parts with
  | [] => ""
  | p :: rest => fold_left (fun acc q => acc ++ sep ++ q) rest p
  end%string.

(** [String(v)].  An array prints its elements separated by commas, with
    [null] printed as the empty string; an object prints as
    ["[object Object]"]. *)
Fixpoint String_of (v : jsval) : string :=
  match v with
  | JNull => "null"
  | JBool true => "true"
  | JBool false => "false"
  | JNum n => string_of_Z n
  | JStr s => s
  | JArr items =>
      join "," (List.map (fun x => match x with JNull => ""%string | _ => String_of x end) items)
  | JObj _ => "[object Object]"
  end.

(** [obj.key] on an object: [None] is [undefined]. *)
Fixpoint assoc (key : string) (fields : list (string * jsval)) : option jsval :=
  match fields with
  | [] => None
  | (k, v) :: rest => if String.eqb k key then Some v else assoc key rest
  end.

Definition get (v : jsval) (key : string) : option jsval :=
  match v with
  | JObj fields => assoc key fields
  | _ => None
  end.

(** White space, as [String.prototype.trim] removes it and the class [\s]
    of a regular expression matches it: the characters U+0009 to U+000D,
    U+0020, U+00A0, U+1680, U+2000 to U+200A, U+2028, U+2029, U+202F, U+205F,
    U+3000 and U+FEFF.  A string is the sequence of the bytes of its UTF-8
    encoding, so a white space character is one byte ([isSpace]), two
    ([isSpace2]: U+00A0 is [C2 A0]) or three ([isSpace3]). *)
Definition isSpace (c : ascii) : bool :=
  let n := nat_of_ascii c in
  ((n =? 32) || ((9 <=? n) && (n <=? 13)))%nat.

Definition isSpace2 (c1 c2 : ascii) : bool :=
  ((nat_of_ascii c1 =? 194) && (nat_of_ascii c2 =? 160))%nat.

Definition isSpace3 (c1 c2 c3 : ascii) : bool :=
  let n1 := nat_of_ascii c1 in
  let n2 := nat_of_ascii c2 in
  let n3 := nat_of_ascii c3 in
  (((n1 =? 225) && (n2 =? 154) && (n3 =? 128))
   || ((n1 =? 226) && (n2 =? 128)
       && (((128 <=? n3) && (n3 <=? 138)) || (n3 =? 168) || (n3 =? 169) || (n3 =? 175)))
   || ((n1 =? 226) && (n2 =? 129) && (n3 =? 159))
   || ((n1 =? 227) && (n2 =? 128) && (n3 =? 128))
   || ((n1 =? 239) && (n2 =? 187) && (n3 =? 191)))%nat.

(** [s.trimStart()]: the white space characters at the front are dropped. *)
Fixpoint trimStart (s : string) : string :=
  match s with
  | EmptyString => EmptyString
  | String c1 r1 =>
      if isSpace c1 then trimStart r1
      else match r1 with
           | EmptyString => s
           | String c2 r2 =>
               if isSpace2 c1 c2 then trimStart r2
               else match r2 with
                    | EmptyString => s
                    | String c3 r3 => if isSpace3 c1 c2 c3 then trimStart r3 else s
                    end
           end
  end.

(** The string consists of white space only. *)
Definition allSpace (s : string) : bool := String.eqb (trimStart s) "".

(** [s.trimEnd()]: the string is cut where its last run of white space
    begins. *)
Fixpoint trimEnd (s : string) : string :=
  match s with
  | EmptyString => EmptyString
  | String c rest => if allSpace s then EmptyString else String c (trimEnd rest)
  end.

Definition trim (s : string) : string := trimEnd (trimStart s).

(** The platform's [JSON] object.  [JSON_parse s = None] stands for the
    [SyntaxError] thrown on a text that is not JSON. *)
Class Codec := {
  JSON_parse : string -> option jsval;
  JSON_stringify : jsval -> string
}.

(** What the code relies on: a text written by [JSON.stringify], and the
    literal [{}], are read back by [JSON.parse]. *)
Definition stringify_parses (C : Codec) : Prop :=
  (forall v, is_Some (JSON_parse (JSON_stringify v)))
  /\ is_Some (JSON_parse "{}").

Definition SyntaxError : JsError :=
  {| errName := "SyntaxError"; errMessage := "Unexpected token";
     errStack := None; appError := None |}.

(** [JSON.parse(s)] as a call that may throw. *)
Definition JSON_parse_call `{Codec} (s : string) : outcome jsval :=
  match JSON_parse s with
  | Some v => Returned v
  | None => Thrown SyntaxError
  end.

End Json.
Export Json.

(** ** [models/index.ts]: messages and their bodies *)
Module Models.

(** [IMessage], as the stores receive it.  [messageBody] holds the fields of
    the body object.  The last three fields are those that the [Message]
    interface of [hooks/useChatInput.ts] reads next to the body; the
    identifiers of [mentionedUserIds] are kept as [String(id)] gives them. *)
Module IMessage.
Record t := {
  fromId : string;
  messageTempId : string;
  messageId : option string;
  messageContentType : Z;
  messageTime : option Z;
  sequence : option Z;
  messageBody : jsval;
  mentionAll : option bool;
  mentionedUserIds : option (list string);
  previewText : option string
}.
End IMessage.

(** [RecallMessageBody]: the fields a recall directive may leave out are
    options. *)
Module RecallMessageBody.
Record t := {
  messageId : string;
  operatorId : option string;
  reason : option string;
  recallTime : option Z;
  chatId : option string;
  chatType : option Z
}.
End RecallMessageBody.

(** [IMessageAction] carrying a recall. *)
Module IMessageAction.
Record t := {
  messageId : option string;
  messageBody : RecallMessageBody.t
}.
End IMessageAction.

(** [GroupOperationMessageBody]; [extra] is a free-form record, of which the
    handlers read four keys. *)
Module GroupOperationMessageBody.
Record Extra := {
  muteDuration : option Z;
  newRole : option Z;
  announcement : option string;
  joinMode : option Z
}.
Record t := {
  operationType : Z;
  groupId : string;
  groupName : option string;
  groupAvatar : option string;
  operatorId : string;
  targetUserId : option string;
  operationTime : Z;
  extra : option Extra;
  description : option string
}.
End GroupOperationMessageBody.

(** The body classes that [createMessageBody] instantiates. *)
Module BodyClass.
Inductive t :=
| TextMessageBody | ImageMessageBody | VideoMessageBody | AudioMessageBody
| FileMessageBody | SystemMessageBody | RecallMessageBody | EditMessageBody
| GroupOperationMessageBody | GroupInviteMessageBody | LocationMessageBody
| ComplexMessageBody.
End BodyClass.

(** An instance of a body class: its class and the properties its
    constructor assigned (a property assigned [undefined] is left out). *)
Record MessageBody := {
  bodyClass : BodyClass.t;
  props : list (string * jsval)
}.

(** [this.k = init.k] for each [k] of [keys]. *)
Definition copyProps (init : jsval) (keys : list string) : list (string * jsval) :=
  omap (fun k => match get init k with Some v => Some (k, v) | None => None end) keys.

Definition TypeError : JsError :=
  {| errName := "TypeError"; errMessage := "Cannot read properties of null";
     errStack := None; appError := None |}.

(** [new C(init)].  Every constructor but [ComplexMessageBody]'s reads
    [init.k] without a guard, which throws on [null] and [undefined];
    [ComplexMessageBody]'s reads [init?.k ?? []], which gives the empty
    array for a property that is [null] or not there. *)
Definition construct (C : BodyClass.t) (init : option jsval) : outcome MessageBody :=
  match C, init with
  | BodyClass.ComplexMessageBody, _ =>
      let field k :=
        match init with
        | Some i => match get i k with Some JNull | None => JArr [] | Some v => v end
        | None => JArr []
        end in
      Returned {| bodyClass := C;
                  props := [("parts", field "parts"); ("images", field "images");
                            ("videos", field "videos")]%string |}
  | _, None | _, Some JNull => Thrown TypeError
  | BodyClass.TextMessageBody, Some i =>
      let ids :=
        match get i "mentionedUserIds" with
        | Some (JArr l) =>
            JArr (List.map JStr (List.filter truthy_str (List.map String_of l)))
        | _ => JArr []
        end in
      let all := match get i "mentionAll" with Some v => truthy v | None => false end in
      Returned {| bodyClass := C;
                  props := copyProps i ["text"; "replyMessage"]%string
                           ++ [("mentionedUserIds", ids); ("mentionAll", JBool all)]%string |}
  | BodyClass.ImageMessageBody, Some i =>
      Returned {| bodyClass := C; props := copyProps i ["path"; "name"; "size"; "replyMessage"]%string |}
  | BodyClass.VideoMessageBody, Some i =>
      Returned {| bodyClass := C; props := copyProps i ["path"; "name"; "duration"; "size"]%string |}
  | BodyClass.AudioMessageBody, Some i =>
      Returned {| bodyClass := C; props := copyProps i ["path"; "duration"; "size"]%string |}
  | BodyClass.FileMessageBody, Some i =>
      Returned {| bodyClass := C; props := copyProps i ["path"; "name"; "suffix"; "size"]%string |}
  | BodyClass.SystemMessageBody, Some i =>
      Returned {| bodyClass := C; props := copyProps i ["text"]%string |}
  | BodyClass.RecallMessageBody, Some i =>
      Returned {| bodyClass := C;
                  props := copyProps i ["messageId"; "operatorId"; "recallTime"; "reason";
                                        "chatId"; "chatType"]%string |}
  | BodyClass.EditMessageBody, Some i =>
      Returned {| bodyClass := C;
                  props := copyProps i ["messageId"; "editorId"; "editTime";
                                        "newMessageContentType"; "newMessageBody";
                                        "oldPreview"; "chatId"; "chatType"]%string |}
  | BodyClass.GroupOperationMessageBody, Some i =>
      Returned {| bodyClass := C;
                  props := copyProps i ["operationType"; "groupId"; "groupName"; "groupAvatar";
                                        "operatorId"; "operatorName"; "targetUserId";
                                        "targetUserName"; "operationTime"; "extra";
                                        "description"]%string |}
  | BodyClass.GroupInviteMessageBody, Some i =>
      Returned {| bodyClass := C;
                  props := copyProps i ["requestId"; "groupId"; "groupName"; "groupAvatar";
                                        "inviterId"; "inviterName"; "userId"; "userName";
                                        "approveStatus"]%string |}
  | BodyClass.LocationMessageBody, Some i =>
      Returned {| bodyClass := C;
                  props := copyProps i ["title"; "address"; "latitude"; "longitude"]%string |}
  end.

(** The [switch] of [createMessageBody], in the order of its cases; [None]
    is the [default] branch. *)
Definition bodyClassOf (T : MessageType.codes) (messageContentType : Z) : option BodyClass.t :=
  if messageContentType =? MessageContentType.TEXT then Some BodyClass.TextMessageBody
  else if messageContentType =? MessageContentType.IMAGE then Some BodyClass.ImageMessageBody
  else if messageContentType =? MessageContentType.VIDEO then Some BodyClass.VideoMessageBody
  else if messageContentType =? MessageContentType.AUDIO then Some BodyClass.AudioMessageBody
  else if messageContentType =? MessageContentType.FILE then Some BodyClass.FileMessageBody
  else if messageContentType =? MessageContentType.TIP then Some BodyClass.SystemMessageBody
  else if messageContentType =? MessageContentType.RECALL_MESSAGE then Some BodyClass.RecallMessageBody
  else if messageContentType =? MessageContentType.EDIT_MESSAGE then Some BodyClass.EditMessageBody
  else if messageContentType =? MessageType.GROUP_OPERATION T then Some BodyClass.GroupOperationMessageBody
  else if messageContentType =? MessageContentType.INVITE_TO_GROUP then Some BodyClass.GroupInviteMessageBody
  else if messageContentType =? MessageContentType.JOIN_APPROVE_GROUP then Some BodyClass.GroupInviteMessageBody
  else if messageContentType =? MessageContentType.LOCATION then Some BodyClass.LocationMessageBody
  else if messageContentType =? MessageContentType.COMPLEX then Some BodyClass.ComplexMessageBody
  else None.

(** [createMessageBody(raw, messageContentType)]: the decoder that picks the
    body variant by content type. *)
Definition createMessageBody `{Codec} (T : MessageType.codes)
    (raw : option jsval) (messageContentType : Z) : outcome MessageBody :=
  bind
    (match raw with
     | Some (JStr s) =>
         try_catch
           (bind (JSON_parse_call s) (fun v => Returned (Some v)))
           (fun _ => Thrown (mkError ("Invalid JSON string for messageBody: " ++ s)))
     | _ => Returned raw
     end)
    (fun parsedRaw =>
       match bodyClassOf T messageContentType with
       | Some C => construct C parsedRaw
       | None =>
           Thrown (mkError ("Unknown messageContentType: " ++ string_of_Z messageContentType))
       end).

End Models.

(** ** [hooks/useChatInput.ts]: the preview of a message *)
Module ChatInput.
Import Models.

(** [PreviewResult] *)
Record PreviewResult := {
  html : string;
  plainText : string;
  originalText : string
}.

(** [v ?? d] on a value that may be [undefined] or [null]. *)
Definition nullish_or (v : option jsval) (d : jsval) : jsval :=
  match v with
  | None | Some JNull => d
  | Some x => x
  end.

(** [String(v ?? "")] *)
Definition textOf (v : option jsval) : string := String_of (nullish_or v (JStr "")).

(** [HTML_ESCAPE_MAP], character by character. *)
Definition escapeHtmlChar (c : ascii) : string :=
  if Ascii.eqb c "&" then "&amp;"
  else if Ascii.eqb c "<" then "&lt;"
  else if Ascii.eqb c ">" then "&gt;"
  else if Ascii.eqb c "034" then "&quot;"
  else if Ascii.eqb c "'" then "&#39;"
  else String c EmptyString.

(** [escapeHtml] on a string. *)
Fixpoint escapeHtml (s : string) : string :=
  match s with
  | EmptyString => EmptyString
  | String c rest => (escapeHtmlChar c ++ escapeHtml rest)%string
  end.

(** [s.replace(MULTI_SPACE_RE, " ")] with [MULTI_SPACE_RE = /\s+/g]: every
    run of white space becomes one space.  White space is that of
    [isSpace], [isSpace2] and [isSpace3]; [inRun] tells that the character
    before was white space, whose space is already written. *)
Fixpoint collapseFrom (inRun : bool) (s : string) : string :=
  match s with
  | EmptyString => EmptyString
  | String c1 r1 =>
      let spaced (rest : string) := if inRun then rest else String " " rest in
      if isSpace c1 then spaced (collapseFrom true r1)
      else match r1 with
           | EmptyString => String c1 EmptyString
           | String c2 r2 =>
               if isSpace2 c1 c2 then spaced (collapseFrom true r2)
               else match r2 with
                    | EmptyString => String c1 (collapseFrom false r1)
                    | String c3 r3 =>
                        if isSpace3 c1 c2 c3 then spaced (collapseFrom true r3)
                        else String c1 (collapseFrom false r1)
                    end
           end
  end.

Definition collapseSpaces (s : string) : string := collapseFrom false s.

(** [normalize]: [String(v ?? "").toLowerCase().trim()], lowering the ASCII
    letters. *)
Definition normalize (v : option jsval) : string :=
  trim (ErrorHandler.toLowerCase (textOf v)).

Definition MENTION_ALL_IDS : list string := ["all"; "@all"]%string.
Definition MENTION_ALL_NAMES : list string := ["所有人"]%string.

Definition memberOf (s : string) (l : list string) : bool := existsb (String.eqb s) l.

Section Preview.

(** The translation function [t] of the global i18n instance, which is not
    among the sources. *)
Variable t : string -> string.

(** [isAllMention(part, t)] *)
Definition isAllMention (part : jsval) : bool :=
  if negb (truthy part) then false
  else
    let id := normalize (get part "id") in
    let name := normalize (get part "name") in
    let content := normalize (get part "content") in
    let allMentionText := normalize (Some (JStr (t "pages.chat.mention.all"))) in
    memberOf id MENTION_ALL_IDS
    || String.eqb name allMentionText
    || memberOf name MENTION_ALL_NAMES
    || String.eqb content "@all"
    || ErrorHandler.includes content "所有人"
    || ErrorHandler.includes content allMentionText.

(** [getPlaceholder(type)] *)
Definition getPlaceholder (type : option jsval) : string :=
  match type with
  | Some (JStr k) =>
      if String.eqb k "image" then t "pages.chat.preview.image"
      else if String.eqb k "video" then t "pages.chat.preview.video"
      else if String.eqb k "audio" then t "pages.chat.preview.audio"
      else t "pages.chat.preview.file"
  | _ => t "pages.chat.preview.file"
  end.

(** [getCodePlaceholder(code)] *)
Definition getCodePlaceholder (code : Z) : string :=
  if code =? MessageContentType.IMAGE then t "pages.chat.preview.image"
  else if code =? MessageContentType.VIDEO then t "pages.chat.preview.video"
  else if code =? MessageContentType.AUDIO then t "pages.chat.preview.audio"
  else if code =? MessageContentType.FILE then t "pages.chat.preview.file"
  else if code =? MessageContentType.LOCATION then t "pages.chat.preview.location"
  else if code =? MessageContentType.INVITE_TO_GROUP then t "pages.chat.preview.groupInvite"
  else t "pages.chat.preview.unknown".

(** [p.type === k] *)
Definition hasType (p : jsval) (k : string) : bool :=
  match get p "type" with
  | Some (JStr s) => String.eqb s k
  | _ => false
  end.

(** [partsToText(parts)] *)
Definition partsToText (parts : list jsval) : string :=
  String.concat ""
    (List.map
       (fun p =>
          if hasType p "text" then textOf (get p "content")
          else if hasType p "at" then
            String_of (nullish_or (get p "content") (JStr ("@" ++ textOf (get p "name"))))
          else getPlaceholder (get p "type"))
       (List.filter truthy parts)).

(** [hasAllMention(parts)] *)
Definition hasAllMention (parts : option (list jsval)) : bool :=
  match parts with
  | Some l => existsb (fun p => truthy p && isAllMention p) l
  | None => false
  end.

(** [ids.add(x)] on a [Set] kept in insertion order. *)
Definition setAdd (ids : list string) (x : string) : list string :=
  if memberOf x ids then ids else ids ++ [x].

(** [collectMentionIds(msg, parts)] *)
Definition collectMentionIds (msg : IMessage.t) (parts : option (list jsval)) : list string :=
  let fromMessage := fold_left setAdd (default [] (IMessage.mentionedUserIds msg)) [] in
  fold_left
    (fun ids p =>
       if hasType p "at" && match get p "id" with Some v => truthy v | None => false end
       then setAdd ids (textOf (get p "id"))
       else ids)
    (default [] parts) fromMessage.

(** [buildBadge(text, highlightClass)]: its [text] and its [html]. *)
Definition buildBadge (text highlightClass : string) : string * string :=
  (text,
   "<span class=" ++ String "034" (escapeHtml highlightClass) ++ String "034" ">"
     ++ escapeHtml text ++ "</span>")%string.

(** [buildMentionBadges(mentionYou, mentionAll, highlightClass)] *)
Definition buildMentionBadges (mentionYou mentionAll : bool) (highlightClass : string)
  : list (string * string) :=
  (if mentionYou then [buildBadge (t "pages.chat.mention.you") highlightClass] else [])
  ++ (if mentionAll then [buildBadge (t "pages.chat.mention.all") highlightClass] else []).

(** [buildTipPreview(text)] *)
Definition buildTipPreview (text : string) : PreviewResult :=
  {| html := escapeHtml text; plainText := text; originalText := text |}.

(** [buildTextBody(parts, fallbackText)]: its [html] and its [plain]. *)
Definition buildTextBody (parts : option (list jsval)) (fallbackText : string)
  : string * string :=
  match parts with
  | None | Some [] => (escapeHtml fallbackText, fallbackText)
  | Some l =>
      fold_left
        (fun acc p =>
           let piece :=
             if hasType p "text" then textOf (get p "content")
             else getPlaceholder (get p "type") in
           (fst acc ++ escapeHtml piece, snd acc ++ piece)%string)
        (List.filter truthy l) (EmptyString, EmptyString)
  end.

(** [Array.isArray(body.parts) ? body.parts : undefined] *)
Definition partsOf (body : jsval) : option (list jsval) :=
  match get body "parts" with
  | Some (JArr l) => Some l
  | _ => None
  end.

(** [badges.length > 0 ? badges.map(pick).join("") + " " : ""] *)
Definition prefixOf {A} (pick : A -> string) (badges : list A) : string :=
  match badges with
  | [] => ""
  | _ => String.concat "" (List.map pick badges) ++ " "
  end%string.

(** [buildTextMessagePreview(message, opts)]; [currentUserId] is a string
    here, so [currentUserId != null] holds. *)
Definition buildTextMessagePreview (message : IMessage.t) (highlightClass : string)
    (currentUserId : string) (asHtml : bool) : PreviewResult :=
  let body := IMessage.messageBody message in
  let parts := partsOf body in
  let originalText :=
    match parts with
    | Some l => partsToText l
    | None => textOf (get body "text")
    end in
  let mentionAll := default false (IMessage.mentionAll message) || hasAllMention parts in
  let mentionedIds := collectMentionIds message parts in
  let mentionYou := memberOf currentUserId mentionedIds in
  let badges := buildMentionBadges mentionYou mentionAll highlightClass in
  let '(bodyHtml, bodyPlain) := buildTextBody parts (textOf (get body "text")) in
  let prefixHtml := prefixOf snd badges in
  let prefixPlain := prefixOf fst badges in
  let htmlOut :=
    (if asHtml then prefixHtml ++ bodyHtml else escapeHtml (prefixPlain ++ bodyPlain))%string in
  let plainOut := trim (collapseSpaces (prefixPlain ++ bodyPlain)) in
  {| html := str_or (Some htmlOut) (escapeHtml plainOut);
     plainText := plainOut;
     originalText := originalText |}.

(** [buildNonTextMessagePreview(message, opts)] *)
Definition buildNonTextMessagePreview (message : IMessage.t) (highlightClass : string)
    (currentUserId : string) (asHtml : bool) : PreviewResult :=
  let code := IMessage.messageContentType message in
  let orig :=
    match nullish_or (get (IMessage.messageBody message) "text") JNull with
    | JNull => default EmptyString (IMessage.previewText message)
    | v => String_of v
    end in
  let mentionAll := default false (IMessage.mentionAll message) in
  let mentionedIds := default [] (IMessage.mentionedUserIds message) in
  let mentionYou := memberOf currentUserId mentionedIds in
  let badges := buildMentionBadges mentionYou mentionAll highlightClass in
  let prefix := prefixOf fst badges in
  let placeholder := getCodePlaceholder code in
  {| html := (if asHtml then escapeHtml prefix ++ escapeHtml placeholder
              else escapeHtml (trim (prefix ++ placeholder)))%string;
     plainText := trim (prefix ++ placeholder);
     originalText := orig |}.

(** [buildMessagePreview(message, opts)] on a message that is there. *)
Definition buildMessagePreview (message : IMessage.t) (highlightClass : string)
    (currentUserId : string) (asHtml : bool) : PreviewResult :=
  let code := IMessage.messageContentType message in
  if code =? MessageContentType.TIP then
    buildTipPreview (textOf (get (IMessage.messageBody message) "text"))
  else if code =? MessageContentType.TEXT then
    buildTextMessagePreview message highlightClass currentUserId asHtml
  else buildNonTextMessagePreview message highlightClass currentUserId asHtml.

End Preview.

End ChatInput.

(** ** [store/modules/chat.ts]: the chat store *)
Module ChatStore.
Import Models.
Export ChatInput.

(** Modelled from the spec: the [Chats] entity ([database/entity/Chats] is
    not among the sources), with the fields of the spec's Chat (session)
    record that the store reads or writes.  The numeric fields are options
    because the store guards each read with [|| 0]. *)
Record Chats := {
  chatId : string;
  toId : string;
  chatType : Z;
  name : string;
  message : string;
  messageTime : option Z;
  sequence : option Z;
  unread : option Z;
  isTop : option Z;
  isMute : option Z
}.

Definition set_message (v : string) (c : Chats) : Chats :=
  {| chatId := chatId c; toId := toId c; chatType := chatType c; name := name c;
     message := v; messageTime := messageTime c; sequence := sequence c;
     unread := unread c; isTop := isTop c; isMute := isMute c |}.

Definition set_messageTime (v : option Z) (c : Chats) : Chats :=
  {| chatId := chatId c; toId := toId c; chatType := chatType c; name := name c;
     message := message c; messageTime := v; sequence := sequence c;
     unread := unread c; isTop := isTop c; isMute := isMute c |}.

Definition set_sequence (v : option Z) (c : Chats) : Chats :=
  {| chatId := chatId c; toId := toId c; chatType := chatType c; name := name c;
     message := message c; messageTime := messageTime c; sequence := v;
     unread := unread c; isTop := isTop c; isMute := isMute c |}.

Definition set_unread (v : option Z) (c : Chats) : Chats :=
  {| chatId := chatId c; toId := toId c; chatType := chatType c; name := name c;
     message := message c; messageTime := messageTime c; sequence := sequence c;
     unread := v; isTop := isTop c; isMute := isMute c |}.

(** [Partial<Chats>], the argument of [upsert]: each property is there or
    not ([None]).  A property that [Chats] lets hold [undefined] is there
    with [Some None] when it holds [undefined]; an object whose [toId],
    [chatType], [name] or [message] holds [undefined] is not of this type,
    and a [chatId] that holds [undefined] is as one that is not there (both
    are falsy, and [upsert] then returns at once). *)
Module Partial.
Record t := {
  chatId : option string;
  toId : option string;
  chatType : option Z;
  name : option string;
  message : option string;
  messageTime : option (option Z);
  sequence : option (option Z);
  unread : option (option Z);
  isTop : option (option Z);
  isMute : option (option Z)
}.
End Partial.

(** The two message tables behind [mapper(type)]. *)
Inductive MessageTable := SingleMessages | GroupMessages.

(** The closures handed to [addTask], one constructor per call site.  The
    task of [handleRecall] begins with [JSON.stringify(recallBody)]: [body]
    is what that call comes to, its text or what it throws ([recallBody] is
    not written to after it is built, so this is known when the task is
    queued). *)
Inductive Task :=
| PersistChat (row : Chats)
| UpdateUnread (id : string) (unreadCount : Z)
| RecallRow (table : MessageTable) (id : string) (body : outcome string) (contentType : Z).

Inductive Sound := MESSAGE_ALERT.

(** The reactive state of the store together with what it reads from its
    neighbours: [ownerId] (user store), [notificationMessage]
    ([settingStore.notification.message]) and [membersExcludeSelf] (user id
    and name of each entry of the group store's getter).  [currentChat]
    aliases an entry of [chatList] in the source; the functions below read
    only its [toId] and its [name], which none of them writes but [upsert],
    when the object it is given has them.  [pending] is the idle executor's
    queue, [played] the sounds played. *)
Record ChatState := {
  chatList : list Chats;
  messageList : list IMessage.t;
  currentChat : option Chats;
  loading : bool;
  ownerId : string;
  notificationMessage : bool;
  membersExcludeSelf : list (string * string);
  pending : list Task;
  played : list Sound
}.

Definition set_chatList (v : list Chats) (st : ChatState) : ChatState :=
  {| chatList := v; messageList := messageList st; currentChat := currentChat st;
     loading := loading st; ownerId := ownerId st;
     notificationMessage := notificationMessage st;
     membersExcludeSelf := membersExcludeSelf st;
     pending := pending st; played := played st |}.

Definition set_messageList (v : list IMessage.t) (st : ChatState) : ChatState :=
  {| chatList := chatList st; messageList := v; currentChat := currentChat st;
     loading := loading st; ownerId := ownerId st;
     notificationMessage := notificationMessage st;
     membersExcludeSelf := membersExcludeSelf st;
     pending := pending st; played := played st |}.

Definition set_currentChat (v : option Chats) (st : ChatState) : ChatState :=
  {| chatList := chatList st; messageList := messageList st; currentChat := v;
     loading := loading st; ownerId := ownerId st;
     notificationMessage := notificationMessage st;
     membersExcludeSelf := membersExcludeSelf st;
     pending := pending st; played := played st |}.

Definition set_loading (v : bool) (st : ChatState) : ChatState :=
  {| chatList := chatList st; messageList := messageList st; currentChat := currentChat st;
     loading := v; ownerId := ownerId st;
     notificationMessage := notificationMessage st;
     membersExcludeSelf := membersExcludeSelf st;
     pending := pending st; played := played st |}.

(** [addTask(fn)]: the closure joins the queue, it does not run now. *)
Definition addTasks (ts : list Task) (st : ChatState) : ChatState :=
  {| chatList := chatList st; messageList := messageList st; currentChat := currentChat st;
     loading := loading st; ownerId := ownerId st;
     notificationMessage := notificationMessage st;
     membersExcludeSelf := membersExcludeSelf st;
     pending := pending st ++ ts; played := played st |}.

(** [play(sound)] *)
Definition play (s : Sound) (st : ChatState) : ChatState :=
  {| chatList := chatList st; messageList := messageList st; currentChat := currentChat st;
     loading := loading st; ownerId := ownerId st;
     notificationMessage := notificationMessage st;
     membersExcludeSelf := membersExcludeSelf st;
     pending := pending st; played := played st ++ [s] |}.

(** [Array.prototype.findIndex]; [None] is [-1]. *)
Fixpoint findIndex {A} (p : A -> bool) (l : list A) : option nat :=
  match l with
  | [] => None
  | x :: rest => if p x then Some O else S <$> findIndex p rest
  end.

(** [findChatIndex] of [hooks/useChatInput.ts], and [findIdx]. *)
Definition findChatIndex (list : list Chats) (id : string) : option nat :=
  if negb (truthy_str id) then None
  else findIndex (fun chat => String.eqb (chatId chat) id) list.

Definition findIdx (st : ChatState) (id : string) : option nat :=
  findChatIndex (chatList st) id.

(** [getters.totalUnread]:
    [chatList.reduce((s, c) => c.isMute === 0 ? s + (c.unread || 0) : s, 0)] *)
Definition totalUnread (st : ChatState) : Z :=
  fold_left
    (fun s c => match isMute c with
                | Some 0 => s + num_or (unread c) 0
                | _ => s
                end)
    (chatList st) 0.

(** [Array.prototype.sort(compare)].  The sort is stable (ECMAScript 2019);
    it is modelled by insertion from the right, which puts each element
    before the first one that does not compare below it.  For a total and
    transitive comparator every stable sort returns this list
    ([stable_sort_unique]). *)
Fixpoint sortedInsert {A} (compare : A -> A -> Z) (x : A) (l : list A) : list A :=
  match l with
  | [] => [x]
  | y :: rest =>
      if compare x y <=? 0 then x :: y :: rest
      else y :: sortedInsert compare x rest
  end.

Definition Array_sort {A} (compare : A -> A -> Z) (l : list A) : list A :=
  fold_right (sortedInsert compare) [] l.

(** The comparator of [sortList]:
    [(b.isTop || 0) - (a.isTop || 0) || (b.messageTime || 0) - (a.messageTime || 0)] *)
Definition compareChats (a b : Chats) : Z :=
  z_or (num_or (isTop b) 0 - num_or (isTop a) 0)
       (num_or (messageTime b) 0 - num_or (messageTime a) 0).

(** [sortList], exported as [handleSortChatList]. *)
Definition sortList (st : ChatState) : ChatState :=
  set_chatList (Array_sort compareChats (chatList st)) st.

(** [Object.assign(target, source)] on a chat: the properties that the
    source has replace those of the target, the others stay. *)
Definition Object_assign (target : Chats) (source : Partial.t) : Chats :=
  {| chatId := default (chatId target) (Partial.chatId source);
     toId := default (toId target) (Partial.toId source);
     chatType := default (chatType target) (Partial.chatType source);
     name := default (name target) (Partial.name source);
     message := default (message target) (Partial.message source);
     messageTime := default (messageTime target) (Partial.messageTime source);
     sequence := default (sequence target) (Partial.sequence source);
     unread := default (unread target) (Partial.unread source);
     isTop := default (isTop target) (Partial.isTop source);
     isMute := default (isMute target) (Partial.isMute source) |}.

(** [chat as Chats]: the object itself, a [Chats] when it has the five
    properties that the type requires; a property that may hold [undefined]
    and is not there reads as [undefined]. *)
Definition asChats (chat : Partial.t) : option Chats :=
  match Partial.chatId chat, Partial.toId chat, Partial.chatType chat,
        Partial.name chat, Partial.message chat with
  | Some chatId, Some toId, Some chatType, Some name, Some message =>
      Some {| chatId := chatId; toId := toId; chatType := chatType; name := name;
              message := message;
              messageTime := default None (Partial.messageTime chat);
              sequence := default None (Partial.sequence chat);
              unread := default None (Partial.unread chat);
              isTop := default None (Partial.isTop chat);
              isMute := default None (Partial.isMute chat) |}
  | _, _, _, _, _ => None
  end.

(** A complete chat as the object that has all its properties. *)
Definition whole (chat : Chats) : Partial.t :=
  {| Partial.chatId := Some (chatId chat);
     Partial.toId := Some (toId chat);
     Partial.chatType := Some (chatType chat);
     Partial.name := Some (name chat);
     Partial.message := Some (message chat);
     Partial.messageTime := Some (messageTime chat);
     Partial.sequence := Some (sequence chat);
     Partial.unread := Some (unread chat);
     Partial.isTop := Some (isTop chat);
     Partial.isMute := Some (isMute chat) |}.

(** [upsert(chat)], exported as [upsertChat]: the entry of that id takes the
    properties of [chat], or else [chat] itself is pushed.  The result is
    [None] when the object pushed is no [Chats] ([asChats]): the list would
    hold an entry without [toId], [chatType], [name] or [message], which the
    type of [chatList] here does not have.  The index that the source
    returns is [findIdx] of the id in the state returned. *)
Definition upsert (chat : Partial.t) (st : ChatState) : option ChatState :=
  match Partial.chatId chat with
  | None => Some st
  | Some id =>
      if negb (truthy_str id) then Some st
      else match findIdx st id with
           | Some idx =>
               Some (set_chatList
                       (alter (fun entry => Object_assign entry chat) idx (chatList st)) st)
           | None =>
               (fun pushed => set_chatList (chatList st ++ [pushed]) st) <$> asChats chat
           end
  end.

(** [upsert(chat)] where [chat] is a complete [Chats] object, as
    [createOrUpdate] and [changeChatByTarget] pass it: [Object.assign] then
    overwrites every property of the entry found, and the push adds a
    [Chats], so there always is a state. *)
Definition upsertWhole (chat : Chats) (st : ChatState) : ChatState :=
  default st (upsert (whole chat) st).

(** [persist] *)
Definition persist (chat : Chats) : list Task :=
  if negb (truthy_str (chatId chat)) then [] else [PersistChat chat].

(** [updateRead], exported as [handleUpdateReadStatus]; [unreadArg = None]
    is the omitted argument, which defaults to [0]. *)
Definition updateRead (chat : Chats) (unreadArg : option Z) (st : ChatState) : ChatState :=
  let unread := default 0 unreadArg in
  match findIdx st (chatId chat) with
  | None => st
  | Some idx =>
      addTasks [UpdateUnread (chatId chat) unread]
        (set_chatList (alter (set_unread (Some unread)) idx (chatList st)) st)
  end.

(** [triggerNotify] *)
Definition triggerNotify (chat : Chats) (message : option IMessage.t) (st : ChatState)
  : ChatState :=
  if notificationMessage st
     && match isMute chat with Some 0 => true | _ => false end
     && match message with Some _ => true | None => false end
  then play MESSAGE_ALERT st
  else st.

Section Reconciler.

(** The translation function of the global i18n instance and
    [textReplaceMention] of [utils/Strings], neither of which is among the
    sources. *)
Variable t : string -> string.
Variable textReplaceMention : string -> string -> string.

(** [buildPreview(msg)] on a message that is there; [None] is the [null] of
    its [catch]. *)
Definition buildPreview (st : ChatState) (msg : IMessage.t) : option PreviewResult :=
  let prev := buildMessagePreview t msg "mention-highlight" (ownerId st) true in
  if IMessage.messageContentType msg =? MessageContentType.TEXT
  then Some {| html := textReplaceMention (str_or (Some (html prev)) "") "#ee4628";
               plainText := plainText prev;
               originalText := originalText prev |}
  else Some prev.

(** [String(chat.toId) === String(state.currentChat?.toId)] *)
Definition isCurrent (st : ChatState) (chat : Chats) : bool :=
  String.eqb (toId chat) (String_of_ostr (toId <$> currentChat st)).

(** [updateWithMsg(chat, message, isNew)], exported as
    [handleUpdateChatWithMessage]: the chat object after the call and the
    tasks it queued.  [now] is [Date.now()]. *)
Definition updateWithMsg (now : Z) (st : ChatState) (chat : Chats)
    (message : option IMessage.t) (isNew : bool) : Chats * list Task :=
  match message with
  | None =>
      let chat' :=
        set_unread (Some 0)
          (set_sequence (Some now) (set_messageTime (Some now) (set_message "" chat))) in
      (chat', persist (set_message "" chat'))
  | Some m =>
      let preview := buildPreview st m in
      let chat1 :=
        if negb (isCurrent st chat) && negb isNew
        then set_message (str_or (html <$> preview) "")
               (set_unread (Some (num_or (unread chat) 0 + 1)) chat)
        else set_message (str_or (plainText <$> preview) "") chat in
      let chat2 :=
        set_sequence (Some (num_or (IMessage.sequence m) now))
          (set_messageTime (Some (num_or (IMessage.messageTime m) now)) chat1) in
      (chat2,
       persist (set_message
                  (str_or (originalText <$> preview) (str_or (plainText <$> preview) ""))
                  chat2))
  end.

(** [createOrUpdate(message, id)] when the promises of [exec] resolve.
    [dbChats] is what [exec(() => chatsMapper.selectList(qb))] resolves to for
    the target [id] ([None]: the query failed and the error was handled),
    [apiChat] what [exec(() => api.GetChat(...))] resolves to; the second is
    awaited only when the first yields no chat. *)
Definition createOrUpdate (now : Z) (dbChats : option (list Chats)) (apiChat : option Chats)
    (message : option IMessage.t) (st : ChatState) : ChatState :=
  let st := set_loading true st in
  let chat := match dbChats with Some (c :: _) => Some c | _ => None end in
  let '(chat, st) :=
    match chat with
    | Some chat =>
        let st :=
          if negb (bool_decide ((IMessage.fromId <$> message) = Some (ownerId st)))
          then triggerNotify chat message st else st in
        match findIdx st (chatId chat) with
        | Some idx =>
            match chatList st !! idx with
            | Some entry =>
                let '(entry', ts) := updateWithMsg now st entry message false in
                (Some chat, addTasks ts (set_chatList (<[idx := entry']> (chatList st)) st))
            | None => (Some chat, st)
            end
        | None =>
            let '(chat', ts) := updateWithMsg now st chat message true in
            (Some chat', upsertWhole chat' (addTasks ts st))
        end
    | None =>
        match apiChat with
        | Some chat =>
            let '(chat', ts) := updateWithMsg now st chat message true in
            (Some chat', upsertWhole chat' (addTasks ts st))
        | None => (None, st)
        end
    end in
  let st := match chat with Some _ => sortList st | None => st end in
  set_loading false st.

(** [createOrUpdate(message, id)], exported as [handleCreateOrUpdateChat],
    as its caller sees it: the promise resolves or rejects.  [exec] is
    [safeExecute] with an operation name, so not silent, and its promise
    rejects when showing the error throws ([ErrorHandler.execute]); the
    [await] then leaves the action at once, after [state.loading = true]
    and before anything else is written.  [dbChats] and [apiChat] are what
    the two promises settle to; the second is awaited only when the first
    yields no chat. *)
Definition handleCreateOrUpdateChat (now : Z) (dbChats : outcome (option (list Chats)))
    (apiChat : outcome (option Chats)) (message : option IMessage.t) (st : ChatState)
  : outcome unit * ChatState :=
  match dbChats with
  | Thrown e => (Thrown e, set_loading true st)
  | Returned (Some (c :: rest)) =>
      (Returned tt, createOrUpdate now (Some (c :: rest)) None message st)
  | Returned chats =>
      match apiChat with
      | Thrown e => (Thrown e, set_loading true st)
      | Returned chat => (Returned tt, createOrUpdate now chats chat message st)
      end
  end.

(** [changeChatByTarget(target, chatType)], exported as
    [handleChangeCurrentChatByTarget]: opening the conversation with a friend
    or group.  [created] is what [api.CreateChat] resolves to when the
    conversation is not in the list.  The [CHAT_CHANGED] event the source
    emits at the end carries no state and is left out. *)
Definition changeChatByTarget (now : Z) (targetId : string) (type : Z)
    (created : option Chats) (st : ChatState) : ChatState :=
  match findIndex (fun c => String.eqb (toId c) targetId && (chatType c =? type))
                  (chatList st) with
  | Some existIdx =>
      match chatList st !! existIdx with
      | Some entry =>
          let st := updateRead entry (Some 0) st in
          set_currentChat (chatList st !! existIdx) st
      | None => st
      end
  | None =>
      let st := set_loading true st in
      let st :=
        match created with
        | Some res =>
            let '(res', ts) := updateWithMsg now st res None false in
            set_currentChat (Some res') (sortList (upsertWhole res' (addTasks ts st)))
        | None => st
        end in
      set_loading false st
  end.

End Reconciler.

Section BodyCodec.
Context `{Codec}.

(** [parseBody(raw)]; [raw = None] is [undefined]. *)
Definition parseBody (raw : option jsval) : outcome jsval :=
  match raw with
  | None | Some JNull => Returned (JObj [])
  | Some v =>
      if typeof_object v then Returned (if isArray v then JObj [("parts", v)] else v)
      else
        match v with
        | JStr s =>
            try_catch
              (bind (JSON_parse_call (trim s)) (fun parsed =>
                 Returned
                   (if typeof_object parsed && truthy parsed
                    then (if isArray parsed then JObj [("parts", parsed)] else parsed)
                    else JObj [("text", JStr (String_of parsed))])))
              (fun _ => Returned (JObj [("text", JStr s)]))
        | _ => Returned (JObj [("text", JStr (String_of v))])
        end
  end.

(** [stringifyBody(raw)]:
    [try { JSON.parse(raw); return raw } catch { return JSON.stringify({ text: raw }) }]
    on a string, [JSON.stringify(raw)] on anything else but [null] and
    [undefined]. *)
Definition stringifyBody (raw : option jsval) : string :=
  match raw with
  | None | Some JNull => "{}"
  | Some (JStr s) =>
      match JSON_parse s with
      | Some _ => s
      | None => JSON_stringify (JObj [("text", JStr s)])
      end
  | Some v => JSON_stringify v
  end.

Variable T : MessageType.codes.

(** [mapper(type)] *)
Definition mapper (type : Z) : MessageTable :=
  if type =? MessageType.SINGLE_MESSAGE T then SingleMessages else GroupMessages.

(** What [getUserNameByType] returns: a name, or [getters.currentName]
    itself, the [ComputedRef] and not its [.value]. *)
Inductive UserName :=
| CurrentNameRef
| NameText (s : string).

(** [getUserNameByType(id, type)]; [None] is [undefined].  For a single chat
    the code returns [getters.currentName], for a group chat
    [member?.name || member?.userId] of the member found in
    [getters.membersExcludeSelf.value]. *)
Definition getUserNameByType (id : string) (type : Z) (st : ChatState) : option UserName :=
  if type =? MessageType.SINGLE_MESSAGE T then Some CurrentNameRef
  else if type =? MessageType.GROUP_MESSAGE T then
    match List.find (fun m => String.eqb (fst m) id) (membersExcludeSelf st) with
    | Some (userId, memberName) => Some (NameText (str_or (Some memberName) userId))
    | None => None
    end
  else None.

(** The [recallBody] object built by [handleRecall]; [_recalled] is
    [true]. *)
Record RecallBody := {
  recallOperatorId : string;
  recallTime : Z;
  recallReason : string;
  recallName : option UserName
}.

Definition recallBody (now : Z) (st : ChatState) (body : RecallMessageBody.t) : RecallBody :=
  let type := default (MessageType.SINGLE_MESSAGE T) (RecallMessageBody.chatType body) in
  {| recallOperatorId := default "" (RecallMessageBody.operatorId body);
     recallTime := default now (RecallMessageBody.recallTime body);
     recallReason := default "" (RecallMessageBody.reason body);
     recallName :=
       getUserNameByType (default "" (RecallMessageBody.operatorId body)) type st |}.

(** The four properties of [recallBody] that are always values. *)
Definition tombstone (body : RecallBody) : list (string * jsval) :=
  [ ("_recalled", JBool true);
    ("operatorId", JStr (recallOperatorId body));
    ("recallTime", JNum (recallTime body));
    ("reason", JStr (recallReason body)) ]%string.

(** [getters.currentName.value]: [state.currentChat?.name || ""] *)
Definition currentName (st : ChatState) : string := str_or (name <$> currentChat st) "".

(** [recallBody] as it reads in [state.messageList]: the reactive state
    unwraps a ref held in a property, so [name], when it is
    [getters.currentName], reads as the name of the current chat.  The
    list keeps the object as it read when it was put there; in the source
    that [name] follows the current chat. *)
Definition liveBody (st : ChatState) (body : RecallBody) : jsval :=
  JObj (tombstone body
        ++ match recallName body with
           | Some CurrentNameRef => [("name"%string, JStr (currentName st))]
           | Some (NameText s) => [("name"%string, JStr s)]
           | None => []
           end).

(** The [TypeError] of [JSON.stringify] on an object that refers to
    itself. *)
Definition CircularStructure : JsError :=
  {| errName := "TypeError"; errMessage := "Converting circular structure to JSON";
     errStack := None; appError := None |}.

(** [JSON.stringify(recallBody)].  A property that is [undefined] is left
    out.  A [ComputedRef] refers to itself through its effect, so the call
    throws when [name] is [getters.currentName]. *)
Definition stringifyRecall (body : RecallBody) : outcome string :=
  match recallName body with
  | Some CurrentNameRef => Thrown CircularStructure
  | Some (NameText s) =>
      Returned (JSON_stringify (JObj (tombstone body ++ [("name"%string, JStr s)])))
  | None => Returned (JSON_stringify (JObj (tombstone body)))
  end.

(** [{ ...msg, messageBody: recallBody, messageContentType: RECALL_MESSAGE.code }] *)
Definition recalled (body : jsval) (msg : IMessage.t) : IMessage.t :=
  {| IMessage.fromId := IMessage.fromId msg;
     IMessage.messageTempId := IMessage.messageTempId msg;
     IMessage.messageId := IMessage.messageId msg;
     IMessage.messageContentType := MessageContentType.RECALL_MESSAGE;
     IMessage.messageTime := IMessage.messageTime msg;
     IMessage.sequence := IMessage.sequence msg;
     IMessage.messageBody := body;
     IMessage.mentionAll := IMessage.mentionAll msg;
     IMessage.mentionedUserIds := IMessage.mentionedUserIds msg;
     IMessage.previewText := IMessage.previewText msg |}.

(** [handleRecall(data)], exported as [handleReCallMessage]; [now] is
    [Date.now()]. *)
Definition handleRecall (now : Z) (data : option IMessageAction.t) (st : ChatState)
  : ChatState :=
  match data with
  | None => st
  | Some data =>
      if negb (truthy_ostr (IMessageAction.messageId data)) then st
      else
        let messageBody := IMessageAction.messageBody data in
        let messageId := String_of_ostr (IMessageAction.messageId data) in
        let m := mapper (default (MessageType.SINGLE_MESSAGE T)
                                 (RecallMessageBody.chatType messageBody)) in
        let body := recallBody now st messageBody in
        let st :=
          match findIndex
                  (fun msg => String.eqb (String_of_ostr (IMessage.messageId msg)) messageId)
                  (messageList st) with
          | Some idx =>
              set_messageList (alter (recalled (liveBody st body)) idx (messageList st)) st
          | None => st
          end in
        addTasks [RecallRow m messageId (stringifyRecall body)
                            MessageContentType.RECALL_MESSAGE] st
  end.

End BodyCodec.

(** *** The persisted store *)

(** A row of a message table: the columns the store functions above write,
    and two they leave alone. *)
Record MessageRow := {
  rowFromId : string;
  rowMessageTime : Z;
  rowBody : string;
  rowContentType : Z
}.

(** Modelled from the spec: the persisted store behind the mappers
    ([database] is not among the sources).  Each table is keyed by primary
    id; a full-text shadow table holds the searchable text of a row. *)
Record Store := {
  chatRows : gmap string Chats;
  chatFts : gmap string Chats;
  singleRows : gmap string MessageRow;
  singleFts : gmap string string;
  groupRows : gmap string MessageRow;
  groupFts : gmap string string
}.

Definition rowsOf (m : MessageTable) (db : Store) : gmap string MessageRow :=
  match m with SingleMessages => singleRows db | GroupMessages => groupRows db end.

Definition ftsOf (m : MessageTable) (db : Store) : gmap string string :=
  match m with SingleMessages => singleFts db | GroupMessages => groupFts db end.

Definition withMessages (m : MessageTable) (rows : gmap string MessageRow)
    (fts : gmap string string) (db : Store) : Store :=
  match m with
  | SingleMessages =>
      {| chatRows := chatRows db; chatFts := chatFts db;
         singleRows := rows; singleFts := fts;
         groupRows := groupRows db; groupFts := groupFts db |}
  | GroupMessages =>
      {| chatRows := chatRows db; chatFts := chatFts db;
         singleRows := singleRows db; singleFts := singleFts db;
         groupRows := rows; groupFts := fts |}
  end.

Definition patchRow (body : string) (contentType : Z) (r : MessageRow) : MessageRow :=
  {| rowFromId := rowFromId r; rowMessageTime := rowMessageTime r;
     rowBody := body; rowContentType := contentType |}.

(** Modelled from the spec: the store verbs as the tasks use them.
    [insertOrUpdate(row)] and [insertOrUpdateFTS(row)] write the row under its
    id, [updateById(id, patch)] patches the row with that id if there is one,
    [deleteFTSById(id)] removes the shadow row.  A task that throws before
    it calls a verb leaves the store as it is. *)
Definition runTask (db : Store) (t : Task) : Store :=
  match t with
  | PersistChat row =>
      {| chatRows := <[chatId row := row]> (chatRows db);
         chatFts := <[chatId row := row]> (chatFts db);
         singleRows := singleRows db; singleFts := singleFts db;
         groupRows := groupRows db; groupFts := groupFts db |}
  | UpdateUnread id n =>
      {| chatRows := alter (set_unread (Some n)) id (chatRows db);
         chatFts := chatFts db;
         singleRows := singleRows db; singleFts := singleFts db;
         groupRows := groupRows db; groupFts := groupFts db |}
  | RecallRow m id body contentType =>
      match body with
      | Returned text =>
          withMessages m (alter (patchRow text contentType) id (rowsOf m db))
                         (delete id (ftsOf m db)) db
      | Thrown _ => db
      end
  end.

(** The idle executor drains its queue in FIFO order. *)
Definition runTasks (db : Store) (ts : list Task) : Store := fold_left runTask ts db.

End ChatStore.

(** ** [store/modules/group.ts]: the group-operation state machine *)
Module GroupStore.
Import Models.
Module Op := GroupOperationMessageBody.

(** Modelled from the spec: [GroupMember] and [GroupInfo] ([types/group] is
    not among the sources), with the fields the store reads or writes.  The
    field [groupAvatar] of [GroupInfo] is the source's [info.avatar]. *)
Record GroupMember := {
  userId : string;
  name : string;
  avatar : option string;
  role : option Z;
  mute : option Z;
  muteEndTime : option Z;
  alias : option string
}.

Record GroupInfo := {
  groupId : string;
  groupName : option string;
  groupAvatar : option string;
  notification : option string;
  muteAll : option Z;
  applyJoinType : option Z
}.

Definition set_role (v : option Z) (m : GroupMember) : GroupMember :=
  {| userId := userId m; name := name m; avatar := avatar m; role := v;
     mute := mute m; muteEndTime := muteEndTime m; alias := alias m |}.

Definition set_mute (v : option Z) (until : option Z) (m : GroupMember) : GroupMember :=
  {| userId := userId m; name := name m; avatar := avatar m; role := role m;
     mute := v; muteEndTime := until; alias := alias m |}.

Inductive LogEntry :=
| prettyWarn (tag message : string)
| prettyError (tag message : string).

(** The reactive state, [currentGroupId], the log, and the [GetGroupMember]
    requests sent by [loadMembers] and not yet answered. *)
Record GroupState := {
  members : gmap string GroupMember;
  info : option GroupInfo;
  loading : bool;
  error : option string;
  currentGroupId : option string;
  log : list LogEntry;
  requested : list string
}.

Definition set_members (v : gmap string GroupMember) (st : GroupState) : GroupState :=
  {| members := v; info := info st; loading := loading st; error := error st;
     currentGroupId := currentGroupId st; log := log st; requested := requested st |}.

Definition set_info (v : option GroupInfo) (st : GroupState) : GroupState :=
  {| members := members st; info := v; loading := loading st; error := error st;
     currentGroupId := currentGroupId st; log := log st; requested := requested st |}.

Definition logged (e : LogEntry) (st : GroupState) : GroupState :=
  {| members := members st; info := info st; loading := loading st; error := error st;
     currentGroupId := currentGroupId st; log := log st ++ [e];
     requested := requested st |}.

(** [loadMembers(groupId)] up to its [await]: the request leaves. *)
Definition loadMembers (groupId : string) (st : GroupState) : GroupState :=
  if negb (truthy_str groupId) then st
  else {| members := members st; info := info st; loading := true; error := error st;
          currentGroupId := Some groupId; log := log st;
          requested := requested st ++ [groupId] |}.

(** [loadMembers] after its [await]: [res] is what [exec(api.GetGroupMember)]
    resolved to. *)
Definition loadMembersDone (res : option (gmap string GroupMember)) (st : GroupState)
  : GroupState :=
  {| members := default (members st) res; info := info st; loading := false;
     error := error st; currentGroupId := currentGroupId st; log := log st;
     requested := tail (requested st) |}.

(** [if (o.targetUserId && state.members[o.targetUserId]) state.members[...] = f(...)] *)
Definition onTarget (target : option string) (f : GroupMember -> GroupMember)
    (st : GroupState) : GroupState :=
  match target with
  | Some id =>
      if truthy_str id && bool_decide (is_Some (members st !! id))
      then set_members (alter f id (members st)) st
      else st
  | None => st
  end.

(** [if (o.targetUserId && state.members[o.targetUserId]) delete state.members[...]] *)
Definition dropTarget (target : option string) (st : GroupState) : GroupState :=
  match target with
  | Some id =>
      if truthy_str id && bool_decide (is_Some (members st !! id))
      then set_members (delete id (members st)) st
      else st
  | None => st
  end.

(** [if (state.info && state.info.groupId === o.groupId) state.info = f(state.info)] *)
Definition onInfo (o : Op.t) (f : GroupInfo -> GroupInfo) (st : GroupState) : GroupState :=
  match info st with
  | Some i => if String.eqb (groupId i) (Op.groupId o) then set_info (Some (f i)) st else st
  | None => st
  end.

Definition extraOf {A} (o : Op.t) (key : Op.Extra -> option A) : option A :=
  match Op.extra o with Some e => key e | None => None end.

(** The handler table of [applyGroupOperation], keyed by content-type code;
    [None] is a key the table does not have.  [now] is [Date.now()]. *)
Definition handlers (now : Z) (key : Z) : option (Op.t -> GroupState -> GroupState) :=
  if key =? MessageContentType.KICK_FROM_GROUP then
    Some (fun o => dropTarget (Op.targetUserId o))
  else if key =? MessageContentType.PROMOTE_TO_ADMIN then
    Some (fun o => onTarget (Op.targetUserId o) (set_role (Some GroupMemberRole.ADMIN)))
  else if key =? MessageContentType.DEMOTE_FROM_ADMIN then
    Some (fun o => onTarget (Op.targetUserId o) (set_role (Some GroupMemberRole.MEMBER)))
  else if key =? MessageContentType.TRANSFER_GROUP_OWNER then
    Some (fun o st =>
            let prevOwner := Op.operatorId o in
            let st := onTarget (Some prevOwner) (set_role (Some GroupMemberRole.MEMBER)) st in
            onTarget (Op.targetUserId o) (set_role (Some GroupMemberRole.OWNER)) st)
  else if key =? MessageContentType.MUTE_MEMBER then
    Some (fun o =>
            let dur := default 0 (extraOf o Op.muteDuration) in
            onTarget (Op.targetUserId o)
              (set_mute (Some GroupMuteStatus.MUTED)
                        (if 0 <? dur then Some (now + dur * 1000) else None)))
  else if key =? MessageContentType.UNMUTE_MEMBER then
    Some (fun o => onTarget (Op.targetUserId o) (set_mute (Some GroupMuteStatus.NORMAL) None))
  else if key =? MessageContentType.MUTE_ALL then
    Some (fun o =>
            onInfo o (fun i =>
              {| groupId := groupId i; groupName := groupName i; groupAvatar := groupAvatar i;
                 notification := notification i; muteAll := Some GroupMuteStatus.MUTED;
                 applyJoinType := applyJoinType i |}))
  else if key =? MessageContentType.UNMUTE_ALL then
    Some (fun o =>
            onInfo o (fun i =>
              {| groupId := groupId i; groupName := groupName i; groupAvatar := groupAvatar i;
                 notification := notification i; muteAll := Some GroupMuteStatus.NORMAL;
                 applyJoinType := applyJoinType i |}))
  else if key =? MessageContentType.SET_MEMBER_ROLE then
    Some (fun o =>
            let newRole := default GroupMemberRole.MEMBER (extraOf o Op.newRole) in
            onTarget (Op.targetUserId o) (set_role (Some newRole)))
  else if key =? MessageContentType.SET_GROUP_INFO then
    Some (fun o =>
            onInfo o (fun i =>
              {| groupId := groupId i;
                 groupName := if truthy_ostr (Op.groupName o) then Op.groupName o
                              else groupName i;
                 groupAvatar := if truthy_ostr (Op.groupAvatar o) then Op.groupAvatar o
                                else groupAvatar i;
                 notification := notification i; muteAll := muteAll i;
                 applyJoinType := applyJoinType i |}))
  else if key =? MessageContentType.SET_GROUP_ANNOUNCEMENT then
    Some (fun o =>
            let content :=
              match extraOf o Op.announcement with
              | Some a => a
              | None => default ""%string (Op.description o)
              end in
            if truthy_str content then
              onInfo o (fun i =>
                {| groupId := groupId i; groupName := groupName i;
                   groupAvatar := groupAvatar i; notification := Some content;
                   muteAll := muteAll i; applyJoinType := applyJoinType i |})
            else fun st => st)
  else if key =? MessageContentType.SET_GROUP_JOIN_MODE then
    Some (fun o st =>
            let mode :=
              match extraOf o Op.joinMode with
              | Some j => j
              | None => default 0 (info st ≫= applyJoinType)
              end in
            onInfo o (fun i =>
              {| groupId := groupId i; groupName := groupName i;
                 groupAvatar := groupAvatar i; notification := notification i;
                 muteAll := muteAll i; applyJoinType := Some mode |}) st)
  else if key =? MessageContentType.REMOVE_GROUP then
    Some (fun o st =>
            match info st with
            | Some i =>
                if String.eqb (groupId i) (Op.groupId o)
                then {| members := ∅; info := None; loading := loading st;
                        error := error st; currentGroupId := None; log := log st;
                        requested := requested st |}
                else st
            | None => st
            end)
  else if key =? MessageContentType.JOIN_GROUP then
    Some (fun o => loadMembers (Op.groupId o))
  else if key =? MessageContentType.LEAVE_GROUP then
    Some (fun o => dropTarget (Op.targetUserId o))
  else None.

(** [applyGroupOperation(code, op)]: the handler is looked up under
    [op.operationType]; [code] is not read. *)
Definition applyGroupOperation (now : Z) (code : Z) (op : option Op.t) (st : GroupState)
  : GroupState :=
  match op with
  | None => st
  | Some op =>
      if negb (truthy_str (Op.groupId op)) then st
      else
        match handlers now (Op.operationType op) with
        | Some handler => handler op st
        | None =>
            logged (prettyWarn "group"
                      ("未处理的群组操作类型: " ++ string_of_Z (Op.operationType op))) st
        end
  end.

End GroupStore.

(** ** A JSON codec over byte strings *)

(** An implementation of the [Codec] interface, used to run the definitions
    and to show that the law [stringify_parses] can be met.  It covers
    [null], booleans, integers, strings, arrays and objects.  Compared with
    the platform's [JSON] it reads integers only (no fraction, no exponent;
    leading zeros are tolerated), decodes a [\uXXXX] escape below 256 only,
    and keeps the members of an object as written (repeated keys
    included). *)
Module JsonText.

Definition code (c : ascii) : nat := nat_of_ascii c.

(** JSON white space: space, tab, line feed, carriage return. *)
Definition isWs (c : ascii) : bool :=
  ((code c =? 32) || (code c =? 9) || (code c =? 10) || (code c =? 13))%nat.

Definition isDigit (c : ascii) : bool := ((48 <=? code c) && (code c <=? 57))%nat.

Fixpoint skipWs (s : list ascii) : list ascii :=
  match s with
  | c :: rest => if isWs c then skipWs rest else s
  | [] => []
  end.

(** *** Writing *)

Definition hexDigit (n : nat) : ascii :=
  ascii_of_nat (if (n <? 10)%nat then 48 + n else 87 + n).

(** The escape of one character inside a string literal: the quote (34) and
    the backslash (92) are escaped, the control characters are written with
    a letter ([b], [f], [n], [r], [t]) or as [u00XX]. *)
Definition escapeChar (c : ascii) : list ascii :=
  let n := code c in
  if (n =? 34)%nat then ["092"; "034"]%char
  else if (n =? 92)%nat then ["092"; "092"]%char
  else if (n =? 8)%nat then ["092"; "b"]%char
  else if (n =? 12)%nat then ["092"; "f"]%char
  else if (n =? 10)%nat then ["092"; "n"]%char
  else if (n =? 13)%nat then ["092"; "r"]%char
  else if (n =? 9)%nat then ["092"; "t"]%char
  else if (n <? 32)%nat then
    ["092"; "u"; "0"; "0"; hexDigit (n / 16); hexDigit (n mod 16)]%char
  else [c].

Definition quote (s : string) : list ascii :=
  "034"%char :: flat_map escapeChar (list_ascii_of_string s) ++ ["034"%char].

(** The texts of the elements, separated by commas. *)
Definition joinWith {A} (f : A -> list ascii) : list A -> list ascii :=
  fix go (l : list A) : list ascii :=
    match l with
    | [] => []
    | x :: rest => f x ++ match rest with [] => [] | _ => ","%char :: go rest end
    end.

Definition renderMember (f : jsval -> list ascii) (kv : string * jsval) : list ascii :=
  match kv with
  | (k, x) => quote k ++ ":"%char :: f x
  end.

Fixpoint render (v : jsval) : list ascii :=
  match v with
  | JNull => list_ascii_of_string "null"
  | JBool true => list_ascii_of_string "true"
  | JBool false => list_ascii_of_string "false"
  | JNum n => list_ascii_of_string (string_of_Z n)
  | JStr s => quote s
  | JArr items => "["%char :: joinWith render items ++ ["]"%char]
  | JObj fields => "{"%char :: joinWith (renderMember render) fields ++ ["}"%char]
  end.

Definition stringify (v : jsval) : string := string_of_list_ascii (render v).

(** *** Reading *)

Fixpoint spanDigits (s : list ascii) : list ascii * list ascii :=
  match s with
  | c :: rest =>
      if isDigit c
      then let '(ds, r) := spanDigits rest in (c :: ds, r)
      else ([], s)
  | [] => ([], [])
  end.

Definition readNat (s : list ascii) : option (Z * list ascii) :=
  let '(ds, rest) := spanDigits s in
  match NilZero.uint_of_string (string_of_list_ascii ds) with
  | Some d => Some (Z.of_uint d, rest)
  | None => None
  end.

Definition readNumber (s : list ascii) : option (Z * list ascii) :=
  match s with
  | c :: rest =>
      if (code c =? 45)%nat
      then match readNat rest with Some (n, r) => Some (- n, r) | None => None end
      else readNat s
  | [] => None
  end.

Definition hexValue (c : ascii) : option nat :=
  let n := code c in
  if ((48 <=? n) && (n <=? 57))%nat then Some (n - 48)%nat
  else if ((97 <=? n) && (n <=? 102))%nat then Some (n - 87)%nat
  else if ((65 <=? n) && (n <=? 70))%nat then Some (n - 55)%nat
  else None.

(** The character written as [u] and four hexadecimal digits, when it is
    below 256. *)
Definition unicodeEscape (a b c d : ascii) : option ascii :=
  match hexValue a, hexValue b, hexValue c, hexValue d with
  | Some x, Some y, Some z, Some w =>
      let n := (((x * 16 + y) * 16 + z) * 16 + w)%nat in
      if (n <? 256)%nat then Some (ascii_of_nat n) else None
  | _, _, _, _ => None
  end.

(** The character written by a two-character escape. *)
Definition simpleEscape (e : ascii) : option ascii :=
  let n := code e in
  if (n =? 34)%nat then Some "034"%char
  else if (n =? 92)%nat then Some "092"%char
  else if (n =? 47)%nat then Some "/"%char
  else if (n =? 98)%nat then Some "008"%char
  else if (n =? 102)%nat then Some "012"%char
  else if (n =? 110)%nat then Some "010"%char
  else if (n =? 114)%nat then Some "013"%char
  else if (n =? 116)%nat then Some "009"%char
  else None.

(** The characters of a string literal after its opening quote, up to the
    closing quote. *)
Fixpoint readChars (s : list ascii) : option (list ascii * list ascii) :=
  match s with
  | [] => None
  | c :: rest =>
      if (code c =? 34)%nat then Some ([], rest)
      else if (code c =? 92)%nat then
        match rest with
        | e :: rest' =>
            if (code e =? 117)%nat then
              match rest' with
              | h1 :: h2 :: h3 :: h4 :: more =>
                  match unicodeEscape h1 h2 h3 h4, readChars more with
                  | Some x, Some (cs, r) => Some (x :: cs, r)
                  | _, _ => None
                  end
              | _ => None
              end
            else
              match simpleEscape e, readChars rest' with
              | Some x, Some (cs, r) => Some (x :: cs, r)
              | _, _ => None
              end
        | [] => None
        end
      else if (code c <? 32)%nat then None
      else match readChars rest with
           | Some (cs, r) => Some (c :: cs, r)
           | None => None
           end
  end.

Definition readString (s : list ascii) : option (string * list ascii) :=
  match s with
  | c :: rest =>
      if (code c =? 34)%nat
      then match readChars rest with
           | Some (cs, r) => Some (string_of_list_ascii cs, r)
           | None => None
           end
      else None
  | [] => None
  end.

(** [s] without the keyword [kw] it starts with. *)
Fixpoint after (kw s : list ascii) : option (list ascii) :=
  match kw, s with
  | [], _ => Some s
  | k :: kw', c :: s' => if Ascii.eqb k c then after kw' s' else None
  | _ :: _, [] => None
  end.

(** Recursive descent; [fuel] bounds the depth of the calls. *)
Fixpoint readValue (fuel : nat) (s : list ascii) : option (jsval * list ascii) :=
  match fuel with
  | O => None
  | S fuel =>
      match skipWs s with
      | [] => None
      | c :: rest =>
          if (code c =? 91)%nat then
            match skipWs rest with
            | c' :: rest' =>
                if (code c' =? 93)%nat then Some (JArr [], rest')
                else match readItems fuel rest with
                     | Some (items, r) => Some (JArr items, r)
                     | None => None
                     end
            | [] => None
            end
          else if (code c =? 123)%nat then
            match skipWs rest with
            | c' :: rest' =>
                if (code c' =? 125)%nat then Some (JObj [], rest')
                else match readMembers fuel rest with
                     | Some (fields, r) => Some (JObj fields, r)
                     | None => None
                     end
            | [] => None
            end
          else if (code c =? 34)%nat then
            match readString (c :: rest) with
            | Some (str, r) => Some (JStr str, r)
            | None => None
            end
          else if (code c =? 110)%nat then
            match after (list_ascii_of_string "null") (c :: rest) with
            | Some r => Some (JNull, r)
            | None => None
            end
          else if (code c =? 116)%nat then
            match after (list_ascii_of_string "true") (c :: rest) with
            | Some r => Some (JBool true, r)
            | None => None
            end
          else if (code c =? 102)%nat then
            match after (list_ascii_of_string "false") (c :: rest) with
            | Some r => Some (JBool false, r)
            | None => None
            end
          else
            match readNumber (c :: rest) with
            | Some (n, r) => Some (JNum n, r)
            | None => None
            end
      end
  end
with readItems (fuel : nat) (s : list ascii) : option (list jsval * list ascii) :=
  match fuel with
  | O => None
  | S fuel =>
      match readValue fuel s with
      | Some (x, r) =>
          match skipWs r with
          | c :: more =>
              if (code c =? 44)%nat then
                match readItems fuel more with
                | Some (xs, r2) => Some (x :: xs, r2)
                | None => None
                end
              else if (code c =? 93)%nat then Some ([x], more)
              else None
          | [] => None
          end
      | None => None
      end
  end
with readMembers (fuel : nat) (s : list ascii)
  : option (list (string * jsval) * list ascii) :=
  match fuel with
  | O => None
  | S fuel =>
      match readString (skipWs s) with
      | Some (k, r) =>
          match skipWs r with
          | c :: r1 =>
              if (code c =? 58)%nat then
                match readValue fuel r1 with
                | Some (x, r2) =>
                    match skipWs r2 with
                    | c' :: r3 =>
                        if (code c' =? 44)%nat then
                          match readMembers fuel r3 with
                          | Some (more, r4) => Some ((k, x) :: more, r4)
                          | None => None
                          end
                        else if (code c' =? 125)%nat then Some ([(k, x)], r3)
                        else None
                    | [] => None
                    end
                | None => None
                end
              else None
          | [] => None
          end
      | None => None
      end
  end.

(** One value, white space around it, nothing else. *)
Definition parse (s : string) : option jsval :=
  let cs := list_ascii_of_string s in
  match readValue (S (length cs)) cs with
  | Some (v, rest) => match skipWs rest with [] => Some v | _ => None end
  | None => None
  end.

Definition codec : Codec := {| JSON_parse := parse; JSON_stringify := stringify |}.

(** The number of nodes of a value, which bounds the fuel that reading its
    text takes. *)
Fixpoint size (v : jsval) : nat :=
  match v with
  | JArr items => S (fold_right (fun x acc => S (size x + acc)) O items)
  | JObj fields => S (fold_right (fun kv acc => S (size (snd kv) + acc)) O fields)
  | _ => 1
  end.

(** What may follow a number in a text: no digit. *)
Definition noDigitAhead (s : list ascii) : Prop :=
  match s with
  | c :: _ => isDigit c = false
  | [] => True
  end.

(** The first character of the text of a value: neither white space nor a
    closing bracket. *)
Definition opens (c : ascii) : Prop :=
  isWs c = false /\ code c <> 93%nat /\ code c <> 125%nat.

(** Reading the text of [v] gives [v] back and stops where the text ends. *)
Definition readsBack (v : jsval) : Prop :=
  forall fuel rest,
    (size v <= fuel)%nat -> noDigitAhead rest ->
    readValue fuel (render v ++ rest) = Some (v, rest).

Definition sizeItems (l : list jsval) : nat :=
  fold_right (fun x acc => S (size x + acc)) O l.

Definition sizeMembers (l : list (string * jsval)) : nat :=
  fold_right (fun kv acc => S (size (snd kv) + acc)) O l.

End JsonText.

(** ** Notions used to state the properties *)
Module Notions.
Import ChatStore.

(** [a] may stand before [b] in an array sorted with [compare]. *)
Definition notAfter {A} (compare : A -> A -> Z) (a b : A) : Prop := compare a b <= 0.

(** [a] and [b] compare as equal. *)
Definition tied {A} (compare : A -> A -> Z) (a b : A) : bool :=
  (compare a b <=? 0) && (compare b a <=? 0).

(** The two sort keys of a chat, read as the comparator of [sortList] reads
    them. *)
Definition topKey (c : Chats) : Z := num_or (isTop c) 0.
Definition timeKey (c : Chats) : Z := num_or (messageTime c) 0.

(** [isTop] descending, then [messageTime] descending. *)
Definition chatOrder (a b : Chats) : Prop :=
  topKey b < topKey a \/ (topKey a = topKey b /\ timeKey b <= timeKey a).

(** The chats that carry the given pair of keys. *)
Definition sameKeys (top time : Z) (c : Chats) : bool :=
  (topKey c =? top) && (timeKey c =? time).

(** [c.isMute === 0] *)
Definition notMuted (c : Chats) : bool :=
  match isMute c with Some 0 => true | _ => false end.

Definition sumZ (l : list Z) : Z := fold_right Z.add 0 l.

(** The members of a group whose role is [OWNER]. *)
Definition owners (ms : gmap string GroupStore.GroupMember)
  : gmap string GroupStore.GroupMember :=
  filter (fun kv => GroupStore.role kv.2 = Some GroupMemberRole.OWNER) ms.

(** The keys of the handler table of [applyGroupOperation]. *)
Definition recognized : list Z :=
  [ MessageContentType.KICK_FROM_GROUP; MessageContentType.PROMOTE_TO_ADMIN;
    MessageContentType.DEMOTE_FROM_ADMIN; MessageContentType.TRANSFER_GROUP_OWNER;
    MessageContentType.MUTE_MEMBER; MessageContentType.UNMUTE_MEMBER;
    MessageContentType.MUTE_ALL; MessageContentType.UNMUTE_ALL;
    MessageContentType.SET_MEMBER_ROLE; MessageContentType.SET_GROUP_INFO;
    MessageContentType.SET_GROUP_ANNOUNCEMENT; MessageContentType.SET_GROUP_JOIN_MODE;
    MessageContentType.REMOVE_GROUP; MessageContentType.JOIN_GROUP;
    MessageContentType.LEAVE_GROUP ].

End Notions.
Export Notions.

(** ** Sample data, used to run the definitions *)
Module Samples.
Import ErrorHandler Models ChatStore.

(** A wrapped call that throws, and a context that supplies a fallback. *)
Definition failingCall : unit -> Completion Z :=
  fun _ => Rejected (CaughtError (mkError "request failed")).

(** A wrapped call that throws a string: [throw 'boom']. *)
Definition throwingText : unit -> Completion Z :=
  fun _ => Rejected CaughtPrimitive.

Definition contextWithFallback : HandleErrorContext Z :=
  {| operation := Some "fetchChat"%string; showNotification := None; silent := None;
     customMessage := None; data := None; fallback := Some 7 |}.

(** Stand-ins for the translation table and for [textReplaceMention]: the
    placeholders in English, and the html left as it is. *)
Definition translate (key : string) : string :=
  if String.eqb key "pages.chat.preview.image" then "[image]"
  else if String.eqb key "pages.chat.preview.video" then "[video]"
  else if String.eqb key "pages.chat.preview.audio" then "[audio]"
  else if String.eqb key "pages.chat.preview.file" then "[file]"
  else if String.eqb key "pages.chat.mention.you" then "[@you]"
  else if String.eqb key "pages.chat.mention.all" then "[@all]"
  else key.

Definition keepHtml (html color : string) : string := html.

(** A conversation with user [u2], three messages unread, last reconciled
    at sequence 10. *)
Definition chatWithLin : Chats :=
  {| chatId := "c1"; toId := "u2"; chatType := 1000; name := "Lin";
     message := "see you at ten"; messageTime := Some 2000; sequence := Some 10;
     unread := Some 3; isTop := Some 0; isMute := Some 0 |}.

(** A message of [u2] that arrives late: its sequence is 5. *)
Definition lateMessage : IMessage.t :=
  {| IMessage.fromId := "u2"; IMessage.messageTempId := "t5";
     IMessage.messageId := Some "m5"%string; IMessage.messageContentType := 1;
     IMessage.messageTime := Some 1500; IMessage.sequence := Some 5;
     IMessage.messageBody := JObj [("text"%string, JStr "on my way")];
     IMessage.mentionAll := None; IMessage.mentionedUserIds := None;
     IMessage.previewText := None |}.

(** A message written by the local user [me] on another device. *)
Definition ownMessage : IMessage.t :=
  {| IMessage.fromId := "me"; IMessage.messageTempId := "t11";
     IMessage.messageId := Some "m11"%string; IMessage.messageContentType := 1;
     IMessage.messageTime := Some 2100; IMessage.sequence := Some 11;
     IMessage.messageBody := JObj [("text"%string, JStr "sent from my phone")];
     IMessage.mentionAll := None; IMessage.mentionedUserIds := None;
     IMessage.previewText := None |}.

(** The store of user [me] with that one conversation, not open. *)
Definition closedState : ChatState :=
  {| chatList := [chatWithLin]; messageList := []; currentChat := None;
     loading := false; ownerId := "me"; notificationMessage := true;
     membersExcludeSelf := [];
     pending := []; played := [] |}.

(** A group conversation, three messages unread, not open either. *)
Definition teamChat : Chats :=
  {| chatId := "c2"; toId := "g1"; chatType := 1001; name := "Team";
     message := "standup at nine"; messageTime := Some 2000; sequence := Some 10;
     unread := Some 3; isTop := Some 0; isMute := Some 0 |}.

Definition teamState : ChatState :=
  {| chatList := [teamChat]; messageList := []; currentChat := None;
     loading := false; ownerId := "me"; notificationMessage := true;
     membersExcludeSelf := [];
     pending := []; played := [] |}.

(** A muted conversation with seven messages unread, next to the first
    one. *)
Definition mutedChat : Chats :=
  {| chatId := "c3"; toId := "g2"; chatType := 1001; name := "News";
     message := "digest"; messageTime := Some 1900; sequence := Some 40;
     unread := Some 7; isTop := Some 0; isMute := Some 1 |}.

Definition stateWithMuted : ChatState :=
  {| chatList := [chatWithLin; mutedChat]; messageList := []; currentChat := None;
     loading := false; ownerId := "me"; notificationMessage := true;
     membersExcludeSelf := [];
     pending := []; played := [] |}.

(** Scenario 10 of the specification: [chatA] not pinned, [chatB] pinned and
    older; a message for [chatA] arrives with [messageTime] 200. *)
Definition chatA : Chats :=
  {| chatId := "a"; toId := "ua"; chatType := 1000; name := "A"; message := "";
     messageTime := Some 100; sequence := Some 1; unread := Some 0;
     isTop := Some 0; isMute := Some 0 |}.

Definition chatB : Chats :=
  {| chatId := "b"; toId := "ub"; chatType := 1000; name := "B"; message := "";
     messageTime := Some 50; sequence := Some 1; unread := Some 0;
     isTop := Some 1; isMute := Some 0 |}.

Definition messageForA : IMessage.t :=
  {| IMessage.fromId := "ua"; IMessage.messageTempId := "t2";
     IMessage.messageId := Some "m2"%string; IMessage.messageContentType := 1;
     IMessage.messageTime := Some 200; IMessage.sequence := Some 2;
     IMessage.messageBody := JObj [("text"%string, JStr "hello")];
     IMessage.mentionAll := None; IMessage.mentionedUserIds := None;
     IMessage.previewText := None |}.

Definition stateAB : ChatState :=
  {| chatList := [chatA; chatB]; messageList := []; currentChat := None;
     loading := false; ownerId := "me"; notificationMessage := false;
     membersExcludeSelf := [];
     pending := []; played := [] |}.

(** A group of three: [u1] owns it, [u3] administers it. *)
Definition groupMember (id : string) (r : Z) : GroupStore.GroupMember :=
  {| GroupStore.userId := id; GroupStore.name := id; GroupStore.avatar := None;
     GroupStore.role := Some r; GroupStore.mute := Some GroupMuteStatus.NORMAL;
     GroupStore.muteEndTime := None; GroupStore.alias := None |}.

Definition groupOfThree : GroupStore.GroupState :=
  {| GroupStore.members :=
       <["u1"%string := groupMember "u1" GroupMemberRole.OWNER]>
         (<["u2"%string := groupMember "u2" GroupMemberRole.MEMBER]>
            (<["u3"%string := groupMember "u3" GroupMemberRole.ADMIN]> ∅));
     GroupStore.info := None; GroupStore.loading := false; GroupStore.error := None;
     GroupStore.currentGroupId := Some "g1"%string; GroupStore.log := [];
     GroupStore.requested := [] |}.

(** An operation of type [type] by [u1] on [target] in group [g1]. *)
Definition groupOperation (type : Z) (target : string) : GroupOperationMessageBody.t :=
  {| GroupOperationMessageBody.operationType := type;
     GroupOperationMessageBody.groupId := "g1";
     GroupOperationMessageBody.groupName := None;
     GroupOperationMessageBody.groupAvatar := None;
     GroupOperationMessageBody.operatorId := "u1";
     GroupOperationMessageBody.targetUserId := Some target;
     GroupOperationMessageBody.operationTime := 1000;
     GroupOperationMessageBody.extra := None;
     GroupOperationMessageBody.description := None |}.

(** A message body that is not JSON. *)
Definition greeting : string := "hello there".

(** A recall of message [m5] by [u2], as the server sends it, and the same
    directive without its [recallTime]. *)
Definition recallAt (time : option Z) : IMessageAction.t :=
  {| IMessageAction.messageId := Some "m5"%string;
     IMessageAction.messageBody :=
       {| RecallMessageBody.messageId := "m5";
          RecallMessageBody.operatorId := Some "u2"%string;
          RecallMessageBody.reason := None;
          RecallMessageBody.recallTime := time;
          RecallMessageBody.chatId := Some "c1"%string;
          RecallMessageBody.chatType := Some 1000 |} |}.

(** The conversation with [u2] is open and shows message [m5]. *)
Definition openState : ChatState :=
  {| chatList := [chatWithLin]; messageList := [lateMessage];
     currentChat := Some chatWithLin; loading := false; ownerId := "me";
     notificationMessage := true;
     membersExcludeSelf := []; pending := []; played := [] |}.

(** The persisted store holds the row of [m5] and its full-text shadow. *)
Definition storeWithM5 : Store :=
  {| chatRows := ∅; chatFts := ∅;
     singleRows := {[ "m5"%string :=
                        {| rowFromId := "u2"; rowMessageTime := 1500;
                           rowBody := "on my way"; rowContentType := 1 |} ]};
     singleFts := {[ "m5"%string := "on my way"%string ]};
     groupRows := ∅; groupFts := ∅ |}.

End Samples.

(** ** [utils/ErrorTypes.ts]: the error classes and their factory *)
Module ErrorTypes.

(** [ErrorCategory], the categories of those classes. *)
Module ErrorCategory.
Definition NETWORK : string := "network".
Definition AUTH : string := "auth".
Definition VALIDATION : string := "validation".
Definition DATABASE : string := "database".
Definition SYSTEM : string := "system".
End ErrorCategory.

(** An instance of [AppError] or of one of its subclasses: the [Error] it
    is, with [code], [category] and [severity], and the fields only the
    classes declare.  In [details] a key bound to [None] holds [undefined].
    As in [mkError], the stack that the engine records is left out. *)
Record AppError := {
  asError : JsError;
  details : option (list (string * option jsval));
  originalError : option JsError;
  field : option string
}.

(** [super(message, code, category, severity, details, originalError)]
    followed by [this.name = name]. *)
Definition construct (name message code category : string) (severity : ErrorSeverity)
    (details : option (list (string * option jsval))) (originalError : option JsError)
  : AppError :=
  {| asError := {| errName := name; errMessage := message; errStack := None;
                   appError := Some {| errCode := code; errCategory := category;
                                       errSeverity := severity |} |};
     details := details; originalError := originalError; field := None |}.

(** The constructors of the subclasses that the factory instantiates; an
    argument left out is [None] and takes the default of the parameter. *)
Definition NetworkError (message : option string) details originalError : AppError :=
  construct "NetworkError" (default "网络请求失败"%string message) "NETWORK_ERROR"
    ErrorCategory.NETWORK SevMedium details originalError.

Definition AuthError (message : option string) details originalError : AppError :=
  construct "AuthError" (default "认证失败"%string message) "AUTH_ERROR"
    ErrorCategory.AUTH SevHigh details originalError.

Definition ValidationError (message : option string) (field : option string) details
  : AppError :=
  {| asError := asError (construct "ValidationError"
                           (default "数据验证失败"%string message) "VALIDATION_ERROR"
                           ErrorCategory.VALIDATION SevLow details None);
     details := details; originalError := None; field := field |}.

Definition DatabaseError (message : option string) details originalError : AppError :=
  construct "DatabaseError" (default "数据库操作失败"%string message) "DATABASE_ERROR"
    ErrorCategory.DATABASE SevHigh details originalError.

Definition SystemError (message : option string) details originalError : AppError :=
  construct "SystemError" (default "系统错误"%string message) "SYSTEM_ERROR"
    ErrorCategory.SYSTEM SevCritical details originalError.

Definition WebSocketError (message : option string) details originalError : AppError :=
  construct "WebSocketError" (default "WebSocket 连接错误"%string message) "WEBSOCKET_ERROR"
    ErrorCategory.NETWORK SevHigh details originalError.

(** A value caught by a [catch]: an [AppError], another [Error], or anything
    else ([None] is [undefined]). *)
Inductive unknown :=
| AnAppError (e : AppError)
| AnError (e : JsError)
| AValue (v : option jsval).

(** [ErrorFactory.fromUnknown(error, defaultMessage)] *)
Definition fromUnknown (error : unknown) (defaultMessage : option string) : AppError :=
  match error with
  | AnAppError e => e
  | AnError e =>
      let message := ErrorHandler.toLowerCase (errMessage e) in
      let includes := ErrorHandler.includes message in
      if includes "network" || includes "fetch" then
        NetworkError (Some (errMessage e)) (Some []) (Some e)
      else if includes "auth" || includes "token" then
        AuthError (Some (errMessage e)) (Some []) (Some e)
      else if includes "validation" || includes "invalid" then
        ValidationError (Some (errMessage e)) None None
      else if includes "database" || includes "sql" then
        DatabaseError (Some (errMessage e)) (Some []) (Some e)
      else if includes "websocket" then
        WebSocketError (Some (errMessage e)) (Some []) (Some e)
      else SystemError (Some (errMessage e)) (Some []) (Some e)
  | AValue v =>
      SystemError (Some (default "未知错误"%string defaultMessage))
        (Some [("originalError"%string, v)]) None
  end.

(** The key under which [ErrorNotification.show] debounces an error:
    [isAppError ? error.code : error.message]. *)
Definition errorKey (error : JsError) : string :=
  match appError error with
  | Some app => errCode app
  | None => errMessage error
  end.

(** [severity === ErrorSeverity.CRITICAL], where a plain [Error] counts as
    of medium severity. *)
Definition isCritical (error : JsError) : bool :=
  match appError error with
  | Some app => match errSeverity app with SevCritical => true | _ => false end
  | None => false
  end.

End ErrorTypes.

(** ** [core.ts]: what becomes of a queued envelope *)
Module Dispatcher.
Import MessageType.

(** The calls that the callback of [handleMessage] makes. *)
Inductive Call :=
| LogError (tag message : string)
| LogWarn (tag message : string)
| ForceLogout (message : jsval)
| RefreshToken
| HandleChatMessage (code : Z) (data : jsval)
| HandleCallMessage (data : jsval)
| ApplyGroupOperation (code : Z) (data : jsval)
| HandleReCallMessage (data : jsval).

(** The callback that [handleMessage] attaches to the queue, run on the item
    [{ code, data }]: the calls it makes, in order.  [HandleReCallMessage]
    stands for [IMessageAction.fromPlain(data)] followed by
    [chat.handleReCallMessage]. *)
Definition dispatch (T : codes) (code : Z) (data : option jsval) : list Call :=
  if (code =? REGISTER_SUCCESS T) || (code =? HEART_BEAT_SUCCESS T) then []
  else if code =? REGISTER_FAILED T then [LogError "websocket" "注册失败"]
  else if code =? HEART_BEAT_FAILED T then [LogWarn "websocket" "心跳失败"]
  else
    match data with
    | None => []
    | Some d =>
        if negb (truthy d) then []
        else if code =? FORCE_LOGOUT T then
          [ForceLogout (match get d "message" with
                        | Some m => if truthy m then m else JStr "您的账号在其他设备登录"
                        | None => JStr "您的账号在其他设备登录"
                        end)]
        else if code =? LOGIN_EXPIRED T then [ForceLogout (JStr "登录已过期，请重新登录")]
        else if code =? REFRESH_TOKEN T then [RefreshToken]
        else if (code =? SINGLE_MESSAGE T) || (code =? GROUP_MESSAGE T) then
          [HandleChatMessage code d]
        else
          (if code =? VIDEO_MESSAGE T then [HandleCallMessage d] else [])
          ++ (if code =? GROUP_OPERATION T then [ApplyGroupOperation code d] else [])
          ++ (if code =? MESSAGE_OPERATION T then [HandleReCallMessage d] else [])
    end.

(** A call that reaches a store. *)
Definition reachesStore (c : Call) : bool :=
  match c with
  | LogError _ _ | LogWarn _ _ => false
  | _ => true
  end.

End Dispatcher.

(** ** [constants/index.ts]: the type of a file, from its name *)
Module FileTypes.

(** [FileType] *)
Inductive FileType := Video | Markdown | Image | Pdf | Word | Excel | Powerpoint | Other.

(** [extensionMap], in the order of its keys. *)
Definition extensionMap : list (FileType * list string) :=
  [ (Video, ["mp4"; "mov"; "avi"; "wmv"; "mkv"; "mpeg"; "flv"; "webm"]);
    (Markdown, ["md"]);
    (Image, ["jpg"; "jpeg"; "png"; "gif"; "bmp"; "svg"; "webp"]);
    (Pdf, ["pdf"]);
    (Word, ["doc"; "docx"; "odt"; "rtf"]);
    (Excel, ["xls"; "xlsx"]);
    (Powerpoint, ["ppt"; "pptx"]);
    (Other, []) ]%string.

(** The part of [fileName] after its last dot: [None] when there is no dot
    ([lastIndexOf] gives [-1]). *)
Fixpoint afterLastDot (fileName : string) : option string :=
  match fileName with
  | EmptyString => None
  | String c rest =>
      match afterLastDot rest with
      | Some ext => Some ext
      | None => if Ascii.eqb c "." then Some rest else None
      end
  end.

(** [getExtension(fileName)], lowering the ASCII letters. *)
Definition getExtension (fileName : string) : string :=
  match afterLastDot fileName with
  | None | Some EmptyString => ""
  | Some ext => ErrorHandler.toLowerCase ext
  end.

(** [fromExtension(extension)]: the first type whose list has it. *)
Definition fromExtension (extension : string) : FileType :=
  let ext := ErrorHandler.toLowerCase extension in
  match List.find (fun entry => existsb (String.eqb ext) (snd entry)) extensionMap with
  | Some (type, _) => type
  | None => Other
  end.

(** [fromFileName(fileName)] *)
Definition fromFileName (fileName : string) : FileType :=
  fromExtension (getExtension fileName).

(** No byte of the string is a dot. *)
Fixpoint dotless (s : string) : bool :=
  match s with
  | EmptyString => true
  | String c rest => negb (Ascii.eqb c ".") && dotless rest
  end.

End FileTypes.

(** ** [core.ts]: the drafts of the input editor *)
Module Drafts.

(** The [DraftManager] once [init()] has run: its [draftMap], and what
    [persist()] handed to the storage, latest first.  [persist] serialises
    the map with [JSON.stringify]; the model keeps the map that was written
    in place of its text, and takes the storage to accept the write (the
    source ignores a write that throws). *)
Record DraftManager := {
  draftMap : gmap string string;
  persisted : list (gmap string string)
}.

(** [persist()] *)
Definition persist (d : DraftManager) : DraftManager :=
  {| draftMap := draftMap d; persisted := draftMap d :: persisted d |}.

(** [html?.trim()] is falsy: the text is empty or white space only. *)
Definition blank (html : string) : bool := String.eqb (trim html) "".

(** The names every object inherits from [Object.prototype].  [draftMap] is
    an object literal, or what [JSON.parse] made: under such a name
    [draftMap[name]] is, unless the map holds a draft of that name, a member
    of the prototype and not [undefined]. *)
Definition inheritedNames : list string :=
  ["constructor"; "hasOwnProperty"; "isPrototypeOf"; "propertyIsEnumerable";
   "toLocaleString"; "toString"; "valueOf"; "__proto__"; "__defineGetter__";
   "__defineSetter__"; "__lookupGetter__"; "__lookupSetter__"]%string.

Definition inherited (name : string) : bool := existsb (String.eqb name) inheritedNames.

(** What [this.draftMap[key]] evaluates to when it is not [undefined]: a
    draft of the map, or a member of [Object.prototype]. *)
Inductive Slot :=
| Draft (html : string)
| Builtin.

Definition lookup (key : string) (d : DraftManager) : option Slot :=
  match draftMap d !! key with
  | Some html => Some (Draft html)
  | None => if inherited key then Some Builtin else None
  end.

(** [get(chatId)]: [this.draftMap[String(chatId)] || undefined].  [chatId]
    is given as [String(chatId)]. *)
Definition get (chatId : string) (d : DraftManager) : option Slot :=
  match lookup chatId d with
  | Some (Draft html) => if String.eqb html "" then None else Some (Draft html)
  | Some Builtin => Some Builtin
  | None => None
  end.

(** [this.draftMap[id] = html].  The name [__proto__], unless the map holds
    a draft of that name, is the accessor of [Object.prototype], which
    ignores a string. *)
Definition assign (id html : string) (m : gmap string string) : gmap string string :=
  if String.eqb id "__proto__" && negb (bool_decide (is_Some (m !! id))) then m
  else <[id := html]> m.

(** [set(chatId, html)] *)
Definition set (chatId html : string) (d : DraftManager) : DraftManager :=
  if negb (truthy_str chatId) then d
  else
    persist
      {| draftMap := if negb (blank html) then assign chatId html (draftMap d)
                     else delete chatId (draftMap d);
         persisted := persisted d |}.

(** [clear(chatId)] *)
Definition clear (chatId : string) (d : DraftManager) : DraftManager :=
  persist {| draftMap := delete chatId (draftMap d); persisted := persisted d |}.

(** The [TypeError] of a call of [trim] on a value that has no such
    method. *)
Definition NotAFunction : JsError :=
  {| errName := "TypeError"; errMessage := "trim is not a function";
     errStack := None; appError := None |}.

(** [has(chatId)]: [!!this.draftMap[String(chatId)]?.trim()] *)
Definition has (chatId : string) (d : DraftManager) : outcome bool :=
  match lookup chatId d with
  | Some (Draft html) => Returned (negb (blank html))
  | Some Builtin => Thrown NotAFunction
  | None => Returned false
  end.

(** No draft kept is blank. *)
Definition tidy (d : DraftManager) : Prop :=
  forall id html, draftMap d !! id = Some html -> blank html = false.

End Drafts.

(** ** [core.ts]: the queue of files waiting to be sent *)
Module FileQueue.

(** The fields of a [File] that the queue reads. *)
Record File := {
  fileName : string;
  fileSize : Z;
  fileType : string
}.

(** [PendingFile] *)
Record PendingFile := {
  id : string;
  file : File;
  name : string;
  size : Z;
  type : string;
  preview : option string
}.

Definition MAX_FILE_COUNT : Z := 9.
Definition MAX_FILE_SIZE : Z := 100 * 1024 * 1024.

(** What [addFiles] resolves to. *)
Record Added := {
  added : Z;
  skipped : Z;
  errors : list string
}.

Section Queue.

(** [generateFileId] draws on the clock and on [Math.random], and
    [createPreview] on the [FileReader] of the platform; both are taken as
    given for each file. *)
Variable generateFileId : File -> string.
Variable readAsDataURL : File -> option string.

(** [createPreview(file)] *)
Definition createPreview (f : File) : option string :=
  if negb (String.prefix "image/" (fileType f)) then None else readAsDataURL f.

(** One turn of the loop of [addFiles]. *)
Definition addFile (acc : list PendingFile * Added) (f : File) : list PendingFile * Added :=
  let '(pendingFiles, r) := acc in
  if Z.of_nat (length pendingFiles) >=? MAX_FILE_COUNT then
    (pendingFiles,
     {| added := added r; skipped := skipped r + 1;
        errors := errors r ++ ["最多只能添加 " ++ string_of_Z MAX_FILE_COUNT ++ " 个文件"]%string |})
  else if fileSize f >? MAX_FILE_SIZE then
    (pendingFiles,
     {| added := added r; skipped := skipped r + 1;
        errors := errors r
                  ++ ["文件 " ++ String "034" (fileName f) ++ String "034" " 超过 100MB 限制"]%string |})
  else if existsb (fun p => String.eqb (name p) (fileName f) && (size p =? fileSize f))
            pendingFiles then
    (pendingFiles, {| added := added r; skipped := skipped r + 1; errors := errors r |})
  else
    (pendingFiles ++ [{| id := generateFileId f; file := f; name := fileName f;
                         size := fileSize f; type := fileType f;
                         preview := createPreview f |}],
     {| added := added r + 1; skipped := skipped r; errors := errors r |}).

(** [addFiles(files)]: the queue afterwards and the report. *)
Definition addFiles (files : list File) (pendingFiles : list PendingFile)
  : list PendingFile * Added :=
  fold_left addFile files (pendingFiles, {| added := 0; skipped := 0; errors := [] |}).

End Queue.

(** [file.preview?.startsWith("blob:")] *)
Definition isBlob (p : PendingFile) : bool :=
  match preview p with
  | Some url => String.prefix "blob:" url
  | None => false
  end.

(** [removeFile(index)], on an integer [index]: the queue afterwards and the
    preview URLs handed to [URL.revokeObjectURL]. *)
Definition removeFile (index : Z) (pendingFiles : list PendingFile)
  : list PendingFile * list string :=
  if (0 <=? index) && (index <? Z.of_nat (length pendingFiles)) then
    (delete (Z.to_nat index) pendingFiles,
     match pendingFiles !! Z.to_nat index with
     | Some p => if isBlob p then [default ""%string (preview p)] else []
     | None => []
     end)
  else (pendingFiles, []).

(** The pair on which [addFiles] recognises a file already queued. *)
Definition fingerprint (p : PendingFile) : string * Z := (name p, size p).

End FileQueue.

(** ** [store/modules/chat.ts]: pinning, muting and ignoring conversations *)
Module ChatOps.
Import Models ChatStore.

Definition set_isTop (v : option Z) (c : Chats) : Chats :=
  {| chatId := chatId c; toId := toId c; chatType := chatType c; name := name c;
     message := message c; messageTime := messageTime c; sequence := sequence c;
     unread := unread c; isTop := v; isMute := isMute c |}.

Definition set_isMute (v : option Z) (c : Chats) : Chats :=
  {| chatId := chatId c; toId := toId c; chatType := chatType c; name := name c;
     message := message c; messageTime := messageTime c; sequence := sequence c;
     unread := unread c; isTop := isTop c; isMute := v |}.

(** [chatsMapper.updateById(id, patch)], awaited by the caller: the row with
    that id, if there is one, is patched at once.  The update is taken to
    resolve; were it to reject, the caller would stop at its [await]. *)
Definition updateById (id : string) (patch : Chats -> Chats) (db : Store) : Store :=
  {| chatRows := alter patch id (chatRows db); chatFts := chatFts db;
     singleRows := singleRows db; singleFts := singleFts db;
     groupRows := groupRows db; groupFts := groupFts db |}.

(** [togglePin(chat)], exported as [handlePinChat] *)
Definition togglePin (chat : Chats) (st : ChatState) (db : Store) : ChatState * Store :=
  match findIdx st (chatId chat) with
  | None => (st, db)
  | Some idx =>
      match chatList st !! idx with
      | None => (st, db)
      | Some entry =>
          let isTop := if bool_decide (isTop entry = Some 1) then 0 else 1 in
          (sortList (set_chatList (alter (set_isTop (Some isTop)) idx (chatList st)) st),
           updateById (chatId chat) (set_isTop (Some isTop)) db)
      end
  end.

(** [toggleMute(chat)], exported as [handleMuteChat] *)
Definition toggleMute (chat : Chats) (st : ChatState) (db : Store) : ChatState * Store :=
  match findIdx st (chatId chat) with
  | None => (st, db)
  | Some idx =>
      match chatList st !! idx with
      | None => (st, db)
      | Some entry =>
          let isMute := if bool_decide (isMute entry = Some 1) then 0 else 1 in
          (sortList (set_chatList (alter (set_isMute (Some isMute)) idx (chatList st)) st),
           updateById (chatId chat) (set_isMute (Some isMute)) db)
      end
  end.

(** [getters.unreadChats]: [chatList.filter(c => c.unread > 0)] *)
Definition unreadChats (st : ChatState) : list Chats :=
  List.filter (fun c => match unread c with Some n => 0 <? n | None => false end)
    (chatList st).

(** [ignoreAll()], exported as [handleIgnoreAll], on [state.ignoreList] *)
Definition ignoreAll (st : ChatState) (ignoreList : list string) : list string :=
  fold_left (fun acc c => if memberOf (chatId c) acc then acc else acc ++ [chatId c])
    (unreadChats st) ignoreList.

(** [getChat(id)], exported as [handleGetChat]: [None] is [undefined]. *)
Definition getChat (id : string) (st : ChatState) : option Chats :=
  List.find (fun c => String.eqb (chatId c) id) (chatList st).

(** The [chatId]s of the list, in order. *)
Definition chatIds (st : ChatState) : list string := List.map chatId (chatList st).

(** What [getters.totalUnread] counts of one chat. *)
Definition counted (c : Chats) : Z :=
  match isMute c with Some 0 => num_or (unread c) 0 | _ => 0 end.


End ChatOps.

(** ** [store/modules/group.ts]: getters, member management and settings *)
Module GroupAccess.
Import Models GroupStore.

(** Modelled from the spec: [GroupMemberActionParams] ([types/group] is not
    among the sources), with the fields the actions read. *)
Module Params.
Record t := {
  groupId : string;
  targetUserId : string;
  role : option Z;
  mute : option Z;
  muteDuration : option Z;
  alias : option string;
  remark : option string
}.
End Params.

(** The requests of [api/index.ts] that the actions send, each with the
    payload the action builds. *)
Inductive ApiCall :=
| KickGroupMember (groupId userId targetUserId : string)
| SetGroupAdmin (groupId userId targetUserId : string) (role : Z)
| TransferGroupOwner (groupId userId targetUserId : string)
| MuteGroupMember (groupId userId targetUserId : string) (mute muteDuration : Z)
| UpdateGroupMember (groupId userId targetUserId : string) (alias remark : option string)
| SetGroupJoinMode (groupId userId : string) (applyJoinType : Z)
| MuteAllGroupMembers (groupId userId : string) (muteAll : Z)
| DismissGroup (groupId userId : string)
| QuitGroups (groupId userId : string).

(** What an action leaves behind: the boolean it resolves to, the state, and
    the requests it sent. *)
Definition Done : Type := bool * GroupState * list ApiCall.

Definition set_error (v : option string) (st : GroupState) : GroupState :=
  {| members := members st; info := info st; loading := loading st; error := v;
     currentGroupId := currentGroupId st; log := log st; requested := requested st |}.

Definition set_alias (v : option string) (m : GroupMember) : GroupMember :=
  {| userId := userId m; name := name m; avatar := avatar m; role := role m;
     mute := mute m; muteEndTime := muteEndTime m; alias := v |}.

Definition set_muteAll (v : option Z) (i : GroupInfo) : GroupInfo :=
  {| groupId := groupId i; groupName := groupName i; groupAvatar := groupAvatar i;
     notification := notification i; muteAll := v; applyJoinType := applyJoinType i |}.

Definition set_applyJoinType (v : option Z) (i : GroupInfo) : GroupInfo :=
  {| groupId := groupId i; groupName := groupName i; groupAvatar := groupAvatar i;
     notification := notification i; muteAll := muteAll i; applyJoinType := v |}.

(** [Object.values(state.members)].  The engine lists the values in the key
    order of the object; the list here follows the enumeration of the map. *)
Definition Object_values (ms : gmap string GroupMember) : list GroupMember :=
  (map_to_list ms).*2.

Section Getters.

(** [String(ownerId.value)]: the id of the signed-in user, read from the user
    store. *)
Variable me : string.

(** [getters.currentMember] *)
Definition currentMember (st : GroupState) : option GroupMember :=
  List.find (fun m => String.eqb (userId m) me) (Object_values (members st)).

(** [getters.currentRole]: [member?.role ?? GroupMemberRole.MEMBER.code] *)
Definition currentRole (st : GroupState) : Z :=
  match currentMember st with
  | Some m => default GroupMemberRole.MEMBER (role m)
  | None => GroupMemberRole.MEMBER
  end.

(** [getters.isOwner], [getters.hasAdminPermission] *)
Definition isOwner (st : GroupState) : bool := currentRole st =? GroupMemberRole.OWNER.
Definition hasAdminPermission (st : GroupState) : bool :=
  (currentRole st =? GroupMemberRole.OWNER) || (currentRole st =? GroupMemberRole.ADMIN).

(** [state.members[key]] is there. *)
Definition present (key : string) (st : GroupState) : bool :=
  bool_decide (is_Some (members st !! key)).

(** [kickMember(params)].  [result] is what [exec(() => api.KickGroupMember(...))]
    resolves to: [None] is [undefined], the value of a call that failed.
    What [safeExecute] logs and shows of a failed call is the matter of
    [ErrorHandler.execute] and is not repeated in the actions. *)
Definition kickMember (params : Params.t) (result : option jsval) (st : GroupState) : Done :=
  if negb (hasAdminPermission st) then
    (false, set_error (Some "没有权限执行此操作"%string) st, [])
  else
    let call := KickGroupMember (Params.groupId params) me (Params.targetUserId params) in
    match result with
    | Some _ =>
        (true,
         (if present (Params.targetUserId params) st
          then set_members (delete (Params.targetUserId params) (members st)) st
          else st),
         [call])
    | None => (false, st, [call])
    end.

(** [setAdmin(params)] *)
Definition setAdmin (params : Params.t) (result : option jsval) (st : GroupState) : Done :=
  if negb (isOwner st) then
    (false, set_error (Some "只有群主才能设置管理员"%string) st, [])
  else
    let call := SetGroupAdmin (Params.groupId params) me (Params.targetUserId params)
                  (default GroupMemberRole.ADMIN (Params.role params)) in
    match result with
    | Some _ =>
        (true,
         (if present (Params.targetUserId params) st
          then set_members
                 (alter (set_role (Params.role params)) (Params.targetUserId params)
                        (members st)) st
          else st),
         [call])
    | None => (false, st, [call])
    end.

(** [transferOwner(params)] *)
Definition transferOwner (params : Params.t) (result : option jsval) (st : GroupState)
  : Done :=
  if negb (isOwner st) then
    (false, set_error (Some "只有群主才能移交群主身份"%string) st, [])
  else
    let call := TransferGroupOwner (Params.groupId params) me (Params.targetUserId params) in
    match result with
    | Some _ =>
        let st :=
          if present me st
          then set_members (alter (set_role (Some GroupMemberRole.MEMBER)) me (members st)) st
          else st in
        let st :=
          if present (Params.targetUserId params) st
          then set_members
                 (alter (set_role (Some GroupMemberRole.OWNER)) (Params.targetUserId params)
                        (members st)) st
          else st in
        (true, st, [call])
    | None => (false, st, [call])
    end.

(** [muteMember(params)]; [now] is [Date.now()]. *)
Definition muteMember (now : Z) (params : Params.t) (result : option jsval)
    (st : GroupState) : Done :=
  if negb (hasAdminPermission st) then
    (false, set_error (Some "没有权限执行此操作"%string) st, [])
  else
    let call := MuteGroupMember (Params.groupId params) me (Params.targetUserId params)
                  (default GroupMuteStatus.MUTED (Params.mute params))
                  (default 0 (Params.muteDuration params)) in
    match result with
    | Some _ =>
        let until :=
          if bool_decide (Params.mute params = Some GroupMuteStatus.MUTED)
             && negb (num_or (Params.muteDuration params) 0 =? 0)
          then Some (now + num_or (Params.muteDuration params) 0 * 1000)
          else None in
        (true,
         (if present (Params.targetUserId params) st
          then set_members
                 (alter (set_mute (Params.mute params) until) (Params.targetUserId params)
                        (members st)) st
          else st),
         [call])
    | None => (false, st, [call])
    end.

(** [updateMemberInfo(params)] *)
Definition updateMemberInfo (params : Params.t) (result : option jsval) (st : GroupState)
  : Done :=
  let call := UpdateGroupMember (Params.groupId params) me (Params.targetUserId params)
                (Params.alias params) (Params.remark params) in
  match result with
  | Some _ =>
      (true,
       (if present (Params.targetUserId params) st && truthy_ostr (Params.alias params)
        then set_members
               (alter (set_alias (Params.alias params)) (Params.targetUserId params)
                      (members st)) st
        else st),
       [call])
  | None => (false, st, [call])
  end.

(** [setJoinMode(groupId, joinMode)] *)
Definition setJoinMode (groupId : string) (joinMode : Z) (result : option jsval)
    (st : GroupState) : Done :=
  if negb (hasAdminPermission st) then
    (false, set_error (Some "没有权限执行此操作"%string) st, [])
  else
    let call := SetGroupJoinMode groupId me joinMode in
    match result with
    | Some _ => (true, set_info (set_applyJoinType (Some joinMode) <$> info st) st, [call])
    | None => (false, st, [call])
    end.

(** [setMuteAll(groupId, muteAll)] *)
Definition setMuteAll (groupId : string) (muteAll : Z) (result : option jsval)
    (st : GroupState) : Done :=
  if negb (hasAdminPermission st) then
    (false, set_error (Some "没有权限执行此操作"%string) st, [])
  else
    let call := MuteAllGroupMembers groupId me muteAll in
    match result with
    | Some _ => (true, set_info (set_muteAll (Some muteAll) <$> info st) st, [call])
    | None => (false, st, [call])
    end.

(** The local state after a group was dissolved or left. *)
Definition cleared (st : GroupState) : GroupState :=
  {| members := ∅; info := None; loading := loading st; error := error st;
     currentGroupId := None; log := log st; requested := requested st |}.

(** [dismissGroup(groupId)] *)
Definition dismissGroup (groupId : string) (result : option jsval) (st : GroupState) : Done :=
  if negb (isOwner st) then
    (false, set_error (Some "只有群主才能解散群组"%string) st, [])
  else
    match result with
    | Some _ => (true, cleared st, [DismissGroup groupId me])
    | None => (false, st, [DismissGroup groupId me])
    end.

(** [quitGroup(groupId)] *)
Definition quitGroup (groupId : string) (result : option jsval) (st : GroupState) : Done :=
  if isOwner st then
    (false, set_error (Some "群主不能退出群聊，请先移交群主身份或解散群组"%string) st, [])
  else
    match result with
    | Some _ => (true, cleared st, [QuitGroups groupId me])
    | None => (false, st, [QuitGroups groupId me])
    end.

End Getters.

(** [isAdminOrOwner(userId)] *)
Definition isAdminOrOwner (userId : string) (st : GroupState) : bool :=
  match members st !! userId with
  | None => false
  | Some member =>
      bool_decide (role member = Some GroupMemberRole.OWNER)
      || bool_decide (role member = Some GroupMemberRole.ADMIN)
  end.

(** [isMuted(userId)]: the answer and the state, in which a personal mute
    found expired has been lifted.  [now] is [Date.now()]. *)
Definition isMuted (now : Z) (userId : string) (st : GroupState) : bool * GroupState :=
  match members st !! userId with
  | None => (false, st)
  | Some member =>
      if bool_decide ((info st ≫= muteAll) = Some GroupMuteStatus.MUTED)
         && negb (isAdminOrOwner userId st)
      then (true, st)
      else if bool_decide (mute member = Some GroupMuteStatus.MUTED) then
        if negb (num_or (muteEndTime member) 0 =? 0) && (num_or (muteEndTime member) 0 <? now)
        then (false,
              set_members
                (alter (set_mute (Some GroupMuteStatus.NORMAL) (muteEndTime member)) userId
                       (members st)) st)
        else (true, st)
      else (false, st)
  end.

(** The identity of a member: what no operation on a group rewrites. *)
Definition sameIdentity (a b : GroupMember) : Prop :=
  userId a = userId b /\ name a = name b /\ avatar a = avatar b /\ alias a = alias b.

(** Each member is stored under its own [userId]. *)
Definition keyed (ms : gmap string GroupMember) : Prop :=
  forall k m, ms !! k = Some m -> userId m = k.

(** What a guarded action does, given the outcome [permission] of its check
    and the [result] of its request: it resolves to [true] exactly when the
    check passed and the server answered; when it resolves to [false] the
    state is as before but for [error], which a failed check sets; no
    request is sent without permission, and one is sent with it. *)
Definition guarded (permission : bool) (result : option jsval) (st : GroupState)
    (done : Done) : Prop :=
  let '(ok, st', sent) := done in
  ok = permission && bool_decide (is_Some result)
  /\ (ok = false -> exists e, st' = set_error e st)
  /\ (permission = false -> sent = [] /\ is_Some (error st'))
  /\ (permission = true -> length sent = 1%nat /\ error st' = error st).

(** The operation types whose handlers read [targetUserId], and those whose
    handlers read [state.info]. *)
Definition memberOperations : list Z :=
  [ MessageContentType.KICK_FROM_GROUP; MessageContentType.PROMOTE_TO_ADMIN;
    MessageContentType.DEMOTE_FROM_ADMIN; MessageContentType.TRANSFER_GROUP_OWNER;
    MessageContentType.MUTE_MEMBER; MessageContentType.UNMUTE_MEMBER;
    MessageContentType.SET_MEMBER_ROLE; MessageContentType.LEAVE_GROUP ].

Definition infoOperations : list Z :=
  [ MessageContentType.MUTE_ALL; MessageContentType.UNMUTE_ALL;
    MessageContentType.SET_GROUP_INFO; MessageContentType.SET_GROUP_ANNOUNCEMENT;
    MessageContentType.SET_GROUP_JOIN_MODE; MessageContentType.REMOVE_GROUP ].

(** The operation [o] addressed to group [g]. *)
Definition forGroup (g : string) (o : Op.t) : Op.t :=
  {| Op.operationType := Op.operationType o; Op.groupId := g;
     Op.groupName := Op.groupName o; Op.groupAvatar := Op.groupAvatar o;
     Op.operatorId := Op.operatorId o; Op.targetUserId := Op.targetUserId o;
     Op.operationTime := Op.operationTime o; Op.extra := Op.extra o;
     Op.description := Op.description o |}.

End GroupAccess.

(** ** Notions used to state the further properties *)
Module Collected.
Import ChatInput.

(** The keys of the elements of [l] that [keep] selects, added in order to
    the set [ids]: the shape of the loops that collect identifiers. *)
Definition addKeys {A} (key : A -> string) (keep : A -> bool) (l : list A)
    (ids : list string) : list string :=
  fold_left (fun ids a => if keep a then setAdd ids (key a) else ids) l ids.

End Collected.

(** ** Notions on escaped text *)
Module Markup.

(** The characters that open or close a tag or an attribute value. *)
Definition isMarkup (c : ascii) : bool :=
  Ascii.eqb c "<" || Ascii.eqb c ">" || Ascii.eqb c "034" || Ascii.eqb c "'".

(** No character of [s] is one of them. *)
Fixpoint markupFree (s : string) : bool :=
  match s with
  | EmptyString => true
  | String c rest => negb (isMarkup c) && markupFree rest
  end.

(** No character of [s] is a key of [HTML_ESCAPE_MAP]. *)
Fixpoint unescaped (s : string) : bool :=
  match s with
  | EmptyString => true
  | String c rest => negb (Ascii.eqb c "&" || isMarkup c) && unescaped rest
  end.

End Markup.

(** ** More sample data *)
Module MoreSamples.
Import ErrorHandler Models ChatStore Samples.

(** The group of three with its information loaded. *)
Definition groupInfo : GroupStore.GroupInfo :=
  {| GroupStore.groupId := "g1"; GroupStore.groupName := Some "Team"%string;
     GroupStore.groupAvatar := None; GroupStore.notification := None;
     GroupStore.muteAll := Some GroupMuteStatus.NORMAL;
     GroupStore.applyJoinType := Some 0 |}.

Definition loadedGroup : GroupStore.GroupState :=
  GroupStore.set_info (Some groupInfo) groupOfThree.

(** The operation of [groupOperation] without a target. *)
Definition groupNotice (type : Z) : GroupOperationMessageBody.t :=
  {| GroupOperationMessageBody.operationType := type;
     GroupOperationMessageBody.groupId := "g1";
     GroupOperationMessageBody.groupName := None;
     GroupOperationMessageBody.groupAvatar := None;
     GroupOperationMessageBody.operatorId := "u1";
     GroupOperationMessageBody.targetUserId := None;
     GroupOperationMessageBody.operationTime := 1000;
     GroupOperationMessageBody.extra := None;
     GroupOperationMessageBody.description := None |}.

(** The parameters of an action on member [target] of group [g1]. *)
Definition onMember (target : string) : GroupAccess.Params.t :=
  {| GroupAccess.Params.groupId := "g1"; GroupAccess.Params.targetUserId := target;
     GroupAccess.Params.role := None; GroupAccess.Params.mute := None;
     GroupAccess.Params.muteDuration := None; GroupAccess.Params.alias := None;
     GroupAccess.Params.remark := None |}.

(** The object that [saveDraft] hands to [upsert] for the conversation
    [c1]: [{ chatId, message: preview, messageTime: Date.now() }]. *)
Definition draftPreview : ChatStore.Partial.t :=
  {| ChatStore.Partial.chatId := Some "c1"%string;
     ChatStore.Partial.toId := None;
     ChatStore.Partial.chatType := None;
     ChatStore.Partial.name := None;
     ChatStore.Partial.message := Some "[draft] on my way"%string;
     ChatStore.Partial.messageTime := Some (Some 5000);
     ChatStore.Partial.sequence := None;
     ChatStore.Partial.unread := None;
     ChatStore.Partial.isTop := None;
     ChatStore.Partial.isMute := None |}.

(** The no-break space U+00A0 and the ideographic space U+3000, as the
    bytes of their UTF-8 encoding. *)
Definition noBreakSpace : string :=
  String (ascii_of_nat 194) (String (ascii_of_nat 160) EmptyString).

Definition ideographicSpace : string :=
  String (ascii_of_nat 227) (String (ascii_of_nat 128) (String (ascii_of_nat 128) EmptyString)).

(** A draft manager that holds one draft. *)
Definition oneDraft : Drafts.DraftManager :=
  {| Drafts.draftMap := {[ "c1"%string := "<p>on my way</p>"%string ]};
     Drafts.persisted := [] |}.

(** Two errors of one code, and a context that does not silence them. *)
Definition offline : JsError :=
  ErrorTypes.asError (ErrorTypes.NetworkError None None None).

Definition timedOut : JsError :=
  ErrorTypes.asError (ErrorTypes.NetworkError (Some "request timed out"%string) None None).

Definition loudContext : HandleErrorContext Z :=
  {| operation := Some "fetchChat"%string; showNotification := None; silent := None;
     customMessage := None; data := None; fallback := None |}.

End MoreSamples.

(* ===================================================================== *)
(** * Part II: the properties *)
(* ===================================================================== *)

(** ** Queue priority of an envelope ([core.ts]) *)
Section PriorityProofs.
Import MessageType Core.

Lemma distinct_sample : distinct sample.
Proof. unfold distinct. apply (bool_decide_unpack _). vm_compute. exact I. Qed.

(** The code comparisons of [getMessagePriority] decided from an equation or
    an inequation in the context. *)
Ltac decide_codes :=
  repeat match goal with
    | |- context [?a =? ?b] =>
        first [ rewrite (Z.eqb_refl a)
              | rewrite (proj2 (Z.eqb_neq a b)) by congruence ]
    end.

(** C4, as stated, fails: [REFRESH_TOKEN] is queued as [NORMAL], not as
    [URGENT]. *)
Lemma C4_refresh_token_is_normal :
  getMessagePriority sample (REFRESH_TOKEN sample) = NORMAL
  /\ getMessagePriority sample (REFRESH_TOKEN sample) <> URGENT.
Proof. split; [reflexivity | discriminate]. Qed.

(** C4, amended: whatever the (pairwise distinct) numeric codes are,
    [getMessagePriority] answers [URGENT] for [FORCE_LOGOUT] and
    [LOGIN_EXPIRED], [HIGH] for [VIDEO_MESSAGE], [LOW] for
    [HEART_BEAT_SUCCESS] and [REGISTER_SUCCESS], and [NORMAL] for every other
    integer: for [REFRESH_TOKEN], [SINGLE_MESSAGE], [GROUP_MESSAGE],
    [GROUP_OPERATION], [MESSAGE_OPERATION], for the remaining heartbeat and
    register codes, and for any code outside the table. *)
Theorem C4_priority_mapping (T : codes) (code : Z) (HT : distinct T) :
  (code = FORCE_LOGOUT T \/ code = LOGIN_EXPIRED T ->
     getMessagePriority T code = URGENT)
  /\ (code = VIDEO_MESSAGE T -> getMessagePriority T code = HIGH)
  /\ (code = HEART_BEAT_SUCCESS T \/ code = REGISTER_SUCCESS T ->
        getMessagePriority T code = LOW)
  /\ (code = REFRESH_TOKEN T \/ code = SINGLE_MESSAGE T \/ code = GROUP_MESSAGE T
      \/ code = GROUP_OPERATION T \/ code = MESSAGE_OPERATION T
      \/ code = REGISTER T \/ code = REGISTER_FAILED T
      \/ code = HEART_BEAT T \/ code = HEART_BEAT_FAILED T ->
        getMessagePriority T code = NORMAL)
  /\ (code <> FORCE_LOGOUT T -> code <> LOGIN_EXPIRED T -> code <> VIDEO_MESSAGE T ->
      code <> HEART_BEAT_SUCCESS T -> code <> REGISTER_SUCCESS T ->
        getMessagePriority T code = NORMAL).
Proof.
  unfold distinct, all in HT.
  rewrite !NoDup_cons, !not_elem_of_cons in HT.
  destruct_and!.
  unfold getMessagePriority.
  repeat split; intros; destruct_or?; subst; decide_codes; try reflexivity.
  all: destruct (_ =? _); reflexivity.
Qed.

Lemma C4_priority_mapping_witness :
  getMessagePriority sample 302 = NORMAL /\ getMessagePriority sample 300 = URGENT.
Proof.
  split.
  - destruct (C4_priority_mapping sample 302 distinct_sample) as (_ & _ & _ & H & _).
    apply H. left. reflexivity.
  - destruct (C4_priority_mapping sample 300 distinct_sample) as (H & _).
    apply H. left. reflexivity.
Defined.

End PriorityProofs.

(** ** The safe-execute wrapper ([utils/ErrorHandler.ts]) *)
Section SafeExecuteProofs.
Import ErrorHandler Samples.

Lemma trace_emit e st : trace (emit e st) = trace st ++ [e].
Proof. reflexivity. Qed.

Lemma logError_trace error op d st :
  exists level message info,
    trace (logError error op d st) = trace st ++ [Log level "ErrorHandler" message info]
    /\ notificationDebounce (logError error op d st) = notificationDebounce st
    /\ (appError error = None -> level = LvError).
Proof.
  unfold logError.
  destruct (appError error) as [app|]; [destruct (errSeverity app)|];
    do 3 eexists; (split; [apply trace_emit | split; [reflexivity|]]);
    intros; first [discriminate | reflexivity].
Qed.

Lemma handleCaught_error {T} e (context : HandleErrorContext T) st :
  handleCaught (CaughtError e) context st = (Returned tt, handle e context st).
Proof.
  unfold handleCaught, handle. cbn [logCaught showCaught].
  destruct (default false (silent context)); [reflexivity|].
  destruct (default true (showNotification context)); reflexivity.
Qed.

(** The log line of [handle]: its level follows the severity. *)
Lemma logError_level error op d st :
  exists message info,
    logError error op d st
    = emit (Log (match appError error with
                 | None => LvError
                 | Some app => match errSeverity app with
                               | SevCritical | SevHigh => LvError
                               | SevMedium => LvWarn
                               | SevLow => LvInfo
                               end
                 end) "ErrorHandler" message info) st.
Proof.
  unfold logError.
  destruct (appError error) as [app|]; [destruct (errSeverity app)|];
    eexists _, _; reflexivity.
Qed.

Lemma show_shown error msg st :
  trace (show error msg st)
  = trace st
    ++ (if negb (existsb (String.eqb (ErrorTypes.errorKey error)) (notificationDebounce st))
        then [SetTimeout (ErrorTypes.errorKey error) DEBOUNCE_TIME;
              if ErrorTypes.isCritical error
              then ElNotification (str_or msg (getUserFriendlyMessage error))
              else ElMessage (str_or msg (getUserFriendlyMessage error))]
        else []).
Proof.
  unfold show, ErrorTypes.errorKey, ErrorTypes.isCritical.
  destruct (existsb _ _); cbn [negb]; [symmetry; apply app_nil_r|].
  destruct (appError error) as [app|]; [destruct (errSeverity app)|];
    rewrite !trace_emit; cbn [trace]; rewrite <- app_assoc; reflexivity.
Qed.

(** C9, as stated, fails: when the wrapped call throws, [execute] returns
    [undefined] even though the context carries the fallback [7]. *)
Lemma C9_fallback_is_ignored :
  fst (execute failingCall contextWithFallback initial) = Returned None
  /\ fst (execute failingCall contextWithFallback initial)
     <> Returned (fallback contextWithFallback).
Proof. split; [reflexivity | discriminate]. Qed.

(** C9, amended: when the wrapped function throws an [Error] object,
    [ErrorHandler.execute] (alias [safeExecute]) hands it to [handle] and
    returns [undefined], whatever fallback the context carries.  [handle]
    does nothing when the context is silent; otherwise it logs the error
    first, at error level for a plain [Error] and for an [AppError] of
    critical or high severity, at warning level for one of medium severity
    and at info level for one of low severity, and then, unless
    [showNotification] is false or the key of the error is in the debounce
    table, arms the timer of the key and shows the message, as a
    notification for a critical error and as a message otherwise.  When the
    function succeeds its result is returned unchanged and the handler state
    is untouched.  [execute] itself throws only on a value that is no
    [Error] object. *)
Theorem C9_execute_swallows_errors (T : Type) (fn : unit -> Completion T)
    (context : HandleErrorContext T) (st : HandlerState) :
  (forall e, fn tt = Rejected (CaughtError e) ->
     execute fn context st = (Returned None, handle e context st)
     /\ (default false (silent context) = true -> handle e context st = st)
     /\ (default false (silent context) = false ->
         exists message info,
           trace (handle e context st)
           = trace st
             ++ Log (match appError e with
                     | None => LvError
                     | Some app => match errSeverity app with
                                   | SevCritical | SevHigh => LvError
                                   | SevMedium => LvWarn
                                   | SevLow => LvInfo
                                   end
                     end) "ErrorHandler" message info
             :: (if default true (showNotification context)
                    && negb (existsb (String.eqb (ErrorTypes.errorKey e))
                               (notificationDebounce st))
                 then [SetTimeout (ErrorTypes.errorKey e) DEBOUNCE_TIME;
                       if ErrorTypes.isCritical e
                       then ElNotification
                              (str_or (customMessage context) (getUserFriendlyMessage e))
                       else ElMessage
                              (str_or (customMessage context) (getUserFriendlyMessage e))]
                 else [])))
  /\ (forall v, fn tt = Resolved v -> execute fn context st = (Returned (Some v), st))
  /\ (throws (fst (execute fn context st)) ->
      exists reason, fn tt = Rejected reason /\ forall e, reason <> CaughtError e).
Proof.
  split; [|split].
  - intros e He. unfold execute. rewrite He, handleCaught_error. cbn [bind].
    split; [reflexivity|]. split.
    + intros Hs. unfold handle. rewrite Hs. reflexivity.
    + intros Hs. unfold handle. rewrite Hs.
      destruct (logError_level e (operation context) (data context) st)
        as (message & info & Hlog).
      exists message, info. rewrite Hlog.
      destruct (default true (showNotification context)); cbn [andb].
      * rewrite show_shown, trace_emit, <- app_assoc. reflexivity.
      * rewrite trace_emit. reflexivity.
  - intros v Hv. unfold execute. rewrite Hv. reflexivity.
  - intros [err Herr]. unfold execute in Herr. destruct (fn tt) as [v|reason].
    + discriminate Herr.
    + exists reason. split; [reflexivity|]. intros e ->.
      rewrite handleCaught_error in Herr. discriminate Herr.
Qed.

(** C9 on the failing call: the error is swallowed, [undefined] comes
    back. *)
Lemma C9_execute_swallows_errors_witness :
  execute failingCall contextWithFallback initial
  = (Returned None, handle (mkError "request failed") contextWithFallback initial).
Proof.
  destruct (C9_execute_swallows_errors Z failingCall contextWithFallback initial)
    as (Hthrown & _).
  destruct (Hthrown (mkError "request failed") eq_refl) as [Hresult _].
  exact Hresult.
Defined.

(** On a value that is no [Error] object [execute] can throw: a string
    thrown by the wrapped function has no [name], so choosing the message
    fails after the failed log was reported, and the promise rejects.  With
    a custom message in the context, or without notification, it does
    not. *)
Example execute_rejects_on_text :
  execute throwingText contextWithFallback initial
  = (Thrown (typeError "Cannot read properties of undefined (reading 'toLowerCase')"),
     emit (ConsoleError "日志记录失败:") initial).
Proof. reflexivity. Qed.

End SafeExecuteProofs.

(** ** The aggregate unread badge ([getters.totalUnread]) *)
Section TotalUnreadProofs.
Import ChatStore.

Lemma totalUnread_fold (l : list Chats) (acc : Z) :
  fold_left (fun s c => match isMute c with
                        | Some 0 => s + num_or (unread c) 0
                        | _ => s
                        end) l acc
  = acc + sumZ (List.map (fun c => num_or (unread c) 0) (List.filter notMuted l)).
Proof.
  revert acc. induction l as [|c l IH]; intros acc; simpl.
  - lia.
  - rewrite IH. unfold notMuted.
    destruct (isMute c) as [[| |]|]; simpl; lia.
Qed.

End TotalUnreadProofs.

(** ** Sorting the chat list ([sortList]) *)

(** *** The stable sort, for any consistent comparator *)
Section ArraySortProofs.
Import ChatStore.
Context {A : Type}.
Variable compare : A -> A -> Z.

(** A consistent comparator: a pair is ordered one way or the other, and
    the order is transitive. *)
Hypothesis compare_total : forall a b, 0 < compare a b -> compare b a <= 0.
Hypothesis compare_trans : forall a b c, notAfter compare a b -> notAfter compare b c -> notAfter compare a c.

Lemma sortedInsert_Permutation x l : Permutation (x :: l) (sortedInsert compare x l).
Proof.
  induction l as [|y l IH]; simpl.
  - reflexivity.
  - destruct (compare x y <=? 0).
    + reflexivity.
    + rewrite perm_swap. apply perm_skip. exact IH.
Qed.

Lemma Array_sort_Permutation l : Permutation l (Array_sort compare l).
Proof.
  induction l as [|x l IH]; simpl.
  - reflexivity.
  - rewrite <- sortedInsert_Permutation. apply perm_skip. exact IH.
Qed.

Lemma sortedInsert_sorted x l :
  StronglySorted (notAfter compare) l -> StronglySorted (notAfter compare) (sortedInsert compare x l).
Proof.
  induction l as [|y l IH]; intros Hs; simpl.
  - constructor; constructor.
  - destruct (Z.leb_spec (compare x y) 0) as [Hle|Hgt].
    + constructor; [exact Hs|].
      constructor; [exact Hle|].
      apply StronglySorted_inv in Hs. destruct Hs as [_ Hall].
      eapply Forall_impl; [exact Hall|].
      intros z Hz. eapply compare_trans; eassumption.
    + apply StronglySorted_inv in Hs. destruct Hs as [Hs Hall].
      constructor; [apply IH; exact Hs|].
      rewrite <- sortedInsert_Permutation.
      constructor; [apply compare_total; exact Hgt | exact Hall].
Qed.

Lemma Array_sort_sorted l : StronglySorted (notAfter compare) (Array_sort compare l).
Proof.
  induction l as [|x l IH]; simpl.
  - constructor.
  - apply sortedInsert_sorted. exact IH.
Qed.

(** Stability: the elements picked by a predicate whose members all tie with
    one another come out of the sort in the order they went in. *)
Variable p : A -> bool.
Hypothesis p_ties : forall x y, p x = true -> p y = true -> compare x y <= 0.

Lemma sortedInsert_filter x l :
  List.filter p (sortedInsert compare x l)
  = if p x then x :: List.filter p l else List.filter p l.
Proof.
  induction l as [|y l IH]; simpl.
  - reflexivity.
  - destruct (Z.leb_spec (compare x y) 0) as [Hle|Hgt]; simpl.
    + reflexivity.
    + rewrite IH. destruct (p x) eqn:Hx, (p y) eqn:Hy; try reflexivity.
      specialize (p_ties x y Hx Hy). lia.
Qed.

Lemma Array_sort_filter l : List.filter p (Array_sort compare l) = List.filter p l.
Proof.
  induction l as [|x l IH]; simpl.
  - reflexivity.
  - rewrite sortedInsert_filter, IH. reflexivity.
Qed.

(** In a sorted list, an element that must come strictly first does. *)
Lemma sorted_precedes l a b :
  StronglySorted (notAfter compare) l -> In a l -> In b l -> ~ notAfter compare b a ->
  exists l1 l2 l3, l = l1 ++ a :: l2 ++ b :: l3.
Proof.
  intros Hs Ha Hb Hba.
  apply in_split in Ha. destruct Ha as (l1 & r & ->).
  apply in_app_or in Hb. destruct Hb as [Hb|[Hb|Hb]].
  - exfalso. apply in_split in Hb. destruct Hb as (m1 & m2 & ->).
    rewrite <- app_assoc in Hs. simpl in Hs.
    apply StronglySorted_app_1_r in Hs.
    apply StronglySorted_inv in Hs. destruct Hs as [_ Hall].
    rewrite List.Forall_forall in Hall. apply Hba, Hall.
    apply in_or_app. right. left. reflexivity.
  - exfalso. subst b. apply Hba.
    destruct (Z.le_gt_cases (compare a a) 0) as [H|H]; [exact H|].
    apply compare_total. lia.
  - apply in_split in Hb. destruct Hb as (l2 & l3 & ->).
    exists l1, l2, l3. reflexivity.
Qed.

End ArraySortProofs.

(** The result of a stable sort does not depend on the algorithm: a sorted
    permutation of [l] that keeps the order of the elements that tie is the
    list [Array_sort] computes.  This is what makes insertion sort a model of
    the engine's [Array.prototype.sort]. *)
Section StableSortUnique.
Import ChatStore.
Context {A : Type}.
Variable compare : A -> A -> Z.
Hypothesis compare_total : forall a b, 0 < compare a b -> compare b a <= 0.
Hypothesis compare_trans :
  forall a b c, notAfter compare a b -> notAfter compare b c -> notAfter compare a c.

Lemma notAfter_refl a : notAfter compare a a.
Proof.
  unfold notAfter. destruct (Z.le_gt_cases (compare a a) 0) as [H|H]; [exact H|].
  apply compare_total. lia.
Qed.

Lemma tied_refl a : tied compare a a = true.
Proof.
  unfold tied. pose proof (notAfter_refl a) as H. unfold notAfter in H.
  rewrite (proj2 (Z.leb_le _ _) H). reflexivity.
Qed.

Lemma tied_notAfter x a b :
  tied compare x a = true -> tied compare x b = true -> compare a b <= 0.
Proof.
  unfold tied. rewrite !andb_true_iff, !Z.leb_le. intros [_ Hax] [Hxb _].
  exact (compare_trans a x b Hax Hxb).
Qed.

Lemma sorted_stable_eq (l1 l2 : list A) :
  Permutation l1 l2 ->
  StronglySorted (notAfter compare) l1 -> StronglySorted (notAfter compare) l2 ->
  (forall x, List.filter (tied compare x) l1 = List.filter (tied compare x) l2) ->
  l1 = l2.
Proof.
  revert l2. induction l1 as [|a t1 IH]; intros l2 Hperm Hs1 Hs2 Hties.
  - apply Permutation_nil in Hperm. congruence.
  - destruct l2 as [|b t2].
    { symmetry in Hperm. apply Permutation_nil in Hperm. discriminate. }
    apply StronglySorted_inv in Hs1. destruct Hs1 as [Hs1 Hall1].
    apply StronglySorted_inv in Hs2. destruct Hs2 as [Hs2 Hall2].
    rewrite List.Forall_forall in Hall1, Hall2.
    assert (Hab : notAfter compare a b).
    { assert (In b (a :: t1)) as [<-|Hin].
      { eapply Permutation_in; [symmetry; exact Hperm | left; reflexivity]. }
      - apply notAfter_refl.
      - apply Hall1. exact Hin. }
    assert (Hba : notAfter compare b a).
    { assert (In a (b :: t2)) as [<-|Hin].
      { eapply Permutation_in; [exact Hperm | left; reflexivity]. }
      - apply notAfter_refl.
      - apply Hall2. exact Hin. }
    assert (Htie : tied compare a b = true).
    { unfold tied, notAfter in *. rewrite !(proj2 (Z.leb_le _ _)) by assumption.
      reflexivity. }
    pose proof (Hties a) as Ha. cbn [List.filter] in Ha.
    rewrite tied_refl, Htie in Ha. injection Ha as <- _.
    f_equal. apply IH.
    + eapply Permutation_cons_inv. exact Hperm.
    + exact Hs1.
    + exact Hs2.
    + intros x. pose proof (Hties x) as Hx. cbn [List.filter] in Hx.
      destruct (tied compare x a); [injection Hx as Hx|]; exact Hx.
Qed.

Lemma stable_sort_unique (l l' : list A) :
  Permutation l l' ->
  StronglySorted (notAfter compare) l' ->
  (forall x, List.filter (tied compare x) l' = List.filter (tied compare x) l) ->
  l' = Array_sort compare l.
Proof.
  intros Hperm Hsorted Hties.
  apply sorted_stable_eq.
  - rewrite <- Hperm. apply Array_sort_Permutation.
  - exact Hsorted.
  - apply Array_sort_sorted; assumption.
  - intros x. rewrite Hties. symmetry.
    apply Array_sort_filter. apply tied_notAfter.
Qed.

End StableSortUnique.

(** *** The chat list *)
Section SortListProofs.
Import ChatStore.

Lemma compareChats_order a b : compareChats a b <= 0 <-> chatOrder a b.
Proof.
  unfold compareChats, chatOrder, z_or, topKey, timeKey.
  destruct (Z.eqb_spec (num_or (isTop b) 0 - num_or (isTop a) 0) 0); lia.
Qed.

Lemma compareChats_total a b : 0 < compareChats a b -> compareChats b a <= 0.
Proof.
  unfold compareChats, z_or.
  destruct (Z.eqb_spec (num_or (isTop b) 0 - num_or (isTop a) 0) 0),
           (Z.eqb_spec (num_or (isTop a) 0 - num_or (isTop b) 0) 0); lia.
Qed.

Lemma compareChats_trans a b c :
  notAfter compareChats a b -> notAfter compareChats b c -> notAfter compareChats a c.
Proof.
  unfold notAfter. rewrite !compareChats_order. unfold chatOrder. lia.
Qed.

Lemma sameKeys_tie top time x y :
  sameKeys top time x = true -> sameKeys top time y = true -> compareChats x y <= 0.
Proof.
  unfold sameKeys. rewrite !andb_true_iff, !Z.eqb_eq.
  intros [? ?] [? ?]. apply compareChats_order. unfold chatOrder. lia.
Qed.

Lemma StronglySorted_weaken {A} (R R' : A -> A -> Prop) l :
  (forall x y, R x y -> R' x y) -> StronglySorted R l -> StronglySorted R' l.
Proof.
  intros HR. induction 1 as [|x l Hs IH Hall]; constructor.
  - exact IH.
  - eapply Forall_impl; [exact Hall|]. intros y. apply HR.
Qed.

(** C7: after [sortList] the chat list holds the same chats, ordered by
    [isTop] descending and then by [messageTime] descending; the chats that
    tie on both keys keep the order they had before the sort; and a pinned
    chat precedes an unpinned one whatever their message times. *)
Theorem C7_sortList_sorted_and_stable (st : ChatState) :
  Permutation (chatList st) (chatList (sortList st))
  /\ StronglySorted chatOrder (chatList (sortList st))
  /\ (forall top time,
        List.filter (sameKeys top time) (chatList (sortList st))
        = List.filter (sameKeys top time) (chatList st))
  /\ (forall a b,
        In a (chatList st) -> In b (chatList st) ->
        isTop a = Some 1 -> isTop b = Some 0 ->
        exists l1 l2 l3, chatList (sortList st) = l1 ++ a :: l2 ++ b :: l3).
Proof.
  unfold sortList. simpl.
  pose proof (Array_sort_sorted compareChats compareChats_total compareChats_trans
                (chatList st)) as Hsorted.
  pose proof (Array_sort_Permutation compareChats (chatList st)) as Hperm.
  repeat split.
  - exact Hperm.
  - eapply StronglySorted_weaken; [|exact Hsorted].
    intros x y. apply compareChats_order.
  - intros top time. apply Array_sort_filter. apply sameKeys_tie.
  - intros a b Ha Hb Htop Hun.
    apply (sorted_precedes compareChats compareChats_total); [exact Hsorted | | |].
    + eapply Permutation_in; eassumption.
    + eapply Permutation_in; eassumption.
    + unfold notAfter. rewrite compareChats_order.
      unfold chatOrder, topKey. rewrite Htop, Hun. simpl. lia.
Qed.

(** C7 on scenario 10: the pinned [chatB] comes before [chatA]. *)
Lemma C7_sortList_sorted_and_stable_witness :
  exists l1 l2 l3,
    chatList (sortList Samples.stateAB) = l1 ++ Samples.chatB :: l2 ++ Samples.chatA :: l3.
Proof.
  destruct (C7_sortList_sorted_and_stable Samples.stateAB) as (_ & _ & _ & Hpinned).
  apply Hpinned.
  - right. left. reflexivity.
  - left. reflexivity.
  - reflexivity.
  - reflexivity.
Defined.

End SortListProofs.

(** ** Reconciling a message into a chat ([updateWithMsg], [createOrUpdate]) *)
Section ReconcilerProofs.
Import Models ChatStore Samples.
Variable t : string -> string.
Variable textReplaceMention : string -> string -> string.

Lemma findIndex_Some {A} (p : A -> bool) (l : list A) (i : nat) :
  findIndex p l = Some i -> exists x, l !! i = Some x /\ p x = true.
Proof.
  revert i. induction l as [|y l IH]; intros i; simpl; [discriminate|].
  destruct (p y) eqn:Hy.
  - intros [= <-]. exists y. split; [reflexivity | exact Hy].
  - destruct (findIndex p l) as [j|]; simpl; [|discriminate].
    intros [= <-]. destruct (IH j eq_refl) as (x & Hx & Hp).
    exists x. split; assumption.
Qed.

Lemma findChatIndex_Some (l : list Chats) id i :
  findChatIndex l id = Some i -> exists c, l !! i = Some c /\ chatId c = id.
Proof.
  unfold findChatIndex. destruct (negb (truthy_str id)); [discriminate|].
  intros H. apply findIndex_Some in H. destruct H as (c & Hc & Heq).
  exists c. split; [exact Hc|]. apply String.eqb_eq. exact Heq.
Qed.

(** [updateWithMsg] reads the store only through [currentChat] and
    [ownerId]. *)
Lemma updateWithMsg_reads now st st' chat message isNew :
  currentChat st' = currentChat st -> ownerId st' = ownerId st ->
  updateWithMsg t textReplaceMention now st' chat message isNew
  = updateWithMsg t textReplaceMention now st chat message isNew.
Proof.
  intros Hc Ho. unfold updateWithMsg, isCurrent, buildPreview.
  rewrite Hc, Ho. reflexivity.
Qed.

(** What [updateWithMsg] writes when there is a message. *)
Lemma updateWithMsg_fields now st chat m isNew :
  let chat' := fst (updateWithMsg t textReplaceMention now st chat (Some m) isNew) in
  sequence chat' = Some (num_or (IMessage.sequence m) now)
  /\ messageTime chat' = Some (num_or (IMessage.messageTime m) now)
  /\ message chat'
     = (if negb (isCurrent st chat) && negb isNew
        then str_or (html <$> buildPreview t textReplaceMention st m) ""
        else str_or (plainText <$> buildPreview t textReplaceMention st m) "")
  /\ unread chat'
     = (if negb (isCurrent st chat) && negb isNew
        then Some (num_or (unread chat) 0 + 1)
        else unread chat)
  /\ chatId chat' = chatId chat /\ toId chat' = toId chat
  /\ isTop chat' = isTop chat /\ isMute chat' = isMute chat.
Proof.
  unfold updateWithMsg. simpl.
  destruct (negb (isCurrent st chat) && negb isNew); simpl; repeat split; reflexivity.
Qed.

(** [createOrUpdate] when the persisted store knows the conversation and the
    chat list holds it at [idx]: the entry is updated in place as an existing
    chat, and the list is sorted. *)
Lemma createOrUpdate_existing now c rest apiChat m st idx entry :
  findIdx st (chatId c) = Some idx ->
  chatList st !! idx = Some entry ->
  chatList (createOrUpdate t textReplaceMention now (Some (c :: rest)) apiChat (Some m) st)
  = Array_sort compareChats
      (<[idx := fst (updateWithMsg t textReplaceMention now st entry (Some m) false)]> (chatList st)).
Proof.
  intros Hidx Hentry. unfold createOrUpdate.
  match goal with |- context [findIdx ?s _] => set (st1 := s) end.
  assert (chatList st1 = chatList st /\ currentChat st1 = currentChat st
          /\ ownerId st1 = ownerId st) as (Hcl & Hcc & Hown).
  { subst st1. destruct (negb _); [unfold triggerNotify; destruct (_ && _ && _)|];
      repeat split; reflexivity. }
  unfold findIdx in *. rewrite Hcl, Hidx, Hentry.
  rewrite (updateWithMsg_reads now st st1 entry (Some m) false Hcc Hown).
  destruct (updateWithMsg t textReplaceMention now st entry (Some m) false) as [entry' ts].
  reflexivity.
Qed.

(** C1, as stated, fails: the chat stood at sequence 10; reconciling a
    message of sequence 5 leaves it at sequence 5, with the message's older
    time and its preview. *)
Lemma C1_late_message_regresses :
  let chat' :=
    fst (updateWithMsg translate keepHtml 3000 closedState chatWithLin (Some lateMessage) false) in
  (IMessage.sequence lateMessage = Some 5 /\ sequence chatWithLin = Some 10)
  /\ sequence chat' = Some 5
  /\ (messageTime chatWithLin = Some 2000 /\ messageTime chat' = Some 1500)
  /\ (message chatWithLin = "see you at ten"%string /\ message chat' = "on my way"%string)
  /\ chatList (createOrUpdate translate keepHtml 3000 (Some [chatWithLin]) None
                 (Some lateMessage) closedState) = [chat'].
Proof. vm_compute. repeat split; reflexivity. Qed.

(** C1, amended: reconciling a message writes the message's [sequence] and
    [messageTime] (the current time where the message has none, or 0) and the
    preview built from the message into the chat, whatever sequence the chat
    held before; [createOrUpdate] does the same to the entry of a chat that is
    in the list, then sorts the list. *)
Theorem C1_reconcile_overwrites (now : Z) (st : ChatState) (chat : Chats)
    (m : IMessage.t) (isNew : bool) :
  let chat' := fst (updateWithMsg t textReplaceMention now st chat (Some m) isNew) in
  sequence chat' = Some (num_or (IMessage.sequence m) now)
  /\ messageTime chat' = Some (num_or (IMessage.messageTime m) now)
  /\ message chat'
      = (if negb (isCurrent st chat) && negb isNew
         then str_or (html <$> buildPreview t textReplaceMention st m) ""
         else str_or (plainText <$> buildPreview t textReplaceMention st m) "")
  /\ (forall c rest apiChat idx,
         findIdx st (chatId c) = Some idx -> chatList st !! idx = Some chat ->
         chatList (createOrUpdate t textReplaceMention now (Some (c :: rest)) apiChat (Some m) st)
         = Array_sort compareChats
             (<[idx := fst (updateWithMsg t textReplaceMention now st chat (Some m) false)]>
                (chatList st))).
Proof.
  destruct (updateWithMsg_fields now st chat m isNew) as (Hs & Ht & Hm & _).
  repeat split; try assumption.
  intros c rest apiChat idx Hidx Hentry.
  apply createOrUpdate_existing; assumption.
Qed.

(** C2, as stated, fails: a message written by the local user (on another
    device) and reconciled into a group chat that is not open raises its
    unread counter from 3 to 4. *)
Lemma C2_own_message_counts_as_unread :
  (IMessage.fromId ownMessage = ownerId teamState /\ isCurrent teamState teamChat = false)
  /\ unread teamChat = Some 3
  /\ unread (fst (updateWithMsg translate keepHtml 3000 teamState teamChat (Some ownMessage) false))
      = Some 4
  /\ List.map unread
        (chatList (createOrUpdate translate keepHtml 3000 (Some [teamChat]) None
                     (Some ownMessage) teamState)) = [Some 4].
Proof. vm_compute. repeat split; reflexivity. Qed.

(** C2, amended: reconciling a message into an existing chat that is not the
    open conversation raises [unread] by exactly 1, whoever wrote the message;
    for the open conversation, and for a chat that is only now materialised,
    [unread] is left as it was; [handleUpdateReadStatus] with its default
    argument sets the [unread] of the chat's entry to 0 and leaves the other
    entries alone. *)
Theorem C2_unread_rules (now : Z) (st : ChatState) (chat : Chats) (m : IMessage.t)
    (isNew : bool) :
  (isCurrent st chat = false ->
     unread (fst (updateWithMsg t textReplaceMention now st chat (Some m) false))
     = Some (num_or (unread chat) 0 + 1)
     /\ forall c rest apiChat idx,
          findIdx st (chatId c) = Some idx -> chatList st !! idx = Some chat ->
          exists chat',
            unread chat' = Some (num_or (unread chat) 0 + 1)
            /\ chatList (createOrUpdate t textReplaceMention now (Some (c :: rest)) apiChat
                           (Some m) st)
                = Array_sort compareChats (<[idx := chat']> (chatList st)))
  /\ (isCurrent st chat = true \/ isNew = true ->
       unread (fst (updateWithMsg t textReplaceMention now st chat (Some m) isNew)) = unread chat)
  /\ (forall idx,
        findIdx st (chatId chat) = Some idx ->
        chatList (updateRead chat None st) = alter (set_unread (Some 0)) idx (chatList st)
        /\ unread <$> (chatList (updateRead chat None st) !! idx) = Some (Some 0)
        /\ forall j, j <> idx ->
             chatList (updateRead chat None st) !! j = chatList st !! j)
  /\ (findIdx st (chatId chat) = None -> updateRead chat None st = st).
Proof.
  split; [|split; [|split]].
  - intros Hcur.
    destruct (updateWithMsg_fields now st chat m false) as (_ & _ & _ & Hu & _).
    rewrite Hcur in Hu. cbn [negb andb] in Hu. split; [exact Hu|].
    intros c rest apiChat idx Hidx Hentry.
    eexists. split; [exact Hu|].
    apply createOrUpdate_existing; assumption.
  - intros Hor.
    destruct (updateWithMsg_fields now st chat m isNew) as (_ & _ & _ & Hu & _).
    rewrite Hu. destruct Hor as [-> | ->]; cbn [negb andb]; [reflexivity|].
    rewrite andb_false_r. reflexivity.
  - intros idx Hidx. unfold updateRead. rewrite Hidx. simpl.
    destruct (findChatIndex_Some _ _ _ Hidx) as (entry & Hentry & _).
    split; [reflexivity|]. split.
    + rewrite list_lookup_alter_eq, Hentry. reflexivity.
    + intros j Hj. apply list_lookup_alter_ne. congruence.
  - intros Hnone. unfold updateRead. rewrite Hnone. reflexivity.
Qed.

(** C10: [totalUnread] is the sum of the [unread] counters of the chats whose
    [isMute] is [0]; taking a chat whose [isMute] is anything else out of the
    list does not change the total.  The counter of such a chat is kept up to
    date all the same: reconciling a message into it, when it is not open,
    raises its [unread] by 1 whatever its [isMute]. *)
Theorem C10_totalUnread_skips_muted (st : ChatState) :
  totalUnread st
  = sumZ (List.map (fun c => num_or (unread c) 0) (List.filter notMuted (chatList st)))
  /\ (forall l1 c l2,
        chatList st = l1 ++ c :: l2 -> isMute c <> Some 0 ->
        totalUnread st = totalUnread (set_chatList (l1 ++ l2) st))
  /\ (forall now c m,
        isCurrent st c = false ->
        let c' := fst (updateWithMsg t textReplaceMention now st c (Some m) false) in
        unread c' = Some (num_or (unread c) 0 + 1) /\ isMute c' = isMute c).
Proof.
  unfold totalUnread. split; [|split].
  - rewrite totalUnread_fold. lia.
  - intros l1 c l2 Hl Hm. simpl. rewrite Hl, !totalUnread_fold.
    rewrite !List.filter_app. simpl.
    replace (notMuted c) with false; [reflexivity|].
    unfold notMuted. destruct (isMute c) as [[| |]|]; congruence.
  - intros now c m Hcur.
    destruct (updateWithMsg_fields now st c m false) as (_ & _ & _ & Hu & _ & _ & _ & Hmute).
    rewrite Hcur in Hu. cbn [negb andb] in Hu. split; [exact Hu | exact Hmute].
Qed.

(** Scenario 10 of the specification: after the message for [chatA] the list
    is [chatB] (pinned), then [chatA] with its new time. *)
Example scenario_pinned_first :
  List.map (fun c => (chatId c, messageTime c))
    (chatList (createOrUpdate translate keepHtml 300 (Some [chatA]) None
                 (Some messageForA) stateAB))
  = [("b"%string, Some 50); ("a"%string, Some 200)].
Proof. reflexivity. Qed.

End ReconcilerProofs.

Section ReconcilerExamples.
Import Models ChatStore Samples.

(** C1 on the late message: the chat ends at sequence 5. *)
Lemma C1_reconcile_overwrites_witness :
  sequence (fst (updateWithMsg translate keepHtml 3000 closedState chatWithLin
                   (Some lateMessage) false)) = Some 5.
Proof.
  destruct (C1_reconcile_overwrites translate keepHtml 3000 closedState chatWithLin
              lateMessage false) as (Hsequence & _).
  exact Hsequence.
Defined.

(** C2 on the group chat that is not open: 3 unread become 4. *)
Lemma C2_unread_rules_witness :
  unread (fst (updateWithMsg translate keepHtml 3000 teamState teamChat
                 (Some ownMessage) false)) = Some 4.
Proof.
  destruct (C2_unread_rules translate keepHtml 3000 teamState teamChat ownMessage false)
    as (Hclosed & _).
  destruct (Hclosed eq_refl) as [Hunread _].
  exact Hunread.
Defined.

(** C10 on a list with a muted chat: its 7 unread messages are not
    counted. *)
Lemma C10_totalUnread_skips_muted_witness :
  totalUnread stateWithMuted = 3
  /\ totalUnread stateWithMuted = totalUnread (set_chatList [chatWithLin] stateWithMuted).
Proof.
  destruct (C10_totalUnread_skips_muted translate keepHtml stateWithMuted)
    as (Hsum & Hmuted & _).
  split.
  - rewrite Hsum. reflexivity.
  - apply (Hmuted [chatWithLin] mutedChat []); [reflexivity | discriminate].
Defined.

End ReconcilerExamples.

(** ** The group-operation state machine ([applyGroupOperation]) *)
Section GroupOperationProofs.
Import Models GroupStore Samples.

Lemma set_role_set_role v w m : set_role v (set_role w m) = set_role v m.
Proof. reflexivity. Qed.

(** The table has a handler exactly for the recognized codes. *)
Lemma handlers_None now key : handlers now key = None <-> ~ In key recognized.
Proof.
  split.
  - intros Hnone Hin. unfold recognized in Hin. simpl in Hin.
    repeat (destruct Hin as [<- | Hin]; [discriminate Hnone|]). exact Hin.
  - intros Hnot. unfold handlers.
    repeat match goal with
      | |- context [key =? ?c] =>
          rewrite (proj2 (Z.eqb_neq key c))
            by (intros ->; apply Hnot; unfold recognized; simpl; tauto)
      end.
    reflexivity.
Qed.

Lemma onTarget_present id f st m :
  id <> ""%string -> members st !! id = Some m ->
  onTarget (Some id) f st = set_members (alter f id (members st)) st.
Proof.
  intros Hid Hm. unfold onTarget, truthy_str.
  rewrite (proj2 (String.eqb_neq id "") Hid), Hm. simpl.
  reflexivity.
Qed.

Lemma handlers_transfer now :
  handlers now MessageContentType.TRANSFER_GROUP_OWNER
  = Some (fun o st =>
            onTarget (Op.targetUserId o) (set_role (Some GroupMemberRole.OWNER))
              (onTarget (Some (Op.operatorId o)) (set_role (Some GroupMemberRole.MEMBER)) st)).
Proof. reflexivity. Qed.

Lemma handlers_kick now :
  handlers now MessageContentType.KICK_FROM_GROUP
  = Some (fun o => dropTarget (Op.targetUserId o)).
Proof. reflexivity. Qed.

(** The members after a transfer from [operator] to [target]. *)
Lemma transfer_members now o st target prev new :
  Op.operationType o = MessageContentType.TRANSFER_GROUP_OWNER ->
  Op.groupId o <> ""%string ->
  Op.targetUserId o = Some target ->
  Op.operatorId o <> ""%string -> target <> ""%string ->
  members st !! Op.operatorId o = Some prev ->
  members st !! target = Some new ->
  forall code,
    applyGroupOperation now code (Some o) st
    = set_members
        (alter (set_role (Some GroupMemberRole.OWNER)) target
           (alter (set_role (Some GroupMemberRole.MEMBER)) (Op.operatorId o) (members st)))
        st.
Proof.
  intros Htype Hg Ht Hop Htarget Hprev Hnew code.
  unfold applyGroupOperation, truthy_str.
  rewrite (proj2 (String.eqb_neq _ "") Hg), Htype, handlers_transfer. cbn [negb].
  rewrite Ht.
  rewrite (onTarget_present _ _ st prev Hop Hprev).
  assert (exists x, members (set_members
            (alter (set_role (Some GroupMemberRole.MEMBER)) (Op.operatorId o) (members st))
            st) !! target = Some x) as [x Hx].
  { simpl. rewrite lookup_alter. case_decide; subst; rewrite ?Hprev, ?Hnew; eauto. }
  rewrite (onTarget_present _ _ _ x Htarget Hx). reflexivity.
Qed.

Lemma transfer_lookup (ms : gmap string GroupMember) operator target k :
  alter (set_role (Some GroupMemberRole.OWNER)) target
    (alter (set_role (Some GroupMemberRole.MEMBER)) operator ms) !! k
  = if decide (target = k)
    then set_role (Some GroupMemberRole.OWNER) <$> ms !! k
    else if decide (operator = k)
         then set_role (Some GroupMemberRole.MEMBER) <$> ms !! k
         else ms !! k.
Proof.
  rewrite lookup_alter. case_decide as Ht.
  - subst k. rewrite lookup_alter. case_decide as Ho.
    + subst target. destruct (ms !! operator); reflexivity.
    + reflexivity.
  - rewrite lookup_alter. case_decide as Ho; [subst k|]; reflexivity.
Qed.

(** C6: a [KICK_FROM_GROUP] whose target is not in the members map changes
    nothing; a [TRANSFER_GROUP_OWNER] applied to a map in which the operator
    is the only owner and the target is present leaves exactly one owner, the
    target, with the operator demoted to [MEMBER] and every other member
    untouched; an operation whose type has no handler is logged as a warning
    and changes nothing else. *)
Theorem C6_group_operations (now code : Z) (o : Op.t) (st : GroupState) :
  (Op.operationType o = MessageContentType.KICK_FROM_GROUP ->
   (forall id, Op.targetUserId o = Some id -> members st !! id = None) ->
   applyGroupOperation now code (Some o) st = st)
  /\ (Op.operationType o = MessageContentType.TRANSFER_GROUP_OWNER ->
      Op.groupId o <> ""%string ->
      forall target prev new,
        Op.targetUserId o = Some target ->
        Op.operatorId o <> ""%string -> target <> ""%string ->
        members st !! Op.operatorId o = Some prev ->
        members st !! target = Some new ->
        (forall k m, members st !! k = Some m ->
                     role m = Some GroupMemberRole.OWNER -> k = Op.operatorId o) ->
        let st' := applyGroupOperation now code (Some o) st in
        (forall k m, members st' !! k = Some m ->
                     (role m = Some GroupMemberRole.OWNER <-> k = target))
        /\ size (owners (members st')) = 1%nat
        /\ members st' !! target = Some (set_role (Some GroupMemberRole.OWNER) new)
        /\ (target <> Op.operatorId o ->
            members st' !! Op.operatorId o
            = Some (set_role (Some GroupMemberRole.MEMBER) prev))
        /\ (forall k, k <> target -> k <> Op.operatorId o ->
                      members st' !! k = members st !! k))
  /\ (~ In (Op.operationType o) recognized ->
      exists warning,
        applyGroupOperation now code (Some o) st
        = (if truthy_str (Op.groupId o)
           then logged (prettyWarn "group" warning) st else st)
        /\ members (applyGroupOperation now code (Some o) st) = members st
        /\ info (applyGroupOperation now code (Some o) st) = info st
        /\ currentGroupId (applyGroupOperation now code (Some o) st) = currentGroupId st
        /\ requested (applyGroupOperation now code (Some o) st) = requested st).
Proof.
  split; [|split].
  - intros Htype Habsent. unfold applyGroupOperation.
    destruct (negb (truthy_str (Op.groupId o))); [reflexivity|].
    rewrite Htype, handlers_kick. unfold dropTarget.
    destruct (Op.targetUserId o) as [id|]; [|reflexivity].
    rewrite (Habsent id eq_refl).
    rewrite bool_decide_false by (intros [? ?]; discriminate).
    rewrite andb_false_r. reflexivity.
  - intros Htype Hg target prev new Ht Hop Htarget Hprev Hnew Huniq st'.
    subst st'. rewrite (transfer_members now o st target prev new) by assumption.
    cbn [members set_members].
    assert (Hlook : forall k m,
               alter (set_role (Some GroupMemberRole.OWNER)) target
                 (alter (set_role (Some GroupMemberRole.MEMBER)) (Op.operatorId o)
                    (members st)) !! k = Some m ->
               (role m = Some GroupMemberRole.OWNER <-> k = target)).
    { intros k m. rewrite transfer_lookup.
      case_decide as Hk; [|case_decide as Hk'].
      - subst k. rewrite Hnew. intros [= <-]. split; reflexivity.
      - subst k. rewrite Hprev. intros [= <-]. split; [discriminate | congruence].
      - intros Hm. split; [|congruence].
        intros Hrole. exfalso. apply Hk'. symmetry. eapply Huniq; eassumption. }
    assert (Htgt : alter (set_role (Some GroupMemberRole.OWNER)) target
                     (alter (set_role (Some GroupMemberRole.MEMBER)) (Op.operatorId o)
                        (members st)) !! target
                   = Some (set_role (Some GroupMemberRole.OWNER) new)).
    { rewrite transfer_lookup. rewrite decide_True by reflexivity.
      rewrite Hnew. reflexivity. }
    split; [exact Hlook|]. split; [|split; [exact Htgt|split]].
    + unfold owners.
      match goal with |- size (filter ?P ?m) = _ =>
        replace (filter P m) with
          ({[ target := set_role (Some GroupMemberRole.OWNER) new ]}
             : gmap string GroupMember)
      end; [apply map_size_singleton|].
      apply map_eq. intros k. apply option_eq. intros m.
      rewrite map_lookup_filter_Some, lookup_singleton_Some. cbn [snd].
      split.
      * intros [<- <-]. split; [exact Htgt | reflexivity].
      * intros [Hm Hrole]. pose proof (proj1 (Hlook k m Hm) Hrole) as ->.
        split; [reflexivity | congruence].
    + intros Hne. rewrite transfer_lookup.
      rewrite decide_False by exact Hne. rewrite decide_True by reflexivity.
      rewrite Hprev. reflexivity.
    + intros k Hk1 Hk2. rewrite transfer_lookup.
      rewrite decide_False by congruence. rewrite decide_False by congruence.
      reflexivity.
  - intros Hunknown. apply handlers_None with (now := now) in Hunknown.
    eexists. unfold applyGroupOperation. rewrite Hunknown.
    destruct (truthy_str (Op.groupId o)); cbn [negb]; repeat split; reflexivity.
Qed.

(** The three cases of C6 on the group of three: [u9] is not a member, [u1]
    hands the group to [u2], and 499 is no operation type. *)
Lemma C6_group_operations_witness :
  applyGroupOperation 0 1003 (Some (groupOperation 404 "u9")) groupOfThree = groupOfThree
  /\ size (owners (members
             (applyGroupOperation 0 1003 (Some (groupOperation 407 "u2")) groupOfThree)))
     = 1%nat
  /\ members (applyGroupOperation 0 1003 (Some (groupOperation 499 "u2")) groupOfThree)
     = members groupOfThree.
Proof.
  split; [|split].
  - apply (C6_group_operations 0 1003 (groupOperation 404 "u9") groupOfThree).
    + reflexivity.
    + intros id [= <-]. reflexivity.
  - destruct (C6_group_operations 0 1003 (groupOperation 407 "u2") groupOfThree)
      as (_ & Htransfer & _).
    apply (Htransfer eq_refl ltac:(discriminate) "u2"%string
             (groupMember "u1" GroupMemberRole.OWNER)
             (groupMember "u2" GroupMemberRole.MEMBER)
             eq_refl ltac:(discriminate) ltac:(discriminate) eq_refl eq_refl).
    intros k m Hk Hrole.
    destruct (decide (k = "u1"%string)) as [->|H1]; [reflexivity|].
    exfalso. unfold groupOfThree in Hk. cbn [members] in Hk.
    rewrite lookup_insert_ne in Hk by congruence.
    destruct (decide (k = "u2"%string)) as [->|H2].
    { rewrite lookup_insert_eq in Hk. injection Hk as <-. discriminate Hrole. }
    rewrite lookup_insert_ne in Hk by congruence.
    destruct (decide (k = "u3"%string)) as [->|H3].
    { rewrite lookup_insert_eq in Hk. injection Hk as <-. discriminate Hrole. }
    rewrite lookup_insert_ne in Hk by congruence.
    rewrite lookup_empty in Hk. discriminate Hk.
  - destruct (C6_group_operations 0 1003 (groupOperation 499 "u2") groupOfThree)
      as (_ & _ & Hunknown).
    destruct Hunknown as (warning & _ & Hmembers & _); [|exact Hmembers].
    unfold recognized. simpl. intros H. repeat (destruct H as [H|H]; [discriminate H|]).
    exact H.
Defined.

End GroupOperationProofs.

(** ** The JSON codec over byte strings reads back what it writes *)
Section JsonTextProofs.
Import JsonText.

(** Induction on values, with the hypothesis on every element of an array
    and on every member of an object. *)
Lemma jsval_induction (P : jsval -> Prop)
    (Hnull : P JNull) (Hbool : forall b, P (JBool b)) (Hnum : forall n, P (JNum n))
    (Hstr : forall s, P (JStr s))
    (Harr : forall items, Forall P items -> P (JArr items))
    (Hobj : forall fields, Forall (fun kv => P (snd kv)) fields -> P (JObj fields)) :
  forall v, P v.
Proof.
  fix self 1. intros [|b|n|s|items|fields].
  - exact Hnull.
  - apply Hbool.
  - apply Hnum.
  - apply Hstr.
  - apply Harr. induction items as [|x l IHl]; constructor; [apply self | exact IHl].
  - apply Hobj. induction fields as [|[k x] l IHl]; constructor; [apply self | exact IHl].
Qed.

Lemma skipWs_stop c s : isWs c = false -> skipWs (c :: s) = c :: s.
Proof. intros H. simpl. rewrite H. reflexivity. Qed.

(** Digits *)
Lemma digits_of_uint d :
  Forall (fun c => isDigit c = true) (list_ascii_of_string (NilEmpty.string_of_uint d)).
Proof. induction d; simpl; constructor; try reflexivity; assumption. Qed.

Lemma spanDigits_app ds rest :
  Forall (fun c => isDigit c = true) ds -> noDigitAhead rest ->
  spanDigits (ds ++ rest) = (ds, rest).
Proof.
  intros Hds Hrest. induction Hds as [|c ds Hc _ IH]; cbn [app spanDigits].
  - destruct rest as [|c rest]; [reflexivity|].
    unfold noDigitAhead in Hrest. cbn [spanDigits]. rewrite Hrest. reflexivity.
  - rewrite Hc, IH. reflexivity.
Qed.

Lemma readNat_uint d rest :
  d <> Decimal.Nil -> noDigitAhead rest ->
  readNat (list_ascii_of_string (NilZero.string_of_uint d) ++ rest) = Some (Z.of_uint d, rest).
Proof.
  intros Hd Hrest. unfold readNat.
  assert (NilZero.string_of_uint d = NilEmpty.string_of_uint d) as E.
  { destruct d; try reflexivity. congruence. }
  rewrite spanDigits_app; [| rewrite E; apply digits_of_uint | exact Hrest].
  rewrite string_of_list_ascii_of_string, NilZero.usu by exact Hd. reflexivity.
Qed.

Lemma uint_head d :
  d <> Decimal.Nil ->
  exists c s, list_ascii_of_string (NilZero.string_of_uint d) = c :: s /\ isDigit c = true.
Proof.
  intros Hd. destruct d; try congruence; simpl; eexists _, _; split; reflexivity.
Qed.

Lemma Z_to_int_cases n :
  exists d, d <> Decimal.Nil
    /\ (Z.to_int n = Decimal.Pos d \/ Z.to_int n = Decimal.Neg d).
Proof.
  destruct n as [|p|p]; simpl.
  - exists (Decimal.D0 Decimal.Nil). split; [discriminate | left; reflexivity].
  - exists (Pos.to_uint p). split; [apply Unsigned.to_uint_nonnil | left; reflexivity].
  - exists (Pos.to_uint p). split; [apply Unsigned.to_uint_nonnil | right; reflexivity].
Qed.

Lemma isDigit_code c : isDigit c = true -> (48 <= code c <= 57)%nat.
Proof.
  unfold isDigit. rewrite andb_true_iff, !Nat.leb_le. tauto.
Qed.

Lemma readNumber_Z n rest :
  noDigitAhead rest ->
  readNumber (list_ascii_of_string (string_of_Z n) ++ rest) = Some (n, rest).
Proof.
  intros Hrest. unfold string_of_Z.
  destruct (Z_to_int_cases n) as (d & Hd & [E|E]).
  - pose proof (DecimalZ.of_to n) as Hn. rewrite E in *. simpl in Hn.
    simpl NilZero.string_of_int.
    destruct (uint_head d Hd) as (c & s & Hcs & Hc).
    unfold readNumber. rewrite Hcs. cbn [app].
    apply isDigit_code in Hc.
    rewrite (proj2 (Nat.eqb_neq (code c) 45)) by lia.
    change (c :: s ++ rest) with ((c :: s) ++ rest). rewrite <- Hcs.
    rewrite readNat_uint by assumption. rewrite Hn. reflexivity.
  - pose proof (DecimalZ.of_to n) as Hn. rewrite E in *. simpl in Hn.
    simpl NilZero.string_of_int.
    unfold readNumber. cbn [list_ascii_of_string app].
    change (code "-" =? 45)%nat with true. cbv iota.
    rewrite readNat_uint by assumption. rewrite Hn. reflexivity.
Qed.

(** Strings *)
Lemma readChars_escapeChar c tail cs r :
  readChars tail = Some (cs, r) ->
  readChars (escapeChar c ++ tail) = Some (c :: cs, r).
Proof.
  intros H.
  destruct c as [[] [] [] [] [] [] [] []].
  all: unfold escapeChar, code; simpl; rewrite H; reflexivity.
Qed.

Lemma readChars_escape cs rest :
  readChars (flat_map escapeChar cs ++ "034"%char :: rest) = Some (cs, rest).
Proof.
  induction cs as [|c cs IH].
  - reflexivity.
  - cbn [flat_map]. rewrite <- app_assoc. apply readChars_escapeChar. exact IH.
Qed.

Lemma readString_quote s rest : readString (quote s ++ rest) = Some (s, rest).
Proof.
  unfold quote, readString. cbn [app].
  change (code "034" =? 34)%nat with true. cbv iota.
  rewrite <- app_assoc. cbn [app].
  rewrite readChars_escape, string_of_list_ascii_of_string. reflexivity.
Qed.

(** One step of each reader. *)
Lemma readItems_step fuel s :
  readItems (S fuel) s
  = match readValue fuel s with
    | Some (x, r) =>
        match skipWs r with
        | c :: more =>
            if (code c =? 44)%nat then
              match readItems fuel more with
              | Some (xs, r2) => Some (x :: xs, r2)
              | None => None
              end
            else if (code c =? 93)%nat then Some ([x], more)
            else None
        | [] => None
        end
    | None => None
    end.
Proof. reflexivity. Qed.

Lemma readMembers_step fuel s :
  readMembers (S fuel) s
  = match readString (skipWs s) with
    | Some (k, r) =>
        match skipWs r with
        | c :: r1 =>
            if (code c =? 58)%nat then
              match readValue fuel r1 with
              | Some (x, r2) =>
                  match skipWs r2 with
                  | c' :: r3 =>
                      if (code c' =? 44)%nat then
                        match readMembers fuel r3 with
                        | Some (more, r4) => Some ((k, x) :: more, r4)
                        | None => None
                        end
                      else if (code c' =? 125)%nat then Some ([(k, x)], r3)
                      else None
                  | [] => None
                  end
              | None => None
              end
            else None
        | [] => None
        end
    | None => None
    end.
Proof. reflexivity. Qed.

Lemma number_head n :
  exists c s, list_ascii_of_string (string_of_Z n) = c :: s
              /\ (code c = 45%nat \/ (48 <= code c <= 57)%nat).
Proof.
  unfold string_of_Z. destruct (Z_to_int_cases n) as (d & Hd & [E|E]); rewrite E.
  - destruct (uint_head d Hd) as (c & s & Hcs & Hc).
    exists c, s. split; [exact Hcs|]. right. apply isDigit_code. exact Hc.
  - eexists _, _. split; [reflexivity|]. left. reflexivity.
Qed.

Lemma render_head v tail : exists c s, render v ++ tail = c :: s /\ opens c.
Proof.
  destruct v as [|[]|n|str|items|fields];
    try (eexists _, _; split; [reflexivity|];
         split; [reflexivity | split; vm_compute; discriminate]).
  destruct (number_head n) as (c & s & Hcs & Hc).
  exists c, (s ++ tail). cbn [render]. rewrite Hcs. split; [reflexivity|].
  unfold opens, isWs.
  rewrite !(proj2 (Nat.eqb_neq (code c) _)) by lia.
  split; [reflexivity | split; lia].
Qed.

Lemma readValue_number fuel n rest :
  noDigitAhead rest ->
  readValue (S fuel) (list_ascii_of_string (string_of_Z n) ++ rest) = Some (JNum n, rest).
Proof.
  intros Hrest. pose proof (readNumber_Z n rest Hrest) as Hread.
  destruct (number_head n) as (c & s & Hcs & Hc). rewrite Hcs in *.
  cbn [app] in *. cbn [readValue].
  rewrite skipWs_stop; [|unfold isWs; rewrite !(proj2 (Nat.eqb_neq (code c) _)) by lia;
                          reflexivity].
  rewrite !(proj2 (Nat.eqb_neq (code c) _)) by lia.
  rewrite Hread. reflexivity.
Qed.

Lemma readValue_string fuel s :
  readValue (S fuel) ("034"%char :: s)
  = match readString ("034"%char :: s) with
    | Some (str, r) => Some (JStr str, r)
    | None => None
    end.
Proof. reflexivity. Qed.

Lemma readValue_array fuel s :
  readValue (S fuel) ("["%char :: s)
  = match skipWs s with
    | c :: rest =>
        if (code c =? 93)%nat then Some (JArr [], rest)
        else match readItems fuel s with
             | Some (items, r) => Some (JArr items, r)
             | None => None
             end
    | [] => None
    end.
Proof. reflexivity. Qed.

Lemma readValue_object fuel s :
  readValue (S fuel) ("{"%char :: s)
  = match skipWs s with
    | c :: rest =>
        if (code c =? 125)%nat then Some (JObj [], rest)
        else match readMembers fuel s with
             | Some (fields, r) => Some (JObj fields, r)
             | None => None
             end
    | [] => None
    end.
Proof. reflexivity. Qed.

Lemma joinWith_cons {A} (f : A -> list ascii) x rest :
  joinWith f (x :: rest)
  = f x ++ match rest with [] => [] | _ => ","%char :: joinWith f rest end.
Proof. reflexivity. Qed.

Lemma readItems_join l :
  Forall readsBack l -> l <> [] ->
  forall fuel rest,
    (sizeItems l <= fuel)%nat ->
    readItems fuel (joinWith render l ++ "]"%char :: rest) = Some (l, rest).
Proof.
  induction 1 as [|x l Hx Hl IH]; [congruence|].
  intros _ fuel rest Hfuel. cbn [sizeItems fold_right] in Hfuel.
  fold (sizeItems l) in Hfuel.
  destruct fuel as [|fuel]; [lia|].
  rewrite readItems_step, joinWith_cons.
  destruct l as [|y l].
  - rewrite app_nil_r. rewrite (Hx fuel) by (try reflexivity; lia).
    reflexivity.
  - rewrite <- app_assoc. cbn [app].
    rewrite (Hx fuel) by (try reflexivity; lia).
    rewrite skipWs_stop by reflexivity.
    change (code "," =? 44)%nat with true. cbv iota.
    rewrite IH by (try discriminate; lia). reflexivity.
Qed.

Lemma readMembers_join l :
  Forall (fun kv => readsBack (snd kv)) l -> l <> [] ->
  forall fuel rest,
    (sizeMembers l <= fuel)%nat ->
    readMembers fuel (joinWith (renderMember render) l ++ "}"%char :: rest)
    = Some (l, rest).
Proof.
  induction 1 as [|[k x] l Hx Hl IH]; [congruence|].
  intros _ fuel rest Hfuel. cbn [sizeMembers fold_right snd] in Hfuel.
  fold (sizeMembers l) in Hfuel. cbn [snd] in Hx.
  destruct fuel as [|fuel]; [lia|].
  rewrite readMembers_step, joinWith_cons. unfold renderMember at 1.
  rewrite <- !app_assoc. cbn [app].
  assert (Hq : forall tail, skipWs (quote k ++ tail) = quote k ++ tail).
  { intros tail. unfold quote. cbn [app]. apply skipWs_stop. reflexivity. }
  rewrite Hq, readString_quote.
  rewrite skipWs_stop by reflexivity.
  change (code ":" =? 58)%nat with true. cbv iota.
  destruct l as [|kv l].
  - cbn [app]. rewrite (Hx fuel) by (try reflexivity; lia). reflexivity.
  - cbn [app]. rewrite (Hx fuel) by (try reflexivity; lia).
    rewrite skipWs_stop by reflexivity.
    change (code "," =? 44)%nat with true. cbv iota.
    rewrite IH by (try discriminate; lia). reflexivity.
Qed.

Theorem render_readsBack v : readsBack v.
Proof.
  induction v as [|b|n|s|items IH|fields IH] using jsval_induction;
    intros fuel rest Hfuel Hrest; (destruct fuel as [|fuel]; [simpl in Hfuel; lia|]).
  - reflexivity.
  - destruct b; reflexivity.
  - apply readValue_number. exact Hrest.
  - pose proof (readString_quote s rest) as Hq.
    cbn [render]. unfold quote in *. cbn [app] in *.
    rewrite readValue_string, Hq. reflexivity.
  - cbn [render app]. rewrite readValue_array, <- app_assoc. cbn [app].
    destruct items as [|x l]; [reflexivity|].
    assert (Hskip : exists c s,
               skipWs (joinWith render (x :: l) ++ "]"%char :: rest) = c :: s
               /\ code c <> 93%nat).
    { rewrite joinWith_cons, <- app_assoc.
      destruct (render_head x ((match l with [] => [] | _ => ","%char :: joinWith render l end)
                               ++ "]"%char :: rest)) as (c & s & Heq & Hws & H93 & _).
      exists c, s. rewrite Heq. split; [apply skipWs_stop; exact Hws | exact H93]. }
    destruct Hskip as (c & s & -> & H93).
    rewrite (proj2 (Nat.eqb_neq _ _) H93).
    rewrite readItems_join; [reflexivity | exact IH | discriminate |].
    cbn [size] in Hfuel. fold (sizeItems (x :: l)) in Hfuel. lia.
  - cbn [render app]. rewrite readValue_object, <- app_assoc. cbn [app].
    destruct fields as [|[k x] l]; [reflexivity|].
    assert (Hskip : exists c s,
               skipWs (joinWith (renderMember render) ((k, x) :: l) ++ "}"%char :: rest)
               = c :: s /\ code c <> 125%nat).
    { rewrite joinWith_cons. unfold renderMember at 1, quote. cbn [app].
      eexists _, _. split; [apply skipWs_stop; reflexivity | vm_compute; discriminate]. }
    destruct Hskip as (c & s & -> & H125).
    rewrite (proj2 (Nat.eqb_neq _ _) H125).
    rewrite readMembers_join; [reflexivity | exact IH | discriminate |].
    cbn [size] in Hfuel. fold (sizeMembers ((k, x) :: l)) in Hfuel. lia.
Qed.

Lemma joinWith_size {A} (f : A -> list ascii) (sz : A -> nat) (l : list A) :
  Forall (fun x => (sz x <= length (f x))%nat) l ->
  (fold_right (fun x acc => S (sz x + acc)) O l <= length (joinWith f l) + 1)%nat.
Proof.
  induction 1 as [|x l Hx Hl IH]; [simpl; lia|].
  rewrite joinWith_cons. cbn [fold_right]. rewrite length_app.
  destruct l as [|y l]; [simpl; lia|].
  cbn [length]. lia.
Qed.

Lemma size_le_length v : (size v <= length (render v))%nat.
Proof.
  induction v as [|b|n|s|items IH|fields IH] using jsval_induction.
  - simpl. lia.
  - destruct b; simpl; lia.
  - cbn [size render]. destruct (number_head n) as (c & s & -> & _). simpl. lia.
  - cbn [size render]. unfold quote. simpl. lia.
  - cbn [size render length]. rewrite length_app. cbn [length].
    pose proof (joinWith_size render size items IH). lia.
  - cbn [size render length]. rewrite length_app. cbn [length].
    pose proof (joinWith_size (renderMember render) (fun kv => size (snd kv)) fields) as H.
    cbn beta in H. lapply H; [lia|].
    eapply Forall_impl; [exact IH|]. intros [k x] Hx. cbn [snd] in *.
    unfold renderMember. rewrite length_app. cbn [length]. lia.
Qed.

(** A text written by [stringify] is read back by [parse] as the value it
    was written from. *)
Theorem parse_stringify v : parse (stringify v) = Some v.
Proof.
  unfold parse, stringify. rewrite list_ascii_of_string_of_list_ascii.
  pose proof (render_readsBack v (S (length (render v))) []) as H.
  rewrite app_nil_r in H. rewrite H; [reflexivity | | exact I].
  pose proof (size_le_length v). lia.
Qed.

Lemma codec_stringify_parses : stringify_parses codec.
Proof.
  split.
  - intros v. cbn. rewrite parse_stringify. eauto.
  - cbn. eexists. reflexivity.
Qed.

End JsonTextProofs.

(** ** The body codec ([parseBody], [stringifyBody], [createMessageBody]) *)
Section BodyCodecProofs.
Import Models ChatStore Samples.

(** C3, as stated, fails: [parseBody] turns a string that is not JSON into
    the body [{ text: raw }]; it does not fail. *)
Lemma C3_parseBody_wraps_plain_text :
  @JSON_parse JsonText.codec (trim greeting) = None
  /\ @parseBody JsonText.codec (Some (JStr greeting))
     = Returned (JObj [("text"%string, JStr greeting)])
  /\ ~ throws (@parseBody JsonText.codec (Some (JStr greeting))).
Proof.
  split; [reflexivity|]. split; [reflexivity|].
  intros [e He]. discriminate He.
Qed.

Context {C : Codec}.
Variable T : MessageType.codes.

Lemma parseBody_returns raw : returns (parseBody raw).
Proof.
  unfold parseBody, JSON_parse_call.
  destruct raw as [[| | |s| |]|]; simpl; try (eexists; reflexivity).
  destruct (JSON_parse (trim s)); simpl; eexists; reflexivity.
Qed.

(** C3, amended: [parseBody] never fails; a string that is not JSON is
    wrapped as [{ text: raw }], and [parseBody] takes no content type.  The
    decoder that fails is [createMessageBody]: it throws on a string that is
    not JSON and on a content type outside its [switch]. *)
Theorem C3_decode_failure (raw : option jsval) (contentType : Z) :
  returns (parseBody raw)
  /\ (forall s, JSON_parse (trim s) = None ->
        parseBody (Some (JStr s)) = Returned (JObj [("text"%string, JStr s)]))
  /\ (forall s, JSON_parse s = None ->
        createMessageBody T (Some (JStr s)) contentType
        = Thrown (mkError ("Invalid JSON string for messageBody: " ++ s)))
  /\ (Models.bodyClassOf T contentType = None ->
      (forall s, raw = Some (JStr s) -> is_Some (JSON_parse s)) ->
      createMessageBody T raw contentType
      = Thrown (mkError ("Unknown messageContentType: " ++ string_of_Z contentType))).
Proof.
  split; [apply parseBody_returns|]. split; [|split].
  - intros s Hs. unfold parseBody, JSON_parse_call. simpl. rewrite Hs. reflexivity.
  - intros s Hs. unfold createMessageBody, JSON_parse_call. rewrite Hs. reflexivity.
  - intros Hclass Hraw. unfold createMessageBody, JSON_parse_call.
    destruct raw as [[| | |s| |]|]; cbn [bind try_catch]; rewrite ?Hclass;
      try reflexivity.
    destruct (Hraw s eq_refl) as [v Hv]. rewrite Hv. reflexivity.
Qed.

(** C8: for a codec that reads back what it writes, [stringifyBody] is
    idempotent; a string that parses as JSON is returned as it is; and a
    value that is neither a string nor [null] is serialised by
    [JSON.stringify]. *)
Theorem C8_stringifyBody_idempotent (Hcodec : stringify_parses C) (x : option jsval) :
  stringifyBody (Some (JStr (stringifyBody x))) = stringifyBody x
  /\ (forall s, is_Some (JSON_parse s) -> stringifyBody (Some (JStr s)) = s)
  /\ (forall v, v <> JNull -> typeof_string v = false ->
                stringifyBody (Some v) = JSON_stringify v).
Proof.
  destruct Hcodec as [Hwritten Hempty].
  assert (Hparsed : forall s, is_Some (JSON_parse s) -> stringifyBody (Some (JStr s)) = s).
  { intros s [v Hv]. unfold stringifyBody. rewrite Hv. reflexivity. }
  split; [|split].
  - apply Hparsed.
    destruct x as [[| | |s| |]|]; cbn [stringifyBody];
      try exact Hempty; try apply Hwritten.
    destruct (JSON_parse s) eqn:Hs; [eauto | apply Hwritten].
  - exact Hparsed.
  - intros v Hnull Hstr. destruct v; try reflexivity; [congruence | discriminate].
Qed.

End BodyCodecProofs.

Section BodyCodecExamples.
Import Models ChatStore Samples.

(** C3 on the greeting: it comes back wrapped as text. *)
Lemma C3_decode_failure_witness :
  @parseBody JsonText.codec (Some (JStr greeting))
  = Returned (JObj [("text"%string, JStr greeting)]).
Proof.
  destruct (@C3_decode_failure JsonText.codec MessageType.sample None 1)
    as (_ & Hwrapped & _).
  apply Hwrapped. reflexivity.
Defined.

(** C8 on the codec over byte strings. *)
Lemma C8_stringifyBody_idempotent_witness :
  @stringifyBody JsonText.codec
    (Some (JStr (@stringifyBody JsonText.codec (Some (JStr greeting)))))
  = @stringifyBody JsonText.codec (Some (JStr greeting)).
Proof.
  destruct (@C8_stringifyBody_idempotent JsonText.codec codec_stringify_parses
              (Some (JStr greeting))) as [Hidem _].
  exact Hidem.
Defined.

(** White space is that of JavaScript: a no-break space before the text is
    trimmed, as a blank is, and the text is read as JSON. *)
Example parseBody_trims_wide_space :
  @parseBody JsonText.codec (Some (JStr (MoreSamples.noBreakSpace ++ "{}")))
  = Returned (JObj [])
  /\ @parseBody JsonText.codec
       (Some (JStr ("{}" ++ MoreSamples.ideographicSpace ++ " ")))
     = Returned (JObj [])
  /\ trim (MoreSamples.ideographicSpace ++ "a b" ++ MoreSamples.noBreakSpace) = "a b"%string.
Proof. split; [reflexivity | split; reflexivity]. Qed.

(** A run of white space of any kind collapses to one blank. *)
Example collapseSpaces_wide_space :
  ChatInput.collapseSpaces
    ("a" ++ MoreSamples.noBreakSpace ++ " " ++ MoreSamples.ideographicSpace ++ "b  c")
  = "a b c"%string.
Proof. reflexivity. Qed.

End BodyCodecExamples.

(** ** Recalling a message ([handleRecall]) *)
Section RecallProofs.
Import Models ChatStore Samples.
Context {C : Codec}.
Variable T : MessageType.codes.

(** One application, when the directive names a message. *)
Lemma handleRecall_unfold now d st :
  truthy_ostr (IMessageAction.messageId d) = true ->
  handleRecall T now (Some d) st
  = addTasks
      [RecallRow
         (mapper T (default (MessageType.SINGLE_MESSAGE T)
                      (RecallMessageBody.chatType (IMessageAction.messageBody d))))
         (String_of_ostr (IMessageAction.messageId d))
         (stringifyRecall (recallBody T now st (IMessageAction.messageBody d)))
         MessageContentType.RECALL_MESSAGE]
      match findIndex
              (fun msg => String.eqb (String_of_ostr (IMessage.messageId msg))
                                     (String_of_ostr (IMessageAction.messageId d)))
              (messageList st) with
      | Some idx =>
          set_messageList
            (alter (recalled (liveBody st (recallBody T now st (IMessageAction.messageBody d))))
               idx (messageList st)) st
      | None => st
      end.
Proof. intros H. unfold handleRecall. rewrite H. reflexivity. Qed.

(** The recall task, when the tombstone has a text: the row of that id takes
    the text and the content type, the shadow row goes, and no row is added
    or deleted. *)
Lemma recall_task_writes db m id text contentType :
  let db' := runTask db (RecallRow m id (Returned text) contentType) in
  rowsOf m db' !! id = patchRow text contentType <$> rowsOf m db !! id
  /\ ftsOf m db' !! id = None
  /\ (forall k, is_Some (rowsOf m db' !! k) <-> is_Some (rowsOf m db !! k)).
Proof.
  split; [|split].
  - destruct m; cbn; apply lookup_alter_eq.
  - destruct m; cbn; apply lookup_delete_eq.
  - intros k. destruct m; cbn; apply lookup_alter_is_Some.
Qed.

(** The recall of a message of a group chat by a member whose name is known
    queues a task that has the text of the tombstone, [name] included. *)
Lemma recall_of_group_chat now st body userId memberName :
  RecallMessageBody.chatType body = Some (MessageType.GROUP_MESSAGE T) ->
  MessageType.GROUP_MESSAGE T <> MessageType.SINGLE_MESSAGE T ->
  List.find (fun m => String.eqb (fst m) (default ""%string (RecallMessageBody.operatorId body)))
            (membersExcludeSelf st) = Some (userId, memberName) ->
  stringifyRecall (recallBody T now st body)
  = Returned (JSON_stringify
                (JObj (tombstone (recallBody T now st body)
                       ++ [("name"%string, JStr (str_or (Some memberName) userId))]))).
Proof.
  intros Htype Hne Hfind. unfold stringifyRecall, recallBody at 1. cbn [recallName].
  unfold getUserNameByType. rewrite Htype. cbn [default from_option id].
  destruct (Z.eqb_spec (MessageType.GROUP_MESSAGE T) (MessageType.SINGLE_MESSAGE T));
    [contradiction|].
  rewrite Z.eqb_refl, Hfind. reflexivity.
Qed.

(** C5: the code at a recall of a message of a single chat, which is also
    the chat type taken when the directive names none.  The live list gets
    the tombstone [{ _recalled: true, operatorId, recallTime, reason, name }]
    and the content type [RECALL_MESSAGE], but the task queued for the
    store throws in [JSON.stringify], since [name] is the [ComputedRef]
    [getters.currentName]: the row of the message keeps its body and its
    content type, and the full-text shadow row stays. *)
Theorem C5_single_recall_leaves_store (now : Z) (d : IMessageAction.t) (st : ChatState)
    (db : Store) :
  truthy_ostr (IMessageAction.messageId d) = true ->
  default (MessageType.SINGLE_MESSAGE T)
    (RecallMessageBody.chatType (IMessageAction.messageBody d))
  = MessageType.SINGLE_MESSAGE T ->
  let once := handleRecall T now (Some d) st in
  let directive := IMessageAction.messageBody d in
  let id := String_of_ostr (IMessageAction.messageId d) in
  let isTarget := fun msg => String.eqb (String_of_ostr (IMessage.messageId msg)) id in
  let live :=
    JObj [ ("_recalled", JBool true);
           ("operatorId", JStr (default "" (RecallMessageBody.operatorId directive)));
           ("recallTime", JNum (default now (RecallMessageBody.recallTime directive)));
           ("reason", JStr (default "" (RecallMessageBody.reason directive)));
           ("name", JStr (currentName st)) ]%string in
  (forall idx, findIndex isTarget (messageList st) = Some idx ->
     exists msg, messageList st !! idx = Some msg
       /\ messageList once = <[idx := recalled live msg]> (messageList st)
       /\ IMessage.messageContentType (recalled live msg) = MessageContentType.RECALL_MESSAGE
       /\ IMessage.messageBody (recalled live msg) = live)
  /\ pending once
     = pending st ++ [RecallRow SingleMessages id (Thrown CircularStructure)
                        MessageContentType.RECALL_MESSAGE]
  /\ runTasks db (pending once) = runTasks db (pending st)
  /\ rowsOf SingleMessages (runTasks db (pending once)) !! id
     = rowsOf SingleMessages (runTasks db (pending st)) !! id
  /\ ftsOf SingleMessages (runTasks db (pending once)) !! id
     = ftsOf SingleMessages (runTasks db (pending st)) !! id.
Proof.
  intros Hid Hsingle once directive id isTarget live.
  assert (Hname : recallName (recallBody T now st directive) = Some CurrentNameRef).
  { unfold recallBody. cbn [recallName]. unfold getUserNameByType.
    fold directive in Hsingle. rewrite Hsingle, Z.eqb_refl. reflexivity. }
  assert (Hlive : liveBody st (recallBody T now st directive) = live).
  { unfold liveBody. rewrite Hname. reflexivity. }
  assert (Htext : stringifyRecall (recallBody T now st directive) = Thrown CircularStructure).
  { unfold stringifyRecall. rewrite Hname. reflexivity. }
  assert (Honce : once
            = addTasks [RecallRow SingleMessages id (Thrown CircularStructure)
                          MessageContentType.RECALL_MESSAGE]
                match findIndex isTarget (messageList st) with
                | Some idx => set_messageList (alter (recalled live) idx (messageList st)) st
                | None => st
                end).
  { subst once. rewrite (handleRecall_unfold now d st Hid). fold directive id isTarget.
    fold directive in Hsingle. rewrite Hsingle, Htext, Hlive.
    unfold mapper. rewrite Z.eqb_refl. reflexivity. }
  assert (Hpending : pending once
                     = pending st ++ [RecallRow SingleMessages id (Thrown CircularStructure)
                                        MessageContentType.RECALL_MESSAGE]).
  { rewrite Honce. destruct (findIndex isTarget (messageList st)); reflexivity. }
  assert (Hstore : runTasks db (pending once) = runTasks db (pending st)).
  { rewrite Hpending. unfold runTasks. rewrite fold_left_app. reflexivity. }
  split; [|split; [exact Hpending | split; [exact Hstore | rewrite Hstore; split; reflexivity]]].
  intros idx Hfind. destruct (findIndex_Some _ _ _ Hfind) as (msg & Hmsg & _).
  exists msg. split; [exact Hmsg|]. split; [|split; reflexivity].
  rewrite Honce, Hfind. cbn [messageList addTasks set_messageList].
  revert Hmsg. generalize (messageList st). clear. intros l. revert idx.
  induction l as [|x l IH]; intros [|idx]; try discriminate.
  - intros [= ->]. reflexivity.
  - intros Hmsg. cbn. f_equal. apply IH. exact Hmsg.
Qed.

End RecallProofs.

Section RecallExamples.
Import Models ChatStore Samples.

(** C5 on the recall of message [m5] of the conversation with Lin: the
    live message becomes the tombstone, and after the queue has run the
    store still has the text of the message, its content type and its
    full-text shadow row. *)
Lemma C5_single_recall_leaves_store_witness :
  let once := @handleRecall JsonText.codec MessageType.sample 1000
                (Some (recallAt (Some 900))) openState in
  let db := runTasks storeWithM5 (pending once) in
  List.map IMessage.messageBody (messageList once)
  = [JObj [("_recalled", JBool true); ("operatorId", JStr "u2"); ("recallTime", JNum 900);
           ("reason", JStr ""); ("name", JStr "Lin")]%string]
  /\ db = storeWithM5
  /\ rowBody <$> singleRows db !! "m5"%string = Some "on my way"%string
  /\ singleFts db !! "m5"%string = Some "on my way"%string.
Proof.
  destruct (@C5_single_recall_leaves_store JsonText.codec MessageType.sample 1000
              (recallAt (Some 900)) openState storeWithM5 eq_refl eq_refl)
    as (Hlive & _ & Hstore & _).
  destruct (Hlive 0%nat eq_refl) as (msg & Hmsg & Hlist & _).
  cbv zeta. rewrite Hstore, Hlist. injection Hmsg as <-.
  split; [reflexivity|]. split; [reflexivity|]. split; reflexivity.
Defined.

End RecallExamples.

(* ===================================================================== *)
(** * Part II, continued: further properties of the code *)
(* ===================================================================== *)

(** ** More on the group operations ([applyGroupOperation]) *)
Section GroupOperationFurther.
Import Models GroupStore GroupAccess Samples.

Lemma truthy_str_spec s : truthy_str s = true <-> s <> ""%string.
Proof.
  unfold truthy_str. destruct (String.eqb_spec s ""); simpl; split; congruence.
Qed.

(** The member stored under [k] after [onTarget] and after [dropTarget]. *)
Lemma onTarget_lookup target f st k :
  members (onTarget target f st) !! k
  = if decide (target = Some k /\ k <> ""%string) then f <$> members st !! k
    else members st !! k.
Proof.
  unfold onTarget. destruct target as [id|].
  - destruct (truthy_str id) eqn:Hid; cbn [andb].
    + apply truthy_str_spec in Hid. case_bool_decide as Hin; cbn [members set_members].
      * rewrite lookup_alter. destruct (decide (id = k)) as [-> | Hne].
        -- rewrite decide_True by (split; [reflexivity | exact Hid]). reflexivity.
        -- rewrite decide_False by (intros [[= ->] _]; contradiction). reflexivity.
      * case_decide as Hk; [|reflexivity].
        destruct Hk as [[= ->] _].
        destruct (members st !! k) eqn:Hm; [|reflexivity].
        exfalso. apply Hin. eauto.
    + case_decide as Hk; [|reflexivity].
      destruct Hk as [[= ->] Hne]. apply truthy_str_spec in Hne. congruence.
  - case_decide as Hk; [|reflexivity]. destruct Hk as [[=] _].
Qed.

Lemma dropTarget_lookup target st k :
  members (dropTarget target st) !! k
  = if decide (target = Some k /\ k <> ""%string) then None else members st !! k.
Proof.
  unfold dropTarget. destruct target as [id|].
  - destruct (truthy_str id) eqn:Hid; cbn [andb].
    + apply truthy_str_spec in Hid. case_bool_decide as Hin; cbn [members set_members].
      * rewrite lookup_delete. destruct (decide (id = k)) as [-> | Hne].
        -- rewrite decide_True by (split; [reflexivity | exact Hid]). reflexivity.
        -- rewrite decide_False by (intros [[= ->] _]; contradiction). reflexivity.
      * case_decide as Hk; [|reflexivity].
        destruct Hk as [[= ->] _].
        destruct (members st !! k) eqn:Hm; [|reflexivity].
        exfalso. apply Hin. eauto.
    + case_decide as Hk; [|reflexivity].
      destruct Hk as [[= ->] Hne]. apply truthy_str_spec in Hne. congruence.
  - case_decide as Hk; [|reflexivity]. destruct Hk as [[=] _].
Qed.

Lemma onInfo_members o f st : members (onInfo o f st) = members st.
Proof.
  unfold onInfo. destruct (info st) as [i|]; [|reflexivity].
  destruct (String.eqb _ _); reflexivity.
Qed.

Lemma sameIdentity_refl m : sameIdentity m m.
Proof. repeat split. Qed.

Lemma loadMembers_members g st : members (loadMembers g st) = members st.
Proof. unfold loadMembers. destruct (negb _); reflexivity. Qed.

(** The handler table, one type at a time. *)
Ltac by_operation o :=
  unfold applyGroupOperation, handlers;
  repeat match goal with
    | |- context [Op.operationType o =? ?c] =>
        destruct (Z.eqb_spec (Op.operationType o) c); lazy iota
    | H : context [Op.operationType o =? ?c] |- _ =>
        destruct (Z.eqb_spec (Op.operationType o) c); lazy iota in H
    end.

Lemma fmap_Some_identity (f : GroupMember -> GroupMember) (o : option GroupMember) m' :
  (forall m, sameIdentity (f m) m) ->
  f <$> o = Some m' -> exists m, o = Some m /\ sameIdentity m' m.
Proof.
  intros Hf. destruct o as [m|]; [|discriminate]. intros [= <-]. eauto.
Qed.

(** X1: [applyGroupOperation] adds no member and rewrites the identity of
    none: a member stored under a key when it returns was stored under that
    key before, with the same [userId], [name], [avatar] and [alias].  (The
    members that the reload after [JOIN_GROUP] brings arrive with the answer
    of the server, in [loadMembersDone].) *)
Theorem X1_group_operation_adds_no_member (now code : Z) (op : option Op.t)
    (st : GroupState) (k : string) (m' : GroupMember) :
  members (applyGroupOperation now code op st) !! k = Some m' ->
  exists m, members st !! k = Some m /\ sameIdentity m' m.
Proof.
  assert (Hsame : forall o, o = Some m' -> o = members st !! k ->
                            exists m, members st !! k = Some m /\ sameIdentity m' m).
  { intros o -> <-. eexists. split; [reflexivity | apply sameIdentity_refl]. }
  destruct op as [o|]; [|intros H; eapply Hsame; [exact H | reflexivity]].
  unfold applyGroupOperation.
  destruct (negb (truthy_str (Op.groupId o)));
    [intros H; eapply Hsame; [exact H | reflexivity]|].
  intros H. revert H. by_operation o; intros H.
  all: repeat first [ rewrite onTarget_lookup in H | rewrite dropTarget_lookup in H
                    | rewrite onInfo_members in H | rewrite loadMembers_members in H ].
  all: repeat case_decide; try discriminate.
  all: try (eapply Hsame; [exact H | reflexivity]).
  all: try (apply fmap_Some_identity in H; [exact H | intros; repeat split]).
  all: try (rewrite <- option_fmap_compose in H;
            apply fmap_Some_identity in H; [exact H | intros; repeat split]).
  - destruct (truthy_str _); [rewrite onInfo_members in H|];
      (eapply Hsame; [exact H | reflexivity]).
  - destruct (info st) as [i|]; [destruct (String.eqb _ _)|];
      cbn [members] in H; rewrite ?lookup_empty in H; try discriminate;
      (eapply Hsame; [exact H | reflexivity]).
Qed.

(** X2: an operation other than [REMOVE_GROUP] leaves alone every member but
    its target and, for a transfer of ownership, its operator. *)
Theorem X2_group_operation_frame (now code : Z) (o : Op.t) (st : GroupState) (k : string) :
  Op.operationType o <> MessageContentType.REMOVE_GROUP ->
  Op.targetUserId o <> Some k ->
  (Op.operationType o = MessageContentType.TRANSFER_GROUP_OWNER -> Op.operatorId o <> k) ->
  members (applyGroupOperation now code (Some o) st) !! k = members st !! k.
Proof.
  intros Hremove Htarget Hoperator. unfold applyGroupOperation.
  destruct (negb (truthy_str (Op.groupId o))); [reflexivity|].
  by_operation o.
  all: repeat first [ rewrite onTarget_lookup | rewrite dropTarget_lookup
                    | rewrite onInfo_members | rewrite loadMembers_members ].
  all: repeat case_decide; try reflexivity.
  all: try (exfalso; repeat match goal with H : _ /\ _ |- _ => destruct H end;
            first [ congruence | apply Hoperator; [assumption | congruence] ]).
  - destruct (truthy_str _); [rewrite onInfo_members|]; reflexivity.
Qed.

Lemma onInfo_other o f st :
  (forall i, info st = Some i -> groupId i <> Op.groupId o) -> onInfo o f st = st.
Proof.
  intros Hother. unfold onInfo. destruct (info st) as [i|] eqn:Hi; [|reflexivity].
  destruct (String.eqb_spec (groupId i) (Op.groupId o)) as [Heq|]; [|reflexivity].
  exfalso. exact (Hother i eq_refl Heq).
Qed.

(** X3: the operations on the information of a group ([MUTE_ALL],
    [UNMUTE_ALL], [SET_GROUP_INFO], [SET_GROUP_ANNOUNCEMENT],
    [SET_GROUP_JOIN_MODE], [REMOVE_GROUP]) leave the state as it is when no
    information is loaded or when the loaded information is that of another
    group. *)
Theorem X3_group_operation_other_group (now code : Z) (o : Op.t) (st : GroupState) :
  In (Op.operationType o) infoOperations ->
  (forall i, info st = Some i -> groupId i <> Op.groupId o) ->
  applyGroupOperation now code (Some o) st = st.
Proof.
  intros Hin Hother. unfold applyGroupOperation.
  destruct (negb (truthy_str (Op.groupId o))); [reflexivity|].
  unfold infoOperations in Hin. simpl in Hin.
  repeat (destruct Hin as [<- | Hin]); try contradiction; cbn.
  all: rewrite ?onInfo_other by assumption; try reflexivity.
  - destruct (truthy_str _); [apply onInfo_other; assumption | reflexivity].
  - destruct (info st) as [i|] eqn:Hi; [|reflexivity].
    destruct (String.eqb_spec (groupId i) (Op.groupId o)) as [Heq|]; [|reflexivity].
    exfalso. exact (Hother i eq_refl Heq).
Qed.

(** X4: the handlers of the member operations (kick, promote, demote,
    transfer, mute, unmute, set role, leave) do not read [groupId]: addressed
    to any other group, the operation has the same effect on the members that
    are loaded. *)
Theorem X4_member_operation_ignores_group (now code : Z) (o : Op.t) (g : string)
    (st : GroupState) :
  In (Op.operationType o) memberOperations ->
  Op.groupId o <> ""%string -> g <> ""%string ->
  applyGroupOperation now code (Some (forGroup g o)) st
  = applyGroupOperation now code (Some o) st.
Proof.
  intros Hin Ho Hg. unfold applyGroupOperation.
  apply truthy_str_spec in Ho, Hg. cbn [forGroup Op.groupId Op.operationType].
  rewrite Ho, Hg. cbn [negb].
  unfold memberOperations in Hin. simpl in Hin.
  repeat (destruct Hin as [<- | Hin]); try contradiction; reflexivity.
Qed.

Lemma state_eq (a b : GroupState) :
  members a = members b -> info a = info b -> loading a = loading b ->
  error a = error b -> currentGroupId a = currentGroupId b -> log a = log b ->
  requested a = requested b -> a = b.
Proof. destruct a, b. simpl. intros. subst. reflexivity. Qed.

Lemma onTarget_rest target f st :
  info (onTarget target f st) = info st
  /\ loading (onTarget target f st) = loading st
  /\ error (onTarget target f st) = error st
  /\ currentGroupId (onTarget target f st) = currentGroupId st
  /\ log (onTarget target f st) = log st
  /\ requested (onTarget target f st) = requested st.
Proof.
  unfold onTarget. destruct target as [id|]; [|repeat split].
  destruct (_ && _); repeat split.
Qed.

Lemma onTarget_onTarget target f g st :
  onTarget target f (onTarget target g st) = onTarget target (fun m => f (g m)) st.
Proof.
  destruct (onTarget_rest target f (onTarget target g st)) as (H1 & H2 & H3 & H4 & H5 & H6).
  destruct (onTarget_rest target g st) as (G1 & G2 & G3 & G4 & G5 & G6).
  destruct (onTarget_rest target (fun m => f (g m)) st) as (K1 & K2 & K3 & K4 & K5 & K6).
  apply state_eq; try congruence.
  apply map_eq. intros k. rewrite !onTarget_lookup.
  case_decide; [|reflexivity]. destruct (members st !! k); reflexivity.
Qed.

(** X5: unmuting a member after muting it gives the state that unmuting alone
    gives.  On a member that is stored, [MUTE_MEMBER] sets [mute] to [MUTED]
    and [muteEndTime] to [now + muteDuration * 1000] when the duration is
    positive, to [undefined] otherwise; [UNMUTE_MEMBER] sets [mute] to
    [NORMAL] and clears [muteEndTime]. *)
Theorem X5_unmute_after_mute (now1 now2 code : Z) (muting unmuting : Op.t)
    (st : GroupState) :
  Op.operationType muting = MessageContentType.MUTE_MEMBER ->
  Op.operationType unmuting = MessageContentType.UNMUTE_MEMBER ->
  Op.targetUserId muting = Op.targetUserId unmuting ->
  Op.groupId muting <> ""%string -> Op.groupId unmuting <> ""%string ->
  applyGroupOperation now2 code (Some unmuting)
    (applyGroupOperation now1 code (Some muting) st)
  = applyGroupOperation now2 code (Some unmuting) st
  /\ (forall id m,
        Op.targetUserId muting = Some id -> id <> ""%string ->
        members st !! id = Some m ->
        let dur := default 0 (extraOf muting Op.muteDuration) in
        members (applyGroupOperation now1 code (Some muting) st) !! id
        = Some (set_mute (Some GroupMuteStatus.MUTED)
                  (if 0 <? dur then Some (now1 + dur * 1000) else None) m)
        /\ members (applyGroupOperation now2 code (Some unmuting) st) !! id
           = Some (set_mute (Some GroupMuteStatus.NORMAL) None m)).
Proof.
  intros Hmute Hunmute Htarget Hg1 Hg2.
  apply truthy_str_spec in Hg1, Hg2.
  unfold applyGroupOperation. rewrite Hg1, Hg2, Hmute, Hunmute. cbn [negb].
  change (handlers now1 MessageContentType.MUTE_MEMBER) with
    (Some (fun o =>
             let dur := default 0 (extraOf o Op.muteDuration) in
             onTarget (Op.targetUserId o)
               (set_mute (Some GroupMuteStatus.MUTED)
                  (if 0 <? dur then Some (now1 + dur * 1000) else None)))).
  change (handlers now2 MessageContentType.UNMUTE_MEMBER) with
    (Some (fun o =>
             onTarget (Op.targetUserId o) (set_mute (Some GroupMuteStatus.NORMAL) None))).
  cbv beta iota zeta. rewrite Htarget. split.
  - rewrite onTarget_onTarget. reflexivity.
  - intros id m Hid Hne Hm. rewrite !onTarget_lookup.
    rewrite !decide_True by (split; assumption). rewrite Hm. split; reflexivity.
Qed.

Lemma onTarget_cleared target f st : onTarget target f (cleared st) = cleared st.
Proof.
  unfold onTarget. destruct target as [id|]; [|reflexivity].
  cbn [members cleared]. rewrite lookup_empty.
  rewrite bool_decide_false by (intros [? ?]; discriminate).
  rewrite andb_false_r. reflexivity.
Qed.

Lemma dropTarget_cleared target st : dropTarget target (cleared st) = cleared st.
Proof.
  unfold dropTarget. destruct target as [id|]; [|reflexivity].
  cbn [members cleared]. rewrite lookup_empty.
  rewrite bool_decide_false by (intros [? ?]; discriminate).
  rewrite andb_false_r. reflexivity.
Qed.

Lemma onInfo_cleared o f st : onInfo o f (cleared st) = cleared st.
Proof. reflexivity. Qed.

(** X6: [REMOVE_GROUP] for the group whose information is loaded empties
    [members], [info] and [currentGroupId]; on the state it leaves, every
    operation the table knows but [JOIN_GROUP] changes nothing. *)
Theorem X6_remove_group_clears (now code : Z) (o : Op.t) (st : GroupState) (i : GroupInfo) :
  Op.operationType o = MessageContentType.REMOVE_GROUP ->
  Op.groupId o <> ""%string ->
  info st = Some i -> groupId i = Op.groupId o ->
  let st' := applyGroupOperation now code (Some o) st in
  st' = cleared st
  /\ (forall now' code' o',
        In (Op.operationType o') recognized ->
        Op.operationType o' <> MessageContentType.JOIN_GROUP ->
        applyGroupOperation now' code' (Some o') st' = st').
Proof.
  intros Htype Hg Hi Hid st'.
  assert (Hst' : st' = cleared st).
  { subst st'. unfold applyGroupOperation. apply truthy_str_spec in Hg.
    rewrite Hg, Htype. cbn. rewrite Hi, Hid, String.eqb_refl. reflexivity. }
  split; [exact Hst'|]. rewrite Hst'. clear st' Hst'.
  intros now' code' o' Hin Hjoin. unfold applyGroupOperation.
  destruct (negb (truthy_str (Op.groupId o'))); [reflexivity|].
  unfold recognized in Hin. simpl in Hin.
  revert Hjoin.
  repeat (destruct Hin as [<- | Hin]); try contradiction; intros Hjoin; try congruence.
  all: cbn -[cleared onTarget dropTarget onInfo].
  all: rewrite ?onTarget_cleared, ?dropTarget_cleared, ?onInfo_cleared; try reflexivity.
  destruct (truthy_str _); reflexivity.
Qed.

End GroupOperationFurther.

(** ** Getters and actions of the group store ([store/modules/group.ts]) *)
Section GroupAccessProofs.
Import Models GroupStore GroupAccess Samples.

Lemma In_Object_values (ms : gmap string GroupMember) x :
  In x (Object_values ms) <-> exists k, ms !! k = Some x.
Proof.
  unfold Object_values. rewrite <- list_elem_of_In, list_elem_of_fmap. split.
  - intros [[k v] [-> Hin]]. apply elem_of_map_to_list in Hin. eauto.
  - intros [k Hk]. exists (k, x). split; [reflexivity|].
    apply elem_of_map_to_list. exact Hk.
Qed.

(** Under its own key a member is found whatever the order of the values. *)
Lemma find_member_keyed (ms : gmap string GroupMember) (vals : list GroupMember) me :
  keyed ms -> (forall x, In x vals <-> exists k, ms !! k = Some x) ->
  List.find (fun m => String.eqb (userId m) me) vals = ms !! me.
Proof.
  intros Hkeyed Hvals.
  destruct (List.find _ vals) as [x|] eqn:Hfind.
  - apply List.find_some in Hfind. destruct Hfind as [Hin Hid].
    apply String.eqb_eq in Hid. apply Hvals in Hin. destruct Hin as [k Hk].
    pose proof (Hkeyed k x Hk) as Hkx. congruence.
  - destruct (ms !! me) as [v|] eqn:Hme; [|reflexivity].
    exfalso. assert (In v vals) as Hin by (apply Hvals; eauto).
    pose proof (List.find_none _ _ Hfind v Hin) as Hnone. cbv beta in Hnone.
    rewrite (Hkeyed me v Hme), String.eqb_refl in Hnone. discriminate.
Qed.

(** X7: when every member is stored under its own [userId], [currentMember] is
    the entry stored under the id of the signed-in user, in whatever order
    [Object.values] lists the members; [currentRole] is its role ([MEMBER]
    when the entry or its role is missing), and [isOwner] and
    [hasAdminPermission] follow from it. *)
Theorem X7_current_role_keyed (me : string) (st : GroupState) :
  keyed (members st) ->
  currentMember me st = members st !! me
  /\ currentRole me st = default GroupMemberRole.MEMBER (members st !! me ≫= role)
  /\ (isOwner me st = true <-> members st !! me ≫= role = Some GroupMemberRole.OWNER)
  /\ (hasAdminPermission me st = true
      <-> members st !! me ≫= role = Some GroupMemberRole.OWNER
          \/ members st !! me ≫= role = Some GroupMemberRole.ADMIN)
  /\ (forall vals, Permutation vals (Object_values (members st)) ->
        List.find (fun m => String.eqb (userId m) me) vals = currentMember me st).
Proof.
  intros Hkeyed.
  assert (Hcur : currentMember me st = members st !! me).
  { apply find_member_keyed; [exact Hkeyed | apply In_Object_values]. }
  assert (Hrole : currentRole me st
                  = default GroupMemberRole.MEMBER (members st !! me ≫= role)).
  { unfold currentRole. rewrite Hcur. destruct (members st !! me); reflexivity. }
  split; [exact Hcur|]. split; [exact Hrole|]. split; [|split].
  - unfold isOwner. rewrite Hrole, Z.eqb_eq.
    destruct (members st !! me ≫= role) as [r|]; cbn; split; try congruence.
    discriminate.
  - unfold hasAdminPermission. rewrite Hrole, orb_true_iff, !Z.eqb_eq.
    destruct (members st !! me ≫= role) as [r|]; cbn.
    + split; intros [H|H]; (left + right); congruence.
    + split; intros [H|H]; discriminate.
  - intros vals Hperm. rewrite Hcur. apply find_member_keyed; [exact Hkeyed|].
    intros x. rewrite <- In_Object_values. split; apply Permutation_in;
      [exact Hperm | symmetry; exact Hperm].
Qed.

Lemma set_error_same st : set_error (error st) st = st.
Proof. destruct st. reflexivity. Qed.

Ltac guarded_case action result :=
  unfold guarded, action;
  match goal with
  | |- context [hasAdminPermission ?me ?st] => destruct (hasAdminPermission me st)
  | |- context [isOwner ?me ?st] => destruct (isOwner me st)
  end;
  destruct result; cbn [negb andb]; cbv beta iota zeta;
  (split; [first [ reflexivity
                 | rewrite bool_decide_true by eauto; reflexivity
                 | rewrite bool_decide_false by (intros [? ?]; discriminate); reflexivity ]
          | split; [intros Hok; try discriminate Hok;
                    eexists; first [reflexivity | symmetry; apply set_error_same]
                   | split; intros Hp; try discriminate Hp;
                     repeat match goal with |- context [if ?b then _ else _] => destruct b end;
                     split; first [reflexivity | eexists; reflexivity ] ]]).

(** X8: each guarded action resolves to [true] exactly when its permission
    check passed and the server answered; when it resolves to [false] the
    state is as before but for [error]; without permission no request is sent
    and [error] is set; with permission exactly one request is sent and
    [error] is left alone.  The check is [hasAdminPermission] for
    [kickMember], [muteMember], [setJoinMode] and [setMuteAll], [isOwner] for
    [setAdmin], [transferOwner] and [dismissGroup], and not [isOwner] for
    [quitGroup]; [updateMemberInfo] has none, and sends its request whoever
    calls it. *)
Theorem X8_actions_are_guarded (me : string) (now : Z) (params : Params.t)
    (g : string) (v : Z) (result : option jsval) (st : GroupState) :
  guarded (hasAdminPermission me st) result st (kickMember me params result st)
  /\ guarded (hasAdminPermission me st) result st (muteMember me now params result st)
  /\ guarded (hasAdminPermission me st) result st (setJoinMode me g v result st)
  /\ guarded (hasAdminPermission me st) result st (setMuteAll me g v result st)
  /\ guarded (isOwner me st) result st (setAdmin me params result st)
  /\ guarded (isOwner me st) result st (transferOwner me params result st)
  /\ guarded (isOwner me st) result st (dismissGroup me g result st)
  /\ guarded (negb (isOwner me st)) result st (quitGroup me g result st)
  /\ guarded true result st (updateMemberInfo me params result st).
Proof.
  split; [guarded_case kickMember result|].
  split; [guarded_case muteMember result|].
  split; [guarded_case setJoinMode result|].
  split; [guarded_case setMuteAll result|].
  split; [guarded_case setAdmin result|].
  split; [guarded_case transferOwner result|].
  split; [guarded_case dismissGroup result|].
  split; [guarded_case quitGroup result|].
  unfold guarded, updateMemberInfo. destruct result; cbn [andb].
  - rewrite bool_decide_true by eauto.
    split; [reflexivity|]. split; [discriminate|]. split; [discriminate|].
    intros _. destruct (present _ st && truthy_ostr _); split; reflexivity.
  - rewrite bool_decide_false by (intros [? ?]; discriminate).
    split; [reflexivity|]. split; [|split; [discriminate | intros _; split; reflexivity]].
    intros _. exists (error st). symmetry. apply set_error_same.
Qed.

Lemma dropTarget_rest target st :
  info (dropTarget target st) = info st
  /\ loading (dropTarget target st) = loading st
  /\ error (dropTarget target st) = error st
  /\ currentGroupId (dropTarget target st) = currentGroupId st
  /\ log (dropTarget target st) = log st
  /\ requested (dropTarget target st) = requested st.
Proof.
  unfold dropTarget. destruct target as [id|]; [|repeat split].
  destruct (_ && _); repeat split.
Qed.

Lemma dropTarget_dropTarget target st :
  dropTarget target (dropTarget target st) = dropTarget target st.
Proof.
  destruct (dropTarget_rest target (dropTarget target st)) as (H1 & H2 & H3 & H4 & H5 & H6).
  apply state_eq; try assumption.
  apply map_eq. intros k. rewrite !dropTarget_lookup. case_decide; reflexivity.
Qed.

(** With a non-empty key the guarded updates of the actions are those of the
    handlers. *)
Lemma present_onTarget id f st :
  id <> ""%string ->
  (if present id st then set_members (alter f id (members st)) st else st)
  = onTarget (Some id) f st.
Proof.
  intros Hid. apply truthy_str_spec in Hid. unfold onTarget, present.
  rewrite Hid. reflexivity.
Qed.

Lemma present_dropTarget id st :
  id <> ""%string ->
  (if present id st then set_members (delete id (members st)) st else st)
  = dropTarget (Some id) st.
Proof.
  intros Hid. apply truthy_str_spec in Hid. unfold dropTarget, present.
  rewrite Hid. reflexivity.
Qed.

Lemma transfer_twice prev target st :
  let once :=
    onTarget target (set_role (Some GroupMemberRole.OWNER))
      (onTarget (Some prev) (set_role (Some GroupMemberRole.MEMBER)) st) in
  onTarget target (set_role (Some GroupMemberRole.OWNER))
    (onTarget (Some prev) (set_role (Some GroupMemberRole.MEMBER)) once) = once.
Proof.
  intros once. subst once.
  repeat match goal with
    | |- context [onTarget ?t ?f ?s] =>
        lazymatch goal with
        | H : info (onTarget t f s) = _ /\ _ |- _ => fail
        | _ => pose proof (onTarget_rest t f s)
        end
    end.
  repeat match goal with H : _ /\ _ |- _ => destruct H end.
  apply state_eq; try congruence.
  apply map_eq. intros k. rewrite !onTarget_lookup.
  repeat case_decide; destruct (members st !! k); reflexivity.
Qed.

(** X9: the state that a successful [kickMember] or [transferOwner] leaves is
    the state that the broadcast of the operation gives, so that applying the
    broadcast afterwards changes nothing. *)
Theorem X9_local_update_agrees_with_broadcast (me : string) (now code : Z)
    (params : Params.t) (answer : jsval) (o : Op.t) (st : GroupState) :
  Op.groupId o <> ""%string ->
  Params.targetUserId params <> ""%string ->
  Op.targetUserId o = Some (Params.targetUserId params) ->
  (hasAdminPermission me st = true ->
   Op.operationType o = MessageContentType.KICK_FROM_GROUP ->
   let st' := snd (fst (kickMember me params (Some answer) st)) in
   st' = applyGroupOperation now code (Some o) st
   /\ applyGroupOperation now code (Some o) st' = st')
  /\ (isOwner me st = true ->
      Op.operationType o = MessageContentType.TRANSFER_GROUP_OWNER ->
      Op.operatorId o = me -> me <> ""%string ->
      let st' := snd (fst (transferOwner me params (Some answer) st)) in
      st' = applyGroupOperation now code (Some o) st
      /\ applyGroupOperation now code (Some o) st' = st').
Proof.
  intros Hg Htarget Ho. apply truthy_str_spec in Hg.
  split.
  - intros Hperm Htype st'.
    assert (Hst' : st' = dropTarget (Some (Params.targetUserId params)) st).
    { subst st'. unfold kickMember. rewrite Hperm. cbn [negb fst snd].
      apply present_dropTarget. exact Htarget. }
    unfold applyGroupOperation. rewrite Hg, Htype. cbn [negb].
    change (handlers now MessageContentType.KICK_FROM_GROUP)
      with (Some (fun o => dropTarget (Op.targetUserId o))).
    cbv beta iota. rewrite Ho, Hst'. split; [reflexivity|].
    apply dropTarget_dropTarget.
  - intros Hperm Htype Hop Hme st'.
    assert (Hst' : st' = onTarget (Some (Params.targetUserId params))
                           (set_role (Some GroupMemberRole.OWNER))
                           (onTarget (Some me) (set_role (Some GroupMemberRole.MEMBER)) st)).
    { subst st'. unfold transferOwner. rewrite Hperm. cbn [negb fst snd].
      rewrite (present_onTarget me) by exact Hme.
      apply present_onTarget. exact Htarget. }
    unfold applyGroupOperation. rewrite Hg, Htype. cbn [negb].
    change (handlers now MessageContentType.TRANSFER_GROUP_OWNER)
      with (Some (fun o st =>
                    let prevOwner := Op.operatorId o in
                    let st := onTarget (Some prevOwner)
                                (set_role (Some GroupMemberRole.MEMBER)) st in
                    onTarget (Op.targetUserId o) (set_role (Some GroupMemberRole.OWNER)) st)).
    cbv beta iota zeta. rewrite Ho, Hop, Hst'. split; [reflexivity|].
    apply transfer_twice.
Qed.

Lemma keyed_alter (f : GroupMember -> GroupMember) id ms :
  (forall m, userId (f m) = userId m) -> keyed ms -> keyed (alter f id ms).
Proof.
  intros Hf Hkeyed k m. rewrite lookup_alter. case_decide as Hk.
  - subst k. destruct (ms !! id) as [x|] eqn:Hx; [|discriminate].
    intros [= <-]. rewrite Hf. exact (Hkeyed id x Hx).
  - apply Hkeyed.
Qed.

Lemma role_keyed me st :
  keyed (members st) ->
  currentRole me st = default GroupMemberRole.MEMBER (members st !! me ≫= role).
Proof.
  intros Hkeyed. unfold currentRole, currentMember.
  rewrite (find_member_keyed (members st)) by (try exact Hkeyed; apply In_Object_values).
  destruct (members st !! me); reflexivity.
Qed.

(** X10: a [setAdmin] of the owner that the server answers sends one request,
    whose role is [params.role] or [ADMIN] when none is given, and stores
    [params.role] as it is on the target, leaving the other members alone.
    When [params.role] is left out, the request asks for [ADMIN] while the
    local member ends without a role, so that locally the target has no
    administrator rights. *)
Theorem X10_setAdmin_stores_given_role (me : string) (params : Params.t) (answer : jsval)
    (st : GroupState) (m : GroupMember) :
  isOwner me st = true ->
  members st !! Params.targetUserId params = Some m ->
  let done := setAdmin me params (Some answer) st in
  let st' := snd (fst done) in
  fst (fst done) = true
  /\ snd done = [SetGroupAdmin (Params.groupId params) me (Params.targetUserId params)
                   (default GroupMemberRole.ADMIN (Params.role params))]
  /\ members st' !! Params.targetUserId params = Some (set_role (Params.role params) m)
  /\ (forall k, k <> Params.targetUserId params -> members st' !! k = members st !! k)
  /\ (Params.role params = None -> keyed (members st) ->
      hasAdminPermission (Params.targetUserId params) st' = false
      /\ isAdminOrOwner (Params.targetUserId params) st' = false).
Proof.
  intros Howner Hm done st'. subst st' done. unfold setAdmin. rewrite Howner.
  cbn [negb fst snd]. unfold present.
  rewrite bool_decide_true by eauto. cbn [members set_members].
  split; [reflexivity|]. split; [reflexivity|]. split; [|split].
  - rewrite lookup_alter_eq, Hm. reflexivity.
  - intros k Hk. apply lookup_alter_ne. congruence.
  - intros Hrole Hkeyed. rewrite Hrole. split.
    + unfold hasAdminPermission. rewrite role_keyed.
      * cbn [members set_members]. rewrite lookup_alter_eq, Hm. reflexivity.
      * cbn [members set_members]. apply keyed_alter; [reflexivity | exact Hkeyed].
    + unfold isAdminOrOwner. cbn [members set_members].
      rewrite lookup_alter_eq, Hm. reflexivity.
Qed.

(** X11: [isMuted] changes the state only when it answers [false] on a
    personal mute that has expired, which it lifts; after the answer [false]
    every later call answers [false] and changes nothing; the other members
    and [info] are never touched; and the answer is [true] exactly when the
    member is stored and either the whole group is muted and the member is
    neither owner nor administrator, or the member is muted with no end time
    or with one that has not passed. *)
Theorem X11_isMuted_lifts_expired_mute (now : Z) (id : string) (st : GroupState) :
  let answer := fst (isMuted now id st) in
  let st' := snd (isMuted now id st) in
  (answer = true -> st' = st)
  /\ (answer = false ->
      (forall m', members st' !! id = Some m' -> mute m' <> Some GroupMuteStatus.MUTED)
      /\ forall later, isMuted later id st' = (false, st'))
  /\ (forall k, k <> id -> members st' !! k = members st !! k)
  /\ info st' = info st
  /\ (answer = true <->
      exists m, members st !! id = Some m
        /\ ((info st ≫= muteAll = Some GroupMuteStatus.MUTED
             /\ role m <> Some GroupMemberRole.OWNER /\ role m <> Some GroupMemberRole.ADMIN)
            \/ (mute m = Some GroupMuteStatus.MUTED
                /\ (num_or (muteEndTime m) 0 = 0 \/ now <= num_or (muteEndTime m) 0)))).
Proof.
  intros answer st'. subst answer st'. unfold isMuted.
  destruct (members st !! id) as [m|] eqn:Hm.
  2:{ cbn [fst snd]. split; [reflexivity|]. split; [|split; [|split]].
      - intros _. split; [intros m'; rewrite Hm; discriminate|].
        intros later. rewrite Hm. reflexivity.
      - reflexivity.
      - reflexivity.
      - split; [discriminate|]. intros (x & Hx & _). discriminate. }
  assert (Hstable : forall later, mute m <> Some GroupMuteStatus.MUTED ->
            (bool_decide (info st ≫= muteAll = Some GroupMuteStatus.MUTED)
             && negb (isAdminOrOwner id st)) = false ->
            isMuted later id st = (false, st)).
  { intros later Hmute Hall. unfold isMuted. rewrite Hm, Hall.
    rewrite bool_decide_false by exact Hmute. reflexivity. }
  assert (Hlifted : forall later e,
            (bool_decide (info st ≫= muteAll = Some GroupMuteStatus.MUTED)
             && negb (isAdminOrOwner id st)) = false ->
            let st1 := set_members
                         (alter (set_mute (Some GroupMuteStatus.NORMAL) e) id (members st))
                         st in
            isMuted later id st1 = (false, st1)).
  { intros later e Hall st1. unfold isMuted, isAdminOrOwner in *. subst st1.
    cbn [members set_members info]. rewrite lookup_alter_eq, Hm in *.
    cbn [fmap option_fmap option_map role set_mute mute]. rewrite Hall.
    rewrite bool_decide_false by discriminate. reflexivity. }
  unfold isAdminOrOwner in *. rewrite Hm in *.
  destruct (bool_decide_reflect (info st ≫= muteAll = Some GroupMuteStatus.MUTED))
    as [Hall|Hall];
  destruct (bool_decide_reflect (role m = Some GroupMemberRole.OWNER)) as [Ho|Ho];
  destruct (bool_decide_reflect (role m = Some GroupMemberRole.ADMIN)) as [Ha|Ha];
  destruct (bool_decide_reflect (mute m = Some GroupMuteStatus.MUTED)) as [Hmute|Hmute];
  destruct (Z.eqb_spec (num_or (muteEndTime m) 0) 0) as [He|He];
  destruct (Z.ltb_spec (num_or (muteEndTime m) 0) now) as [Hlt|Hlt];
  cbn [andb orb negb fst snd members set_members info].
  all: (split; [first [reflexivity | discriminate]|]).
  all: (split; [intros Hanswer;
                first [ discriminate Hanswer
                      | split; [ intros m'; rewrite ?lookup_alter_eq, Hm; intros [= <-];
                                 first [exact Hmute | discriminate]
                               | intros later;
                                 first [ apply Hstable; [exact Hmute | reflexivity]
                                       | apply Hlifted; reflexivity ] ] ]|]).
  all: (split; [intros k Hk; first [reflexivity | apply lookup_alter_ne; congruence]|]).
  all: (split; [reflexivity|]).
  all: split; [ intros Hanswer;
                first [ discriminate Hanswer
                      | exists m; split; [reflexivity|];
                        first [ left; repeat split; assumption
                              | right; split; [assumption|];
                                first [left; assumption | right; lia] ] ]
              | intros (x & [= <-] & [(H1 & H2 & H3) | (H1 & [H2|H2])]);
                first [reflexivity | contradiction | lia] ].
Qed.

End GroupAccessProofs.

Section GroupAccessExamples.
Import Models GroupStore GroupAccess Samples MoreSamples.

Lemma keyed_groupOfThree : keyed (members groupOfThree).
Proof.
  intros k m. unfold groupOfThree. cbn [members].
  rewrite !lookup_insert. repeat case_decide; subst; intros [= <-]; reflexivity.
Qed.

(** Promoting [u2]: the member stored under [u2] afterwards is the one
    stored before, with another role. *)
Lemma X1_group_operation_adds_no_member_witness :
  exists m, members groupOfThree !! "u2"%string = Some m
            /\ sameIdentity (set_role (Some GroupMemberRole.ADMIN)
                               (groupMember "u2" GroupMemberRole.MEMBER)) m.
Proof.
  apply (X1_group_operation_adds_no_member 0 1003
           (Some (groupOperation MessageContentType.PROMOTE_TO_ADMIN "u2")) groupOfThree).
  reflexivity.
Defined.

(** Kicking [u2] leaves [u3] as it is. *)
Lemma X2_group_operation_frame_witness :
  members (applyGroupOperation 0 1003
             (Some (groupOperation MessageContentType.KICK_FROM_GROUP "u2")) groupOfThree)
    !! "u3"%string
  = members groupOfThree !! "u3"%string.
Proof.
  apply X2_group_operation_frame; discriminate.
Defined.

(** A change of the information of group [g2] does not reach the state of
    group [g1]. *)
Lemma X3_group_operation_other_group_witness :
  applyGroupOperation 0 1003
    (Some (forGroup "g2" (groupNotice MessageContentType.MUTE_ALL))) loadedGroup
  = loadedGroup.
Proof.
  apply X3_group_operation_other_group.
  - cbn. tauto.
  - intros i [= <-]. discriminate.
Defined.

(** A kick addressed to group [g2] removes [u2] from the members of group
    [g1] that are loaded. *)
Lemma X4_member_operation_ignores_group_witness :
  applyGroupOperation 0 1003
    (Some (forGroup "g2" (groupOperation MessageContentType.KICK_FROM_GROUP "u2")))
    loadedGroup
  = applyGroupOperation 0 1003
      (Some (groupOperation MessageContentType.KICK_FROM_GROUP "u2")) loadedGroup.
Proof.
  apply X4_member_operation_ignores_group; [cbn; tauto | discriminate | discriminate].
Defined.

Lemma X5_unmute_after_mute_witness :
  applyGroupOperation 2000 1003
    (Some (groupOperation MessageContentType.UNMUTE_MEMBER "u2"))
    (applyGroupOperation 1000 1003
       (Some (groupOperation MessageContentType.MUTE_MEMBER "u2")) groupOfThree)
  = applyGroupOperation 2000 1003
      (Some (groupOperation MessageContentType.UNMUTE_MEMBER "u2")) groupOfThree.
Proof.
  apply (X5_unmute_after_mute 1000 2000 1003
           (groupOperation MessageContentType.MUTE_MEMBER "u2")
           (groupOperation MessageContentType.UNMUTE_MEMBER "u2") groupOfThree);
    first [reflexivity | discriminate].
Defined.

Lemma X6_remove_group_clears_witness :
  applyGroupOperation 0 1003 (Some (groupNotice MessageContentType.REMOVE_GROUP)) loadedGroup
  = cleared loadedGroup.
Proof.
  apply (X6_remove_group_clears 0 1003 (groupNotice MessageContentType.REMOVE_GROUP)
           loadedGroup groupInfo); first [reflexivity | discriminate].
Defined.

Lemma X7_current_role_keyed_witness :
  currentMember "u3" groupOfThree = members groupOfThree !! "u3"%string
  /\ currentRole "u3" groupOfThree = GroupMemberRole.ADMIN.
Proof.
  destruct (X7_current_role_keyed "u3" groupOfThree keyed_groupOfThree) as (Hmember & Hrole & _).
  split; [exact Hmember | rewrite Hrole; reflexivity].
Defined.

(** The owner [u1] kicks [u2]: the state is the one the broadcast of the
    kick gives. *)
Lemma X9_local_update_agrees_with_broadcast_witness :
  snd (fst (kickMember "u1" (onMember "u2") (Some JNull) groupOfThree))
  = applyGroupOperation 0 1003
      (Some (groupOperation MessageContentType.KICK_FROM_GROUP "u2")) groupOfThree.
Proof.
  destruct (X9_local_update_agrees_with_broadcast "u1" 0 1003 (onMember "u2") JNull
              (groupOperation MessageContentType.KICK_FROM_GROUP "u2") groupOfThree)
    as [Hkick _]; [discriminate | discriminate | reflexivity |].
  destruct (Hkick eq_refl eq_refl) as [Hsame _]. exact Hsame.
Defined.

(** The owner [u1] calls [setAdmin] on [u2] without a role: the request asks
    for the role of administrator, and the local member has no role. *)
Lemma X10_setAdmin_stores_given_role_witness :
  snd (setAdmin "u1" (onMember "u2") (Some JNull) groupOfThree)
  = [SetGroupAdmin "g1" "u1" "u2" GroupMemberRole.ADMIN]
  /\ hasAdminPermission "u2"
       (snd (fst (setAdmin "u1" (onMember "u2") (Some JNull) groupOfThree))) = false.
Proof.
  destruct (X10_setAdmin_stores_given_role "u1" (onMember "u2") JNull groupOfThree
              (groupMember "u2" GroupMemberRole.MEMBER) eq_refl eq_refl)
    as (_ & Hsent & _ & _ & Hrole).
  split; [exact Hsent|].
  destruct (Hrole eq_refl keyed_groupOfThree) as [Hnone _]. exact Hnone.
Defined.

End GroupAccessExamples.

(** ** The chat list: lookup and [upsert] ([store/modules/chat.ts]) *)
Section ChatListProofs.
Import Models ChatStore ChatOps Samples.

Lemma findIndex_None {A} (p : A -> bool) (l : list A) :
  findIndex p l = None <-> forall x, In x l -> p x = false.
Proof.
  induction l as [|y l IH]; simpl.
  - split; [intros _ x [] | reflexivity].
  - destruct (p y) eqn:Hy.
    + split; [discriminate|]. intros H. specialize (H y (or_introl eq_refl)). congruence.
    + destruct (findIndex p l) as [j|]; simpl.
      * split; [discriminate|]. intros H.
        assert (@None nat = None) as _ by reflexivity.
        destruct IH as [_ IH]. discriminate IH. intros x Hx. apply H. right. exact Hx.
      * split; [|reflexivity]. intros _ x [<-|Hx]; [exact Hy|].
        apply IH; [reflexivity | exact Hx].
Qed.

Lemma findIndex_first {A} (p : A -> bool) (l : list A) i :
  findIndex p l = Some i -> forall j x, (j < i)%nat -> l !! j = Some x -> p x = false.
Proof.
  revert i. induction l as [|y l IH]; intros i; simpl; [discriminate|].
  destruct (p y) eqn:Hy.
  - intros [= <-] j x Hj. lia.
  - destruct (findIndex p l) as [k|]; simpl; [|discriminate].
    intros [= <-] j x Hj. destruct j as [|j]; simpl.
    + intros [= <-]. exact Hy.
    + apply (IH k eq_refl). lia.
Qed.

Lemma findIndex_insert {A} (p : A -> bool) (l : list A) i y :
  findIndex p l = Some i -> p y = true -> findIndex p (<[i := y]> l) = Some i.
Proof.
  revert i. induction l as [|z l IH]; intros i; simpl; [discriminate|].
  destruct (p z) eqn:Hz.
  - intros [= <-] Hy. simpl. rewrite Hy. reflexivity.
  - destruct (findIndex p l) as [k|] eqn:Hk; simpl; [|discriminate].
    intros [= <-] Hy. simpl. rewrite Hz, (IH k eq_refl Hy). reflexivity.
Qed.

Lemma findIndex_app_new {A} (p : A -> bool) (l : list A) y :
  findIndex p l = None -> p y = true -> findIndex p (l ++ [y]) = Some (length l).
Proof.
  induction l as [|z l IH]; simpl.
  - intros _ Hy. rewrite Hy. reflexivity.
  - destruct (p z); [discriminate|].
    destruct (findIndex p l); simpl; [discriminate|].
    intros _ Hy. rewrite (IH eq_refl Hy). reflexivity.
Qed.

Lemma find_findIndex {A} (p : A -> bool) (l : list A) :
  List.find p l = findIndex p l ≫= (l !!.).
Proof.
  induction l as [|y l IH]; simpl; [reflexivity|].
  destruct (p y); [reflexivity|]. rewrite IH.
  destruct (findIndex p l); reflexivity.
Qed.

Lemma find_insert_other {A} (p : A -> bool) (l : list A) i old y :
  l !! i = Some old -> p old = false -> p y = false ->
  List.find p (<[i := y]> l) = List.find p l.
Proof.
  revert i. induction l as [|z l IH]; intros i; [discriminate|].
  destruct i as [|i]; simpl.
  - intros [= ->] Hold Hy. rewrite Hold, Hy. reflexivity.
  - intros Hi Hold Hy. destruct (p z); [reflexivity|]. apply (IH i); assumption.
Qed.

Lemma find_app_other {A} (p : A -> bool) (l : list A) y :
  p y = false -> List.find p (l ++ [y]) = List.find p l.
Proof.
  intros Hy. induction l as [|z l IH]; simpl; [rewrite Hy; reflexivity|].
  destruct (p z); [reflexivity | exact IH].
Qed.

Lemma findIdx_found st id idx :
  findIdx st id = Some idx ->
  id <> ""%string
  /\ findIndex (fun c => String.eqb (chatId c) id) (chatList st) = Some idx.
Proof.
  unfold findIdx, findChatIndex. destruct (truthy_str id) eqn:Hid; cbn [negb]; [|discriminate].
  apply truthy_str_spec in Hid. intros H. split; assumption.
Qed.

Lemma findIdx_eq st id :
  id <> ""%string ->
  findIdx st id = findIndex (fun c => String.eqb (chatId c) id) (chatList st).
Proof.
  intros Hid. apply truthy_str_spec in Hid. unfold findIdx, findChatIndex.
  rewrite Hid. reflexivity.
Qed.

Lemma alter_found {A} (f : A -> A) (l : list A) i x :
  l !! i = Some x -> alter f i l = <[i := f x]> l.
Proof.
  revert i. induction l as [|y l IH]; intros i; [discriminate|].
  destruct i as [|i]; simpl.
  - intros [= ->]. reflexivity.
  - intros Hi. f_equal. apply IH. exact Hi.
Qed.

Lemma Object_assign_whole entry c : Object_assign entry (whole c) = c.
Proof. destruct c. reflexivity. Qed.

Lemma asChats_whole c : asChats (whole c) = Some c.
Proof. destruct c. reflexivity. Qed.

(** [upsertWhole] spelled out: the entry found is replaced, or the chat
    is pushed. *)
Lemma upsert_whole_cases c st :
  upsert (whole c) st
  = Some (if negb (truthy_str (chatId c)) then st
          else match findIdx st (chatId c) with
               | Some idx => set_chatList (<[idx := c]> (chatList st)) st
               | None => set_chatList (chatList st ++ [c]) st
               end).
Proof.
  unfold upsert. cbn [whole Partial.chatId].
  destruct (negb (truthy_str (chatId c))); [reflexivity|].
  destruct (findIdx st (chatId c)) as [idx|] eqn:Hidx.
  - apply findIdx_found in Hidx. destruct Hidx as [_ Hidx].
    apply findIndex_Some in Hidx. destruct Hidx as (x & Hx & _).
    rewrite (alter_found _ _ _ x Hx), Object_assign_whole. reflexivity.
  - rewrite asChats_whole. reflexivity.
Qed.



Lemma NoDup_insert_same_key (l : list Chats) i old y :
  l !! i = Some old -> chatId y = chatId old ->
  List.map chatId (<[i := y]> l) = List.map chatId l.
Proof.
  revert i. induction l as [|z l IH]; intros i; [discriminate|].
  destruct i as [|i]; simpl.
  - intros [= ->] Hy. rewrite Hy. reflexivity.
  - intros Hi Hy. f_equal. apply (IH i); assumption.
Qed.


Lemma default_twice {A} (a : A) (o : option A) : default (default a o) o = default a o.
Proof. destruct o; reflexivity. Qed.

Lemma Object_assign_again entry chat :
  Object_assign (Object_assign entry chat) chat = Object_assign entry chat.
Proof. unfold Object_assign. cbn. rewrite !default_twice. reflexivity. Qed.

Lemma Object_assign_pushed chat pushed :
  asChats chat = Some pushed -> Object_assign pushed chat = pushed.
Proof.
  unfold asChats.
  destruct (Partial.chatId chat) eqn:H1; [|discriminate].
  destruct (Partial.toId chat) eqn:H2; [|discriminate].
  destruct (Partial.chatType chat) eqn:H3; [|discriminate].
  destruct (Partial.name chat) eqn:H4; [|discriminate].
  destruct (Partial.message chat) eqn:H5; [|discriminate].
  intros [= <-]. unfold Object_assign. cbn. rewrite H1, H2, H3, H4, H5. cbn.
  rewrite !default_twice. reflexivity.
Qed.

Lemma asChats_chatId chat pushed :
  asChats chat = Some pushed -> Partial.chatId chat = Some (chatId pushed).
Proof.
  unfold asChats.
  destruct (Partial.chatId chat); [|discriminate].
  destruct (Partial.toId chat); [|discriminate].
  destruct (Partial.chatType chat); [|discriminate].
  destruct (Partial.name chat); [|discriminate].
  destruct (Partial.message chat); [|discriminate].
  intros [= <-]. reflexivity.
Qed.

(** What [upsert] does when the chat has an id. *)
Lemma upsert_with_id chat id st :
  Partial.chatId chat = Some id -> id <> "" ->
  upsert chat st
  = match findIdx st id with
    | Some idx =>
        Some (set_chatList (alter (fun entry => Object_assign entry chat) idx (chatList st)) st)
    | None => (fun pushed => set_chatList (chatList st ++ [pushed]) st) <$> asChats chat
    end.
Proof.
  intros Hchat Hid. apply truthy_str_spec in Hid. unfold upsert. rewrite Hchat, Hid.
  reflexivity.
Qed.

(** X12: [upsert] ignores an object without [chatId].  Otherwise, when the
    list has an entry of that id, the entry takes the properties the object
    has and keeps its others ([Object.assign]), stays at its index, and
    [getChat] returns it; when it has none and the object is a whole chat,
    the object is pushed and found at the end of the list.  In both cases
    the chats of other ids are found as before, no id comes to occur twice,
    and a second [upsert] of the same object changes nothing.  On a whole
    chat [upsert] replaces the entry found, or pushes the chat. *)
Theorem X12_upsert_then_lookup (chat : Partial.t) (st : ChatState) :
  (truthy_ostr (Partial.chatId chat) = false -> upsert chat st = Some st)
  /\ (forall id, Partial.chatId chat = Some id -> id <> ""%string ->
      (forall idx entry, findIdx st id = Some idx -> chatList st !! idx = Some entry ->
         exists st', upsert chat st = Some st'
           /\ chatList st' = <[idx := Object_assign entry chat]> (chatList st)
           /\ findIdx st' id = Some idx
           /\ getChat id st' = Some (Object_assign entry chat))
      /\ (forall pushed, findIdx st id = None -> asChats chat = Some pushed ->
          exists st', upsert chat st = Some st'
            /\ chatList st' = chatList st ++ [pushed]
            /\ findIdx st' id = Some (length (chatList st))
            /\ getChat id st' = Some pushed)
      /\ (forall st', upsert chat st = Some st' ->
            (forall other, other <> id -> getChat other st' = getChat other st)
            /\ (NoDup (chatIds st) -> NoDup (chatIds st'))
            /\ upsert chat st' = Some st'))
  /\ (forall c,
        chatList <$> upsert (whole c) st
        = Some (if negb (truthy_str (chatId c)) then chatList st
                else match findIdx st (chatId c) with
                     | Some idx => <[idx := c]> (chatList st)
                     | None => chatList st ++ [c]
                     end)).
Proof.
  split; [|split].
  3:{ intros c. rewrite upsert_whole_cases. cbn [fmap option_fmap option_map].
      destruct (negb (truthy_str (chatId c))); [reflexivity|].
      destruct (findIdx st (chatId c)); reflexivity. }
  { unfold upsert, truthy_ostr. destruct (Partial.chatId chat) as [id|]; [|reflexivity].
    intros ->. reflexivity. }
  intros id Hchat Hid.
  assert (Hkey : forall entry, chatId (Object_assign entry chat) = id).
  { intros entry. unfold Object_assign. cbn [chatId]. rewrite Hchat. reflexivity. }
  assert (Hfound : forall idx entry,
            findIdx st id = Some idx -> chatList st !! idx = Some entry ->
            upsert chat st
            = Some (set_chatList (<[idx := Object_assign entry chat]> (chatList st)) st)
            /\ chatId entry = id).
  { intros idx entry Hidx Hentry. rewrite (upsert_with_id chat id st Hchat Hid), Hidx.
    rewrite (alter_found _ _ _ entry Hentry). split; [reflexivity|].
    apply findIdx_found in Hidx. destruct Hidx as [_ Hidx].
    apply findIndex_Some in Hidx. destruct Hidx as (x & Hx & Hkeyx).
    rewrite Hentry in Hx. injection Hx as <-. apply String.eqb_eq. exact Hkeyx. }
  assert (Hnew : forall pushed,
            findIdx st id = None -> asChats chat = Some pushed ->
            upsert chat st = Some (set_chatList (chatList st ++ [pushed]) st)
            /\ chatId pushed = id).
  { intros pushed Hidx Hpushed. rewrite (upsert_with_id chat id st Hchat Hid), Hidx, Hpushed.
    split; [reflexivity|]. apply asChats_chatId in Hpushed. congruence. }
  split; [|split].
  - intros idx entry Hidx Hentry. destruct (Hfound idx entry Hidx Hentry) as [Hup _].
    eexists. split; [exact Hup|]. cbn [set_chatList chatList]. split; [reflexivity|].
    assert (Hlook : findIndex (fun c => String.eqb (chatId c) id)
                      (<[idx := Object_assign entry chat]> (chatList st)) = Some idx).
    { apply findIndex_insert.
      - apply findIdx_found in Hidx. apply Hidx.
      - rewrite Hkey. apply String.eqb_refl. }
    split.
    + rewrite findIdx_eq by exact Hid. exact Hlook.
    + unfold getChat. rewrite find_findIndex. cbn [set_chatList chatList]. rewrite Hlook.
      cbn. apply list_lookup_insert_eq. eapply lookup_lt_Some. exact Hentry.
  - intros pushed Hidx Hpushed.
    destruct (Hnew pushed Hidx Hpushed) as [Hup Hpid].
    eexists. split; [exact Hup|]. cbn [set_chatList chatList]. split; [reflexivity|].
    assert (Hlook : findIndex (fun c => String.eqb (chatId c) id)
                      (chatList st ++ [pushed]) = Some (length (chatList st))).
    { apply findIndex_app_new.
      - rewrite <- (findIdx_eq st id Hid). exact Hidx.
      - rewrite Hpid. apply String.eqb_refl. }
    split.
    + rewrite findIdx_eq by exact Hid. exact Hlook.
    + unfold getChat. rewrite find_findIndex. cbn [set_chatList chatList]. rewrite Hlook.
      cbn. rewrite lookup_app_r by lia. rewrite Nat.sub_diag. reflexivity.
  - intros st' Hup.
    destruct (findIdx st id) as [idx|] eqn:Hidx.
    + pose proof Hidx as Hidx'. apply findIdx_found in Hidx'. destruct Hidx' as [_ Hidx'].
      apply findIndex_Some in Hidx'. destruct Hidx' as (entry & Hentry & _).
      destruct (Hfound idx entry eq_refl Hentry) as [Hup' Hentryid].
      rewrite Hup' in Hup. injection Hup as <-.
      split; [|split].
      * intros other Hne. unfold getChat. cbn [set_chatList chatList].
        assert (Hother : String.eqb id other = false)
          by (apply String.eqb_neq; congruence).
        apply (find_insert_other _ _ idx entry _ Hentry).
        -- rewrite Hentryid. exact Hother.
        -- rewrite Hkey. exact Hother.
      * unfold chatIds. cbn [set_chatList chatList].
        rewrite (NoDup_insert_same_key _ idx entry _ Hentry) by (rewrite Hkey; congruence).
        tauto.
      * rewrite (upsert_with_id chat id _ Hchat Hid).
        assert (Hlook : findIdx (set_chatList (<[idx := Object_assign entry chat]> (chatList st)) st) id
                        = Some idx).
        { rewrite findIdx_eq by exact Hid. cbn [set_chatList chatList].
          apply findIndex_insert.
          - rewrite <- (findIdx_eq st id Hid). exact Hidx.
          - rewrite Hkey. apply String.eqb_refl. }
        rewrite Hlook. cbn [set_chatList chatList].
        assert (Hat : <[idx := Object_assign entry chat]> (chatList st) !! idx
                      = Some (Object_assign entry chat)).
        { apply list_lookup_insert_eq. eapply lookup_lt_Some. exact Hentry. }
        rewrite (alter_found _ _ _ _ Hat), Object_assign_again.
        rewrite list_insert_insert_eq. reflexivity.
    + destruct (asChats chat) as [pushed|] eqn:Hpushed.
      2:{ rewrite (upsert_with_id chat id st Hchat Hid), Hidx, Hpushed in Hup.
          discriminate Hup. }
      destruct (Hnew pushed eq_refl eq_refl) as [Hup' Hpid].
      rewrite Hup' in Hup. injection Hup as <-.
      assert (Hnone : findIndex (fun c => String.eqb (chatId c) id) (chatList st) = None).
      { rewrite <- (findIdx_eq st id Hid). exact Hidx. }
      split; [|split].
      * intros other Hne. unfold getChat. cbn [set_chatList chatList].
        apply find_app_other. rewrite Hpid. apply String.eqb_neq. congruence.
      * unfold chatIds. cbn [set_chatList chatList].
        intros Hnodup. rewrite map_app. cbn [List.map].
        apply NoDup_app. split; [exact Hnodup|]. split; [|apply NoDup_singleton].
        intros k Hin Hsingle. apply list_elem_of_singleton in Hsingle. subst k.
        apply list_elem_of_In, in_map_iff in Hin. destruct Hin as (c & Hc & Hin).
        pose proof (proj1 (findIndex_None _ _) Hnone c Hin) as Hfalse.
        cbv beta in Hfalse. rewrite Hc, Hpid, String.eqb_refl in Hfalse. discriminate.
      * rewrite (upsert_with_id chat id _ Hchat Hid).
        assert (Hlook : findIdx (set_chatList (chatList st ++ [pushed]) st) id
                        = Some (length (chatList st))).
        { rewrite findIdx_eq by exact Hid. cbn [set_chatList chatList].
          apply findIndex_app_new; [exact Hnone | rewrite Hpid; apply String.eqb_refl]. }
        rewrite Hlook. cbn [set_chatList chatList].
        assert (Hat : (chatList st ++ [pushed]) !! length (chatList st) = Some pushed).
        { rewrite lookup_app_r by lia. rewrite Nat.sub_diag. reflexivity. }
        rewrite (alter_found _ _ _ _ Hat), (Object_assign_pushed chat pushed Hpushed).
        rewrite list_insert_id by exact Hat. reflexivity.
Qed.

End ChatListProofs.

(** ** [createOrUpdate] keeps the chat list consistent *)
Section ReconcileInvariant.
Import Models ChatStore ChatOps Samples.
Variable t : string -> string.
Variable textReplaceMention : string -> string -> string.









End ReconcileInvariant.

(** ** Reading, pinning and muting a conversation *)
Section UnreadProofs.
Import Models ChatStore ChatOps Samples.

Lemma totalUnread_counted st : totalUnread st = sumZ (List.map counted (chatList st)).
Proof.
  unfold totalUnread. rewrite totalUnread_fold. rewrite Z.add_0_l.
  induction (chatList st) as [|c l IH]; [reflexivity|].
  cbn [List.filter List.map]. unfold notMuted at 1, counted at 1.
  unfold sumZ in *.
  destruct (isMute c) as [[| |]|]; cbn [List.map fold_right]; rewrite <- IH; reflexivity.
Qed.

Lemma sumZ_Permutation l1 l2 : Permutation l1 l2 -> sumZ l1 = sumZ l2.
Proof. induction 1; simpl; lia. Qed.

Lemma sumZ_counted_alter (f : Chats -> Chats) (l : list Chats) i old :
  l !! i = Some old ->
  sumZ (List.map counted (alter f i l))
  = sumZ (List.map counted l) - counted old + counted (f old).
Proof.
  revert i. induction l as [|c l IH]; intros i; [discriminate|].
  destruct i as [|i].
  - intros [= ->]. change (alter f 0%nat (old :: l)) with (f old :: l). simpl. lia.
  - intros Hi. change (alter f (S i) (c :: l)) with (c :: alter f i l).
    simpl. rewrite (IH i Hi). lia.
Qed.

Lemma findIdx_entry st id idx :
  findIdx st id = Some idx -> exists entry, chatList st !! idx = Some entry /\ chatId entry = id.
Proof. apply findChatIndex_Some. Qed.

(** X14: [updateRead] on a chat of the list sets its [unread] to 0, lowers
    [totalUnread] by what the chat counted for, and queues one update which,
    once run, sets [unread] to 0 on the persisted row. *)
Theorem X14_updateRead_lowers_total (chat : Chats) (st : ChatState) (idx : nat) :
  findIdx st (chatId chat) = Some idx ->
  exists entry,
    chatList st !! idx = Some entry
    /\ chatList (updateRead chat None st) !! idx = Some (set_unread (Some 0) entry)
    /\ totalUnread (updateRead chat None st) = totalUnread st - counted entry
    /\ pending (updateRead chat None st) = pending st ++ [UpdateUnread (chatId chat) 0]
    /\ (forall db row,
          chatRows db !! chatId chat = Some row ->
          chatRows (runTask db (UpdateUnread (chatId chat) 0)) !! chatId chat
          = Some (set_unread (Some 0) row)).
Proof.
  intros Hidx. destruct (findIdx_entry st _ idx Hidx) as (entry & Hentry & Hid).
  exists entry. unfold updateRead. rewrite Hidx. cbn [default].
  split; [exact Hentry|]. split; [|split; [|split]].
  - cbn [chatList addTasks set_chatList]. rewrite list_lookup_alter_eq, Hentry. reflexivity.
  - rewrite !totalUnread_counted. cbn [chatList addTasks set_chatList].
    rewrite (sumZ_counted_alter _ _ idx entry Hentry).
    assert (counted (set_unread (Some 0) entry) = 0) as ->; [|lia].
    unfold counted. cbn. destruct (isMute entry) as [[| |]|]; reflexivity.
  - reflexivity.
  - intros db row Hrow. cbn [runTask chatRows]. rewrite lookup_alter_eq, Hrow. reflexivity.
Qed.

End UnreadProofs.

Section OpenConversation.
Import Models ChatStore ChatOps Samples.
Variable t : string -> string.
Variable textReplaceMention : string -> string -> string.

Lemma findIndex_NoDup (l : list Chats) i entry :
  NoDup (List.map chatId l) -> l !! i = Some entry ->
  findIndex (fun c => String.eqb (chatId c) (chatId entry)) l = Some i.
Proof.
  revert i. induction l as [|c l IH]; intros i Hnodup; [discriminate|].
  cbn [List.map] in Hnodup. apply NoDup_cons in Hnodup. destruct Hnodup as [Hnotin Hnodup].
  destruct i as [|i]; simpl.
  - intros [= ->]. rewrite String.eqb_refl. reflexivity.
  - intros Hi. destruct (String.eqb_spec (chatId c) (chatId entry)) as [Heq|Hne].
    + exfalso. apply Hnotin. rewrite Heq. apply list_elem_of_In, in_map.
      apply list_elem_of_In. eapply list_elem_of_lookup_2. exact Hi.
    + rewrite (IH i Hnodup Hi). reflexivity.
Qed.

(** X15: [changeChatByTarget] on a target that the list holds (the ids of the
    list being distinct) makes that entry, with [unread] 0, the current chat;
    the list changes in the [unread] of that entry only, [totalUnread] drops
    by what the entry counted for, and one update is queued. *)
Theorem X15_open_existing_conversation (now : Z) (targetId : string) (type : Z)
    (created : option Chats) (st : ChatState) (existIdx : nat) (entry : Chats) :
  NoDup (chatIds st) ->
  findIndex (fun c => String.eqb (toId c) targetId && (chatType c =? type)) (chatList st)
  = Some existIdx ->
  chatList st !! existIdx = Some entry ->
  chatId entry <> ""%string ->
  let st' := changeChatByTarget t textReplaceMention now targetId type created st in
  currentChat st' = Some (set_unread (Some 0) entry)
  /\ toId <$> currentChat st' = Some targetId
  /\ chatList st' = alter (set_unread (Some 0)) existIdx (chatList st)
  /\ totalUnread st' = totalUnread st - counted entry
  /\ pending st' = pending st ++ [UpdateUnread (chatId entry) 0].
Proof.
  intros Hnodup Hfind Hentry Hid st'. subst st'. unfold changeChatByTarget.
  rewrite Hfind, Hentry.
  assert (Hidx : findIdx st (chatId entry) = Some existIdx).
  { rewrite (findIdx_eq st _ Hid). apply findIndex_NoDup; assumption. }
  unfold updateRead. rewrite Hidx. cbn [default chatList addTasks set_chatList
                                        set_currentChat currentChat pending].
  rewrite list_lookup_alter_eq, Hentry. cbn [fmap option_fmap option_map].
  split; [reflexivity|]. split; [|split; [reflexivity|split; [|reflexivity]]].
  - cbn [toId set_unread]. f_equal.
    apply findIndex_Some in Hfind. destruct Hfind as (x & Hx & Hp).
    rewrite Hentry in Hx. injection Hx as <-.
    apply andb_true_iff in Hp. destruct Hp as [Hp _]. apply String.eqb_eq. exact Hp.
  - rewrite !totalUnread_counted.
    cbn [chatList set_currentChat addTasks set_chatList]. unfold id.
    rewrite (sumZ_counted_alter _ _ existIdx entry Hentry).
    assert (counted (set_unread (Some 0) entry) = 0) as ->; [|lia].
    unfold counted. cbn. destruct (isMute entry) as [[| |]|]; reflexivity.
Qed.

End OpenConversation.

Section ToggleProofs.
Import Models ChatStore ChatOps Samples.

Lemma alter_insert_lookup {A} (f : A -> A) (l : list A) i x :
  l !! i = Some x -> alter f i l = <[i := f x]> l.
Proof.
  revert i. induction l as [|y l IH]; intros i; [discriminate|].
  destruct i as [|i].
  - intros [= ->]. reflexivity.
  - intros Hi. change (alter f (S i) (y :: l)) with (y :: alter f i l).
    rewrite (IH i Hi). reflexivity.
Qed.

(** X16: [togglePin] and [toggleMute] leave alone a chat that is not in the
    list.  On one that is, they set [isTop] (or [isMute]) to 0 when it is 1
    and to 1 otherwise, on the entry and on the persisted row, and leave the
    list sorted and otherwise the same; pinning leaves [totalUnread] as it is,
    muting takes the count of the chat off it and unmuting adds the [unread]
    of the chat to it. *)
Theorem X16_toggle_pin_and_mute (chat : Chats) (st : ChatState) (db : Store) :
  (findIdx st (chatId chat) = None ->
   togglePin chat st db = (st, db) /\ toggleMute chat st db = (st, db))
  /\ (forall idx entry,
        findIdx st (chatId chat) = Some idx -> chatList st !! idx = Some entry ->
        let top := if bool_decide (isTop entry = Some 1) then 0 else 1 in
        let muted := if bool_decide (isMute entry = Some 1) then 0 else 1 in
        let pinned := fst (togglePin chat st db) in
        let silenced := fst (toggleMute chat st db) in
        Permutation (chatList pinned) (<[idx := set_isTop (Some top) entry]> (chatList st))
        /\ StronglySorted (notAfter compareChats) (chatList pinned)
        /\ totalUnread pinned = totalUnread st
        /\ chatRows (snd (togglePin chat st db))
           = alter (set_isTop (Some top)) (chatId chat) (chatRows db)
        /\ Permutation (chatList silenced)
             (<[idx := set_isMute (Some muted) entry]> (chatList st))
        /\ StronglySorted (notAfter compareChats) (chatList silenced)
        /\ totalUnread silenced
           = totalUnread st - counted entry
             + (if bool_decide (isMute entry = Some 1) then num_or (unread entry) 0 else 0)
        /\ chatRows (snd (toggleMute chat st db))
           = alter (set_isMute (Some muted)) (chatId chat) (chatRows db)).
Proof.
  split.
  { intros Hnone. unfold togglePin, toggleMute. rewrite Hnone. split; reflexivity. }
  intros idx entry Hidx Hentry top muted pinned silenced.
  subst pinned silenced. unfold togglePin, toggleMute, sortList. rewrite Hidx, Hentry.
  cbn [fst snd chatList set_chatList].
  rewrite !(alter_insert_lookup _ _ idx entry Hentry).
  fold top muted.
  split; [symmetry; apply Array_sort_Permutation|].
  split; [apply Array_sort_sorted; [apply compareChats_total | apply compareChats_trans]|].
  split.
  { rewrite !totalUnread_counted. cbn [chatList set_chatList].
    rewrite <- (sumZ_Permutation _ _
                  (Permutation_map counted (Array_sort_Permutation compareChats _))).
    rewrite <- (alter_insert_lookup (fun _ => set_isTop (Some top) entry) _ idx entry Hentry).
    rewrite (sumZ_counted_alter _ _ idx entry Hentry).
    assert (counted (set_isTop (Some top) entry) = counted entry) as -> by reflexivity.
    lia. }
  split; [reflexivity|].
  split; [symmetry; apply Array_sort_Permutation|].
  split; [apply Array_sort_sorted; [apply compareChats_total | apply compareChats_trans]|].
  split; [|reflexivity].
  rewrite !totalUnread_counted. cbn [chatList set_chatList].
  rewrite <- (sumZ_Permutation _ _
                (Permutation_map counted (Array_sort_Permutation compareChats _))).
  rewrite <- (alter_insert_lookup (fun _ => set_isMute (Some muted) entry) _ idx entry Hentry).
  rewrite (sumZ_counted_alter _ _ idx entry Hentry).
  subst muted. unfold counted. cbn [isMute set_isMute unread].
  case_bool_decide as Hm; [rewrite Hm; lia|].
  destruct (isMute entry) as [[|p|p]|]; try lia; cbn.
Qed.

End ToggleProofs.

(** ** Sets kept as arrays: [ignoreAll] *)
Section IgnoreListProofs.
Import Models ChatStore ChatOps Samples Collected.

Lemma memberOf_In s l : memberOf s l = true <-> In s l.
Proof.
  unfold memberOf. rewrite existsb_exists. split.
  - intros (x & Hx & Heq). apply String.eqb_eq in Heq. subst x. exact Hx.
  - intros Hin. exists s. split; [exact Hin | apply String.eqb_refl].
Qed.

Lemma setAdd_In ids x y : In y (setAdd ids x) <-> In y ids \/ y = x.
Proof.
  unfold setAdd. destruct (memberOf x ids) eqn:Hx.
  - apply memberOf_In in Hx. split; [tauto|]. intros [H| ->]; assumption.
  - rewrite in_app_iff. simpl. split; intros [H|H]; try tauto.
    + destruct H as [<-|[]]. right. reflexivity.
    + right. left. symmetry. exact H.
Qed.

Lemma setAdd_NoDup ids x : NoDup ids -> NoDup (setAdd ids x).
Proof.
  intros Hnodup. unfold setAdd. destruct (memberOf x ids) eqn:Hx; [exact Hnodup|].
  apply NoDup_app. split; [exact Hnodup|]. split; [|apply NoDup_singleton].
  intros y Hy Hsingle. apply list_elem_of_singleton in Hsingle. subst y.
  apply list_elem_of_In, memberOf_In in Hy. congruence.
Qed.

Lemma setAdd_prefix ids x : exists more, setAdd ids x = ids ++ more.
Proof.
  unfold setAdd. destruct (memberOf x ids).
  - exists []. symmetry. apply app_nil_r.
  - eexists. reflexivity.
Qed.

Section Folded.
Context {A : Type}.
Variable key : A -> string.
Variable keep : A -> bool.

Lemma addKeys_cons a l ids :
  addKeys key keep (a :: l) ids
  = addKeys key keep l (if keep a then setAdd ids (key a) else ids).
Proof. reflexivity. Qed.

Lemma addAll_In l ids y :
  In y (addKeys key keep l ids)
  <-> In y ids \/ exists a, In a l /\ keep a = true /\ key a = y.
Proof.
  revert ids. induction l as [|a l IH]; intros ids.
  - simpl. split; [tauto|]. intros [H|(a & [] & _)]. exact H.
  - rewrite addKeys_cons, IH. simpl. destruct (keep a) eqn:Ha.
    + rewrite setAdd_In. split.
      * intros [[H| ->]|(b & Hb & Hk & Hy)]; eauto 7.
      * intros [H|(b & [<-|Hb] & Hk & Hy)]; eauto 7.
    + split.
      * intros [H|(b & Hb & Hk & Hy)]; eauto 7.
      * intros [H|(b & [<-|Hb] & Hk & Hy)]; eauto 7. congruence.
Qed.

Lemma addAll_NoDup l ids : NoDup ids -> NoDup (addKeys key keep l ids).
Proof.
  revert ids. induction l as [|a l IH]; intros ids Hnodup; [exact Hnodup|].
  rewrite addKeys_cons. apply IH.
  destruct (keep a); [apply setAdd_NoDup|]; exact Hnodup.
Qed.

Lemma addAll_prefix l ids : exists more, addKeys key keep l ids = ids ++ more.
Proof.
  revert ids. induction l as [|a l IH]; intros ids.
  - exists []. symmetry. apply app_nil_r.
  - rewrite addKeys_cons.
    destruct (IH (if keep a then setAdd ids (key a) else ids)) as [more Hmore].
    rewrite Hmore. destruct (keep a); [|eauto].
    destruct (setAdd_prefix ids (key a)) as [m1 ->]. rewrite <- app_assoc. eauto.
Qed.

Lemma addAll_known l ids :
  (forall a, In a l -> keep a = true -> In (key a) ids) -> addKeys key keep l ids = ids.
Proof.
  induction l as [|a l IH]; intros Hknown; [reflexivity|].
  rewrite addKeys_cons.
  assert ((if keep a then setAdd ids (key a) else ids) = ids) as ->.
  { destruct (keep a) eqn:Ha; [|reflexivity].
    unfold setAdd. rewrite (proj2 (memberOf_In _ _)); [reflexivity|].
    apply Hknown; [left; reflexivity | exact Ha]. }
  apply IH. intros b Hb. apply Hknown. right. exact Hb.
Qed.

End Folded.

(** X17: [ignoreAll] extends [ignoreList], keeping what it holds, by the
    [chatId]s of the chats with unread messages: an id is in the list
    afterwards exactly when it was there or is the id of such a chat; no id is
    added twice; and a second call changes nothing. *)
Theorem X17_ignoreAll_collects_unread (st : ChatState) (ignoreList : list string) :
  let ignored := ignoreAll st ignoreList in
  (exists more, ignored = ignoreList ++ more)
  /\ (forall id, In id ignored
                 <-> In id ignoreList
                     \/ exists c n, In c (chatList st) /\ unread c = Some n /\ 0 < n
                                    /\ chatId c = id)
  /\ (NoDup ignoreList -> NoDup ignored)
  /\ ignoreAll st ignored = ignored.
Proof.
  intros ignored. subst ignored. unfold ignoreAll.
  change (fold_left _ (unreadChats st))
    with (addKeys chatId (fun _ : Chats => true) (unreadChats st)).
  split; [apply addAll_prefix|]. split; [|split].
  - intros id. rewrite addAll_In. unfold unreadChats.
    split; (intros [H|H]; [left; exact H | right]).
    + destruct H as (c & Hc & _ & Hid). apply filter_In in Hc. destruct Hc as [Hc Hu].
      destruct (unread c) as [n|] eqn:Hn; [|discriminate].
      exists c, n. apply Z.ltb_lt in Hu. auto.
    + destruct H as (c & n & Hc & Hn & Hpos & Hid). exists c.
      split; [|split; [reflexivity | exact Hid]].
      apply filter_In. split; [exact Hc|]. rewrite Hn. apply Z.ltb_lt. exact Hpos.
  - apply addAll_NoDup.
  - apply addAll_known. intros c Hc _. apply addAll_In. right. exists c. auto.
Qed.

End IgnoreListProofs.

Section ChatOpsExamples.
Import Models ChatStore ChatOps Samples MoreSamples.

Lemma NoDup_stateWithMuted : NoDup (chatIds stateWithMuted).
Proof.
  apply NoDup_cons. split; [|apply NoDup_singleton].
  intros Hin. apply list_elem_of_singleton in Hin. discriminate Hin.
Qed.

(** The draft preview of the conversation with Lin: the entry takes the
    text and the time and keeps its name, its counter and its place. *)
Example upsert_merges_draft :
  chatList <$> upsert draftPreview stateWithMuted
  = Some [ {| chatId := "c1"; toId := "u2"; chatType := 1000; name := "Lin";
              message := "[draft] on my way"; messageTime := Some 5000;
              sequence := Some 10; unread := Some 3; isTop := Some 0;
              isMute := Some 0 |};
           mutedChat ].
Proof. reflexivity. Qed.


(** The same message when the request to the server ends in a value that
    cannot be shown as an error: the promise of [exec] rejects, and the
    action stops with the list as it was and [loading] still true. *)
Example createOrUpdate_stops_loading :
  handleCreateOrUpdateChat translate keepHtml 3000 (Returned (Some []))
    (Thrown (ErrorHandler.typeError "Cannot read properties of undefined (reading 'toLowerCase')"))
    (Some ownMessage) stateWithMuted
  = (Thrown (ErrorHandler.typeError "Cannot read properties of undefined (reading 'toLowerCase')"),
     set_loading true stateWithMuted).
Proof. reflexivity. Qed.

(** Reading the conversation with Lin takes its three messages off the
    total. *)
Lemma X14_updateRead_lowers_total_witness :
  exists entry,
    chatList stateWithMuted !! 0%nat = Some entry
    /\ totalUnread (updateRead chatWithLin None stateWithMuted)
       = totalUnread stateWithMuted - counted entry.
Proof.
  destruct (X14_updateRead_lowers_total chatWithLin stateWithMuted 0 eq_refl)
    as (entry & Hentry & _ & Htotal & _).
  exists entry. split; assumption.
Defined.

(** Opening the conversation with user [u2], which is in the list. *)
Lemma X15_open_existing_conversation_witness :
  currentChat (changeChatByTarget translate keepHtml 3000 "u2" 1000 None stateWithMuted)
  = Some (set_unread (Some 0) chatWithLin).
Proof.
  destruct (X15_open_existing_conversation translate keepHtml 3000 "u2" 1000 None
              stateWithMuted 0 chatWithLin NoDup_stateWithMuted eq_refl eq_refl
              ltac:(discriminate)) as (Hcurrent & _).
  exact Hcurrent.
Defined.

End ChatOpsExamples.

(** ** A stored body reads back ([stringifyBody], [parseBody]) *)
Section CodecTextProofs.
Import Models ChatStore Samples.

Lemma trimStart_step c1 c2 c3 r :
  trimStart (String c1 (String c2 (String c3 r)))
  = if isSpace c1 then trimStart (String c2 (String c3 r))
    else if isSpace2 c1 c2 then trimStart (String c3 r)
    else if isSpace3 c1 c2 c3 then trimStart r
    else String c1 (String c2 (String c3 r)).
Proof. reflexivity. Qed.

Lemma isSpace2_left c1 c2 : (nat_of_ascii c1 < 128)%nat -> isSpace2 c1 c2 = false.
Proof.
  intros H. unfold isSpace2.
  destruct (Nat.eqb_spec (nat_of_ascii c1) 194); [lia | reflexivity].
Qed.

Lemma isSpace2_right c1 c2 : (nat_of_ascii c2 < 128)%nat -> isSpace2 c1 c2 = false.
Proof.
  intros H. unfold isSpace2.
  destruct (Nat.eqb_spec (nat_of_ascii c2) 160); [lia | apply andb_false_r].
Qed.

Lemma isSpace3_left c1 c2 c3 : (nat_of_ascii c1 < 128)%nat -> isSpace3 c1 c2 c3 = false.
Proof.
  intros H. unfold isSpace3.
  assert (E : forall k, (128 <= k)%nat -> (nat_of_ascii c1 =? k)%nat = false)
    by (intros k Hk; apply Nat.eqb_neq; lia).
  rewrite !E by lia. reflexivity.
Qed.

Lemma isSpace3_right c1 c2 c3 : (nat_of_ascii c3 < 128)%nat -> isSpace3 c1 c2 c3 = false.
Proof.
  intros H. unfold isSpace3.
  assert (E : forall k, (128 <= k)%nat -> (nat_of_ascii c3 =? k)%nat = false)
    by (intros k Hk; apply Nat.eqb_neq; lia).
  assert (E' : (128 <=? nat_of_ascii c3)%nat = false) by (apply Nat.leb_gt; lia).
  rewrite !E, E' by lia. cbn [andb orb]. rewrite !andb_false_r. reflexivity.
Qed.

(** A string that begins with a visible ASCII character has no white space
    in front. *)
Lemma trimStart_visible c s :
  isSpace c = false -> (nat_of_ascii c < 128)%nat -> trimStart (String c s) = String c s.
Proof.
  intros Hc Hn. cbn [trimStart]. rewrite Hc.
  destruct s as [|c2 [|c3 r3]]; [reflexivity | |].
  - rewrite (isSpace2_left c c2 Hn). reflexivity.
  - rewrite (isSpace2_left c c2 Hn), (isSpace3_left c c2 c3 Hn). reflexivity.
Qed.

(** A string that ends with a visible ASCII character is not white space
    only. *)
Lemma allSpace_last c s :
  isSpace c = false -> (nat_of_ascii c < 128)%nat -> allSpace (s ++ String c "") = false.
Proof.
  intros Hc Hn. unfold allSpace.
  assert (Hlen : forall n s, (String.length s <= n)%nat ->
                   trimStart (s ++ String c "") <> ""%string).
  { clear s. induction n as [|n IH]; intros s Hs.
    - destruct s; [|cbn [String.length] in Hs; lia].
      change (trimStart (String c "") <> ""%string).
      rewrite (trimStart_visible c "" Hc Hn). discriminate.
    - destruct s as [|c1 [|c2 [|c3 r3]]].
      + change (trimStart (String c "") <> ""%string).
        rewrite (trimStart_visible c "" Hc Hn). discriminate.
      + change (trimStart (String c1 (String c "")) <> ""%string).
        cbn [trimStart]. rewrite Hc, (isSpace2_right c1 c Hn).
        destruct (isSpace c1); discriminate.
      + change (trimStart (String c1 (String c2 (String c ""))) <> ""%string).
        cbn [trimStart]. rewrite Hc, (isSpace2_right c2 c Hn), (isSpace3_right c1 c2 c Hn).
        destruct (isSpace c1), (isSpace c2), (isSpace2 c1 c2); discriminate.
      + change (trimStart (String c1 (String c2 (String c3 (r3 ++ String c ""))))
                <> ""%string).
        cbn [String.length] in Hs.
        assert (H3 : trimStart (r3 ++ String c "") <> ""%string) by (apply IH; lia).
        assert (H2 : trimStart (String c3 (r3 ++ String c "")) <> ""%string)
          by (apply (IH (String c3 r3)); cbn [String.length]; lia).
        assert (H1 : trimStart (String c2 (String c3 (r3 ++ String c ""))) <> ""%string)
          by (apply (IH (String c2 (String c3 r3))); cbn [String.length]; lia).
        rewrite (trimStart_step c1 c2 c3).
        destruct (isSpace c1); [exact H1|].
        destruct (isSpace2 c1 c2); [exact H2|].
        destruct (isSpace3 c1 c2 c3); [exact H3 | discriminate]. }
  destruct (String.eqb_spec (trimStart (s ++ String c "")) "") as [E|E]; [|reflexivity].
  exfalso. exact (Hlen (String.length s) s (Nat.le_refl _) E).
Qed.

Lemma trimEnd_last s c :
  isSpace c = false -> (nat_of_ascii c < 128)%nat ->
  trimEnd (s ++ String c "") = (s ++ String c "")%string.
Proof.
  intros Hc Hn. induction s as [|d s IH].
  - pose proof (allSpace_last c "" Hc Hn) as E.
    change (allSpace (String c "") = false) in E.
    change (trimEnd (String c "") = String c "").
    cbn [trimEnd]. rewrite E. reflexivity.
  - pose proof (allSpace_last c (String d s) Hc Hn) as E.
    change (allSpace (String d (s ++ String c "")) = false) in E.
    change (String d s ++ String c "")%string with (String d (s ++ String c ""))%string.
    cbn [trimEnd]. rewrite E, IH. reflexivity.
Qed.

Lemma trim_visible c s d s' :
  isSpace c = false -> (nat_of_ascii c < 128)%nat ->
  isSpace d = false -> (nat_of_ascii d < 128)%nat ->
  String c s = (s' ++ String d "")%string -> trim (String c s) = String c s.
Proof.
  intros Hc Hcn Hd Hdn Heq. unfold trim. rewrite (trimStart_visible c s Hc Hcn), Heq.
  apply trimEnd_last; assumption.
Qed.

Lemma string_of_list_ascii_app l1 l2 :
  string_of_list_ascii (l1 ++ l2)
  = (string_of_list_ascii l1 ++ string_of_list_ascii l2)%string.
Proof. induction l1 as [|c l1 IH]; simpl; [reflexivity | rewrite IH; reflexivity]. Qed.

Lemma code_visible c :
  (33 <= JsonText.code c < 128)%nat -> isSpace c = false /\ (nat_of_ascii c < 128)%nat.
Proof.
  unfold JsonText.code. intros H. split; [|lia]. unfold isSpace.
  destruct (Nat.eqb_spec (nat_of_ascii c) 32); [lia|].
  destruct (Nat.leb_spec 9 (nat_of_ascii c)), (Nat.leb_spec (nat_of_ascii c) 13);
    simpl; try reflexivity; lia.
Qed.

Lemma isDigit_visible c :
  JsonText.isDigit c = true -> isSpace c = false /\ (nat_of_ascii c < 128)%nat.
Proof. intros H. apply isDigit_code in H. apply code_visible. lia. Qed.

Lemma number_last n :
  exists l c, list_ascii_of_string (string_of_Z n) = l ++ [c]
              /\ isSpace c = false /\ (nat_of_ascii c < 128)%nat.
Proof.
  unfold string_of_Z.
  assert (Hdigits : forall d, d <> Decimal.Nil ->
            exists l c, list_ascii_of_string (NilZero.string_of_uint d) = l ++ [c]
                        /\ isSpace c = false /\ (nat_of_ascii c < 128)%nat).
  { intros d Hd. destruct (uint_head d Hd) as (c0 & s0 & Hcs & _).
    assert (Hall : Forall (fun c => JsonText.isDigit c = true)
                     (list_ascii_of_string (NilZero.string_of_uint d))).
    { destruct d; try congruence; apply (digits_of_uint _). }
    destruct (exists_last (l := list_ascii_of_string (NilZero.string_of_uint d)))
      as (l & c & Hl); [rewrite Hcs; discriminate|].
    exists l, c. split; [exact Hl|]. apply isDigit_visible.
    rewrite Hl in Hall. apply Forall_app in Hall. destruct Hall as [_ Hc].
    apply Forall_inv in Hc. exact Hc. }
  destruct (Z_to_int_cases n) as (d & Hd & [E|E]); rewrite E; cbn [NilZero.string_of_int].
  - apply Hdigits. exact Hd.
  - destruct (Hdigits d Hd) as (l & c & Hl & Hc).
    exists ("-"%char :: l), c. cbn [list_ascii_of_string]. rewrite Hl. split; [reflexivity | exact Hc].
Qed.

Lemma render_last v :
  exists l c, JsonText.render v = l ++ [c]
              /\ isSpace c = false /\ (nat_of_ascii c < 128)%nat.
Proof.
  destruct v as [|[]|n|str|items|fields]; cbn [JsonText.render].
  - exists (list_ascii_of_string "nul"), "l"%char. split; [reflexivity | split; [reflexivity | vm_compute; lia]].
  - exists (list_ascii_of_string "tru"), "e"%char. split; [reflexivity | split; [reflexivity | vm_compute; lia]].
  - exists (list_ascii_of_string "fals"), "e"%char. split; [reflexivity | split; [reflexivity | vm_compute; lia]].
  - apply number_last.
  - unfold JsonText.quote. eexists (_ :: _), _.
    split; [reflexivity | split; [reflexivity | vm_compute; lia]].
  - eexists (_ :: _), _. split; [reflexivity | split; [reflexivity | vm_compute; lia]].
  - eexists (_ :: _), _. split; [reflexivity | split; [reflexivity | vm_compute; lia]].
Qed.

Lemma render_first v :
  exists c l, JsonText.render v = c :: l
              /\ isSpace c = false /\ (nat_of_ascii c < 128)%nat.
Proof.
  destruct v as [|[]|n|str|items|fields]; cbn [JsonText.render];
    try (eexists _, _; split; [reflexivity | split; [reflexivity | vm_compute; lia]]).
  destruct (number_head n) as (c & s & Hcs & Hc). exists c, s. split; [exact Hcs|].
  apply code_visible. lia.
Qed.

Lemma trim_stringify v : trim (JsonText.stringify v) = JsonText.stringify v.
Proof.
  unfold JsonText.stringify.
  destruct (render_first v) as (c & l & Hcl & Hc & Hcn).
  destruct (render_last v) as (l' & d & Hld & Hd & Hdn).
  rewrite Hcl. cbn [string_of_list_ascii].
  apply (trim_visible c _ d (string_of_list_ascii l') Hc Hcn Hd Hdn).
  change (String c (string_of_list_ascii l)) with (string_of_list_ascii (c :: l)).
  rewrite <- Hcl, Hld, string_of_list_ascii_app. reflexivity.
Qed.

End CodecTextProofs.

Section BodyRoundTripProofs.
Import Models ChatStore Samples.
Context {C : Codec}.

(** X18: what [stringifyBody] stores, [parseBody] reads back as the body
    itself: [parseBody(stringifyBody(raw))] is [parseBody(raw)], for a codec
    that parses what it prints and that, on the strings it cannot parse,
    cannot parse their trimmed form either. *)
Theorem X18_stored_body_reads_back (raw : option jsval) :
  (forall v, JSON_parse (trim (JSON_stringify v)) = Some v) ->
  JSON_parse (trim "{}") = Some (JObj []) ->
  (forall s, raw = Some (JStr s) -> JSON_parse s = None -> JSON_parse (trim s) = None) ->
  parseBody (Some (JStr (stringifyBody raw))) = parseBody raw.
Proof.
  intros Hback Hempty Hstring.
  assert (Hwritten : forall v,
            parseBody (Some (JStr (JSON_stringify v)))
            = Returned (if typeof_object v && truthy v
                        then (if isArray v then JObj [("parts"%string, v)] else v)
                        else JObj [("text"%string, JStr (String_of v))])).
  { intros v. unfold parseBody, JSON_parse_call. cbn [typeof_object].
    rewrite Hback. reflexivity. }
  destruct raw as [[|b|n|s|items|fields]|]; cbn [stringifyBody].
  - unfold parseBody at 1, JSON_parse_call. cbn [typeof_object]. rewrite Hempty. reflexivity.
  - rewrite Hwritten. reflexivity.
  - rewrite Hwritten. reflexivity.
  - destruct (JSON_parse s) eqn:Hs; [reflexivity|].
    rewrite Hwritten. cbn [typeof_object truthy andb isArray].
    unfold parseBody, JSON_parse_call. cbn [typeof_object].
    rewrite (Hstring s eq_refl Hs). reflexivity.
  - rewrite Hwritten. reflexivity.
  - rewrite Hwritten. reflexivity.
  - unfold parseBody at 1, JSON_parse_call. cbn [typeof_object]. rewrite Hempty. reflexivity.
Qed.

End BodyRoundTripProofs.

Section BodyRoundTripExamples.
Import Models ChatStore Samples.

(** On the codec over byte strings: a text that is not JSON is stored
    wrapped and read back as the text it was. *)
Lemma X18_stored_body_reads_back_witness :
  @parseBody JsonText.codec
    (Some (JStr (@stringifyBody JsonText.codec (Some (JStr greeting)))))
  = @parseBody JsonText.codec (Some (JStr greeting)).
Proof.
  apply (@X18_stored_body_reads_back JsonText.codec).
  - intros v. cbn [JSON_parse JSON_stringify JsonText.codec].
    rewrite trim_stringify. apply parse_stringify.
  - reflexivity.
  - intros s [= <-] _. reflexivity.
Defined.

(** The hypothesis on strings is needed: [stringifyBody] parses the string as
    it is, [parseBody] parses it trimmed.  A vertical tab before [{}] is no
    JSON white space but is trimmed, so the string is stored wrapped as text
    although [parseBody] reads it as the empty object. *)
Example stored_text_differs :
  let raw := String (ascii_of_nat 11) "{}" in
  @parseBody JsonText.codec (Some (JStr raw)) = Returned (JObj [])
  /\ @parseBody JsonText.codec (Some (JStr (@stringifyBody JsonText.codec (Some (JStr raw)))))
     = Returned (JObj [("text"%string, JStr raw)]).
Proof. split; reflexivity. Qed.

End BodyRoundTripExamples.

(** ** Decoded bodies are in normal form ([createMessageBody]) *)
Section BodyDecoderProofs.
Import Models Samples.

Lemma assoc_app key l1 l2 :
  assoc key (l1 ++ l2) = match assoc key l1 with Some v => Some v | None => assoc key l2 end.
Proof.
  induction l1 as [|[k v] l1 IH]; [reflexivity|].
  cbn [app assoc]. destruct (String.eqb k key); [reflexivity | exact IH].
Qed.

(** A property that [copyProps] copied is found among the copies. *)
Lemma assoc_copyProps init keys key :
  assoc key (copyProps init keys)
  = if existsb (String.eqb key) keys then get init key else None.
Proof.
  unfold copyProps. induction keys as [|k keys IH]; [reflexivity|].
  cbn [omap list_omap existsb]. rewrite String.eqb_sym.
  destruct (get init k) as [v|] eqn:Hk.
  - cbn [assoc]. destruct (String.eqb_spec k key) as [<- | Hne]; [symmetry; exact Hk|].
    cbn [orb]. exact IH.
  - rewrite IH. destruct (String.eqb_spec k key) as [<- | Hne]; cbn [orb]; [|reflexivity].
    rewrite Hk. destruct (existsb _ keys); reflexivity.
Qed.

Lemma copyProps_ext init init' keys :
  (forall k, In k keys -> get init' k = get init k) ->
  copyProps init' keys = copyProps init keys.
Proof.
  unfold copyProps. induction keys as [|k keys IH]; intros Hsame; [reflexivity|].
  cbn [omap list_omap]. rewrite (Hsame k (or_introl eq_refl)).
  rewrite IH by (intros k' Hk'; apply Hsame; right; exact Hk'). reflexivity.
Qed.

(** The properties copied, with others after them that bear other names,
    are copied again as they are. *)
Lemma copyProps_again init keys rest :
  (forall k, In k keys -> assoc k rest = None) ->
  copyProps (JObj (copyProps init keys ++ rest)) keys = copyProps init keys.
Proof.
  intros Hrest. apply copyProps_ext. intros k Hk. cbn [get].
  rewrite assoc_app, assoc_copyProps.
  assert (existsb (String.eqb k) keys = true) as ->.
  { apply existsb_exists. exists k. split; [exact Hk | apply String.eqb_refl]. }
  rewrite (Hrest k Hk). destruct (get init k); reflexivity.
Qed.

Lemma filter_filter {A} (p : A -> bool) l : List.filter p (List.filter p l) = List.filter p l.
Proof.
  induction l as [|x l IH]; [reflexivity|].
  cbn [List.filter]. destruct (p x) eqn:Hx; [|exact IH].
  cbn [List.filter]. rewrite Hx, IH. reflexivity.
Qed.

Lemma String_of_JStr l : List.map String_of (List.map JStr l) = l.
Proof. induction l as [|s l IH]; [reflexivity|]. cbn [List.map String_of]. rewrite IH. reflexivity. Qed.

(** Each constructor, given the properties of a body it built, builds that
    body. *)
Lemma construct_again (C : BodyClass.t) (init : option jsval) (b : MessageBody) :
  construct C init = Returned b -> construct C (Some (JObj (props b))) = Returned b.
Proof.
  assert (Hplain : forall keys i,
             copyProps (JObj (copyProps i keys)) keys = copyProps i keys).
  { intros keys i. rewrite <- (app_nil_r (copyProps i keys)) at 1.
    apply copyProps_again. reflexivity. }
  enough (Hall : match construct C init with
                 | Returned built => construct C (Some (JObj (props built))) = Returned built
                 | Thrown _ => True
                 end).
  { intros Hb. rewrite Hb in Hall. exact Hall. }
  destruct C; destruct init as [[| | | | |]|]; unfold construct; lazy beta iota zeta;
    try exact I; unfold props; lazy beta iota; rewrite ?Hplain; try reflexivity.
  all: try (cbn [get assoc String.eqb Ascii.eqb Bool.eqb];
            destruct (assoc "parts" fields) as [[| | | | |]|];
            destruct (assoc "images" fields) as [[| | | | |]|];
            destruct (assoc "videos" fields) as [[| | | | |]|]; reflexivity).
  rewrite copyProps_again
    by (intros k [<- | [<- | []]]; reflexivity).
  cbn [get]. rewrite !assoc_app, !assoc_copyProps.
  cbn [existsb String.eqb Ascii.eqb Bool.eqb orb assoc].
  destruct (assoc "mentionedUserIds" fields) as [[| | | |l|]|]; try reflexivity.
  rewrite String_of_JStr, filter_filter. reflexivity.
Qed.

(** X30: a body that [createMessageBody] has decoded is of the class that the
    content type selects, and is in normal form: its own properties, given
    back as an object or as the JSON text of that object under the same
    content type, decode to the same body; this for a codec that parses what
    it prints. *)
Theorem X30_decoded_body_is_normal `{Codec} (T : MessageType.codes) (code : Z)
    (raw : option jsval) (b : MessageBody) :
  (forall v, JSON_parse (JSON_stringify v) = Some v) ->
  createMessageBody T raw code = Returned b ->
  bodyClassOf T code = Some (bodyClass b)
  /\ createMessageBody T (Some (JObj (props b))) code = Returned b
  /\ createMessageBody T (Some (JStr (JSON_stringify (JObj (props b))))) code = Returned b.
Proof.
  intros Hback Hb. unfold createMessageBody in *.
  destruct (bodyClassOf T code) as [C|] eqn:HC.
  2: { destruct raw as [[| | |s| |]|]; cbn [bind] in Hb; try discriminate Hb.
       unfold JSON_parse_call in Hb. destruct (JSON_parse s); discriminate Hb. }
  assert (Hbuilt : exists init, construct C init = Returned b).
  { destruct raw as [[| | |s| |]|]; cbn [bind] in Hb; eauto.
    unfold JSON_parse_call in Hb. destruct (JSON_parse s); cbn in Hb; [eauto | discriminate Hb]. }
  destruct Hbuilt as [init Hinit].
  assert (Hclass : bodyClass b = C).
  { destruct C; destruct init as [[| | | | |]|]; unfold construct in Hinit;
      lazy beta iota zeta in Hinit; first [discriminate Hinit | injection Hinit as <-; reflexivity]. }
  split; [rewrite Hclass; reflexivity|].
  split.
  - cbn [bind]. apply (construct_again C init b Hinit).
  - unfold JSON_parse_call. rewrite Hback. cbn [bind try_catch].
    apply (construct_again C init b Hinit).
Qed.

End BodyDecoderProofs.

Section BodyDecoderExamples.
Import Models Samples.

(** The body of a text message, decoded, written as JSON text and decoded
    again. *)
Lemma X30_decoded_body_is_normal_witness :
  let body :=
    {| bodyClass := BodyClass.TextMessageBody;
       props := [("text", JStr "on my way"); ("mentionedUserIds", JArr []);
                 ("mentionAll", JBool false)]%string |} in
  @createMessageBody JsonText.codec MessageType.sample
    (Some (JStr (@JSON_stringify JsonText.codec (JObj (props body))))) 1
  = Returned body.
Proof.
  intros body.
  destruct (@X30_decoded_body_is_normal JsonText.codec MessageType.sample 1
              (Some (IMessage.messageBody lateMessage)) body parse_stringify eq_refl)
    as (_ & _ & Htext).
  exact Htext.
Defined.

End BodyDecoderExamples.

(** ** Notifications and the error factory ([utils/ErrorHandler.ts], [utils/ErrorTypes.ts]) *)
Section NotificationProofs.
Import ErrorHandler ErrorTypes.

Lemma existsb_eqb_In key l : existsb (String.eqb key) l = true <-> In key l.
Proof.
  rewrite existsb_exists. split.
  - intros (x & Hx & Heq). apply String.eqb_eq in Heq. subst x. exact Hx.
  - intros Hin. exists key. split; [exact Hin | apply String.eqb_refl].
Qed.

(** [show] when the key is being debounced, and when it is not. *)
Lemma show_known error msg st :
  In (errorKey error) (notificationDebounce st) -> show error msg st = st.
Proof.
  intros Hin. unfold show. fold (errorKey error).
  rewrite (proj2 (existsb_eqb_In _ _) Hin). reflexivity.
Qed.

Lemma show_fresh error msg st :
  ~ In (errorKey error) (notificationDebounce st) ->
  notificationDebounce (show error msg st) = errorKey error :: notificationDebounce st
  /\ exists notice,
       trace (show error msg st)
       = trace st ++ [SetTimeout (errorKey error) DEBOUNCE_TIME; notice]
       /\ notice
          = (if isCritical error
             then ElNotification (str_or msg (getUserFriendlyMessage error))
             else ElMessage (str_or msg (getUserFriendlyMessage error))).
Proof.
  intros Hnotin. unfold show. fold (errorKey error).
  destruct (existsb _ _) eqn:Hex; [apply existsb_eqb_In in Hex; contradiction|].
  unfold isCritical.
  destruct (appError error) as [app|]; [destruct (errSeverity app)|];
    (split; [reflexivity|]); eexists; (split; [|reflexivity]);
    cbn [trace emit]; rewrite <- app_assoc; reflexivity.
Qed.

(** X19: [ErrorNotification.show] shows an error once per key: an error whose
    key (the [code] of an [AppError], the [message] of another error) is being
    debounced is dropped, whatever its message; the first one arms a timer of
    [DEBOUNCE_TIME] and then shows the custom message or the friendly text, as
    a notification when the error is critical and as a message otherwise; once
    the timer has fired the key is free again. *)
Theorem X19_show_is_debounced (first second : JsError) (msg1 msg2 : option string)
    (st : HandlerState) :
  errorKey first = errorKey second ->
  show second msg2 (show first msg1 st) = show first msg1 st
  /\ (In (errorKey first) (notificationDebounce st) -> show first msg1 st = st)
  /\ (~ In (errorKey first) (notificationDebounce st) ->
      exists notice,
        trace (show first msg1 st)
        = trace st ++ [SetTimeout (errorKey first) DEBOUNCE_TIME; notice]
        /\ notice
           = (if isCritical first
              then ElNotification (str_or msg1 (getUserFriendlyMessage first))
              else ElMessage (str_or msg1 (getUserFriendlyMessage first))))
  /\ ~ In (errorKey first)
         (notificationDebounce (debounceExpired (errorKey first) (show first msg1 st))).
Proof.
  intros Hkey.
  assert (Hin : In (errorKey first) (notificationDebounce (show first msg1 st))).
  { destruct (in_dec string_dec (errorKey first) (notificationDebounce st)) as [Hin|Hnotin].
    - rewrite (show_known _ _ _ Hin). exact Hin.
    - rewrite (proj1 (show_fresh first msg1 st Hnotin)). left. reflexivity. }
  split; [|split; [|split]].
  - apply show_known. rewrite <- Hkey. exact Hin.
  - apply show_known.
  - intros Hnotin. exact (proj2 (show_fresh first msg1 st Hnotin)).
  - unfold debounceExpired. cbn [notificationDebounce]. rewrite filter_In.
    intros [_ Hneg]. rewrite String.eqb_refl in Hneg. discriminate.
Qed.

(** X20: handling the same error twice in a context that is not silent logs it
    twice and notifies the user once: all the second call adds is one log
    entry. *)
Theorem X20_handle_twice_notifies_once (T : Type) (error : JsError)
    (context : HandleErrorContext T) (st : HandlerState) :
  default false (silent context) = false ->
  exists level message info,
    trace (handle error context (handle error context st))
    = trace (handle error context st) ++ [Log level "ErrorHandler" message info]
    /\ notificationDebounce (handle error context (handle error context st))
       = notificationDebounce (handle error context st).
Proof.
  intros Hsilent.
  remember (handle error context st) as st1 eqn:Hst1.
  assert (Hagain : handle error context st1
                   = if default true (showNotification context)
                     then show error (customMessage context)
                            (logError error (operation context) (data context) st1)
                     else logError error (operation context) (data context) st1).
  { unfold handle. rewrite Hsilent. reflexivity. }
  rewrite Hagain. clear Hagain.
  destruct (logError_trace error (operation context) (data context) st1)
    as (level & message & info & Htrace & Hdebounce & _).
  exists level, message, info.
  destruct (default true (showNotification context)) eqn:Hshow; [|split; assumption].
  rewrite show_known; [split; assumption|].
  rewrite Hdebounce. subst st1. unfold handle. rewrite Hsilent, Hshow.
  set (st0 := logError error (operation context) (data context) st).
  destruct (in_dec string_dec (errorKey error) (notificationDebounce st0)) as [Hin|Hnotin].
  - rewrite (show_known _ _ _ Hin). exact Hin.
  - rewrite (proj1 (show_fresh error (customMessage context) st0 Hnotin)). left. reflexivity.
Qed.

End NotificationProofs.

Section FromUnknownProofs.
Import ErrorHandler ErrorTypes.

(** X21: [ErrorFactory.fromUnknown] turns whatever is not an [AppError] into
    one whose code has a text in [USER_FRIENDLY_MESSAGES], which is what the
    user is shown; the error is critical exactly when it is a system error;
    converting the result again returns it; and for an [Error] the message is
    kept and the error is attached as [originalError], except when it is
    classified as a validation error. *)
Theorem X21_fromUnknown_is_friendly (caught : unknown) (defaultMessage : option string) :
  (forall e, caught <> AnAppError e) ->
  let converted := fromUnknown caught defaultMessage in
  exists app text,
    appError (asError converted) = Some app
    /\ In (errCode app, text) USER_FRIENDLY_MESSAGES
    /\ text <> ""%string
    /\ getUserFriendlyMessage (asError converted) = text
    /\ (isCritical (asError converted) = true <-> errCode app = "SYSTEM_ERROR"%string)
    /\ fromUnknown (AnAppError converted) defaultMessage = converted
    /\ (forall e, caught = AnError e ->
          errMessage (asError converted) = errMessage e
          /\ originalError converted
             = (if String.eqb (errCode app) "VALIDATION_ERROR" then None else Some e)).
Proof.
  intros Hplain converted. subst converted.
  destruct caught as [e|e|v]; [exfalso; exact (Hplain e eq_refl)| |].
  - unfold fromUnknown.
    repeat match goal with
      | |- context [includes ?m ?w] => destruct (includes m w)
      end;
      cbn [orb]; eexists _, _;
      (split; [reflexivity|]);
      (split; [cbn; auto 10|]);
      (split; [discriminate|]);
      (split; [reflexivity|]);
      (split; [split; [discriminate || reflexivity | discriminate || reflexivity]|]);
      (split; [reflexivity|]);
      intros e' [= <-]; split; reflexivity.
  - cbn. eexists _, _.
    split; [reflexivity|]. split; [cbn; auto 10|]. split; [discriminate|].
    split; [reflexivity|]. split; [split; reflexivity|]. split; [reflexivity|].
    intros e' [=].
Qed.

End FromUnknownProofs.

Section ErrorExamples.
Import ErrorHandler ErrorTypes Samples MoreSamples.

(** Two network errors with different messages: the second is not shown
    while the first is being debounced. *)
Lemma X19_show_is_debounced_witness :
  show timedOut None (show offline None initial) = show offline None initial.
Proof.
  destruct (X19_show_is_debounced offline timedOut None None initial eq_refl) as [Hsame _].
  exact Hsame.
Defined.

Lemma X20_handle_twice_notifies_once_witness :
  exists level message info,
    trace (handle offline loudContext (handle offline loudContext initial))
    = trace (handle offline loudContext initial) ++ [Log level "ErrorHandler" message info]
    /\ notificationDebounce (handle offline loudContext (handle offline loudContext initial))
       = notificationDebounce (handle offline loudContext initial).
Proof.
  apply (X20_handle_twice_notifies_once Z offline loudContext initial). reflexivity.
Defined.

(** A rejected [fetch]: the error is classified as a network error. *)
Lemma X21_fromUnknown_is_friendly_witness :
  exists app,
    appError (asError (fromUnknown (AnError (mkError "Failed to fetch")) None)) = Some app
    /\ errCode app = "NETWORK_ERROR"%string
    /\ In (errCode app,
           getUserFriendlyMessage
             (asError (fromUnknown (AnError (mkError "Failed to fetch")) None)))
          USER_FRIENDLY_MESSAGES.
Proof.
  destruct (X21_fromUnknown_is_friendly (AnError (mkError "Failed to fetch")) None
              ltac:(intros e; discriminate))
    as (app & text & Happ & Hin & _ & Hfriendly & _).
  exists app. rewrite Hfriendly. split; [exact Happ|]. split; [|exact Hin].
  injection Happ as <-. reflexivity.
Defined.

End ErrorExamples.

(** ** What becomes of a queued envelope ([MainManager.handleMessage]) *)
Section DispatchProofs.
Import MessageType Core Dispatcher.

(** Each comparison of the code in the goal decided, one after the other. *)
Ltac split_codes code :=
  repeat match goal with
    | |- context [code =? ?c] =>
        destruct (Z.eqb_spec code c); cbn [orb negb andb]; lazy iota
    end.

(** X22: with pairwise distinct codes, the callback of [handleMessage] makes
    at most one call for an envelope; none for an envelope of low priority;
    with data that is truthy, an urgent envelope forces the logout and one of
    high priority goes to the call store; and without such data nothing
    reaches a store. *)
Theorem X22_dispatch_follows_priority (T : codes) (code : Z) (data : option jsval) :
  distinct T ->
  (length (dispatch T code data) <= 1)%nat
  /\ (getMessagePriority T code = LOW -> dispatch T code data = [])
  /\ (forall d, data = Some d -> truthy d = true ->
        (getMessagePriority T code = URGENT ->
           exists message, dispatch T code data = [ForceLogout message])
        /\ (getMessagePriority T code = HIGH -> dispatch T code data = [HandleCallMessage d]))
  /\ ((forall d, data = Some d -> truthy d = false) ->
        forallb (fun c => negb (reachesStore c)) (dispatch T code data) = true).
Proof.
  intros HT. unfold distinct, all in HT.
  rewrite !NoDup_cons, !not_elem_of_cons in HT. destruct_and!.
  split; [|split; [|split]].
  - unfold dispatch. destruct data as [d|]; [destruct (truthy d)|];
      split_codes code; cbn [app length];
      first [ apply Nat.leb_le; reflexivity | exfalso; congruence ].
  - unfold getMessagePriority, dispatch.
    split_codes code; intros Hp; first [reflexivity | discriminate Hp | congruence].
  - intros d -> Hd. unfold getMessagePriority, dispatch. rewrite Hd.
    split; split_codes code; intros Hp;
      first [discriminate Hp | congruence | eauto].
  - intros Hfalsy. unfold dispatch.
    destruct data as [d|]; [rewrite (Hfalsy d eq_refl)|];
      split_codes code; reflexivity.
Qed.

End DispatchProofs.

Section DispatchExamples.
Import MessageType Core Dispatcher.

(** The envelope of a video call is of high priority and goes to the call
    store. *)
Lemma X22_dispatch_follows_priority_witness :
  dispatch MessageType.sample 1002 (Some (JObj [])) = [HandleCallMessage (JObj [])].
Proof.
  destruct (X22_dispatch_follows_priority MessageType.sample 1002 (Some (JObj []))
              distinct_sample) as (_ & _ & Hdata & _).
  destruct (Hdata (JObj []) eq_refl eq_refl) as [_ Hhigh].
  apply Hhigh. reflexivity.
Defined.

End DispatchExamples.

(** ** Drafts, file types and the file queue ([core.ts], [constants/index.ts]) *)
Section DraftProofs.
Import Drafts.

Lemma blank_empty : blank "" = true.
Proof. reflexivity. Qed.

Lemma visible_nonempty html : blank html = false -> String.eqb html "" = false.
Proof.
  intros Hb. destruct (String.eqb_spec html "") as [->|]; [|reflexivity].
  rewrite blank_empty in Hb. discriminate.
Qed.

Lemma assign_plain id html m :
  inherited id = false -> assign id html m = <[id := html]> m.
Proof.
  intros Hid. unfold assign.
  destruct (String.eqb_spec id "__proto__") as [->|]; [discriminate Hid | reflexivity].
Qed.

Lemma lookup_plain id d :
  inherited id = false ->
  lookup id d = match draftMap d !! id with Some html => Some (Draft html) | None => None end.
Proof. intros Hid. unfold lookup. rewrite Hid. reflexivity. Qed.

Lemma assign_other id html m other :
  other <> id -> assign id html m !! other = m !! other.
Proof.
  intros Hother. unfold assign.
  destruct (String.eqb id "__proto__" && negb (bool_decide (is_Some (m !! id))));
    [reflexivity | apply lookup_insert_ne; congruence].
Qed.

Lemma assign_tidy id html m :
  blank html = false ->
  (forall k v, m !! k = Some v -> blank v = false) ->
  forall k v, assign id html m !! k = Some v -> blank v = false.
Proof.
  intros Hb Hm k v. unfold assign.
  destruct (String.eqb id "__proto__" && negb (bool_decide (is_Some (m !! id))));
    [apply Hm|].
  rewrite lookup_insert. case_decide; [intros [= <-]; exact Hb | apply Hm].
Qed.

(** X23: the draft manager: [set] without a chat id does nothing; for a chat
    id that is not the name of a member of [Object.prototype], [get] after
    [set] returns the text, or nothing when the text is empty or white space
    only, [has] tells which, and the map is written to the storage; [set]
    and [clear] leave the drafts of other chats alone; after [clear] there is
    no draft; and when no stored draft is blank, none is after [set] or
    [clear], and [has] and [get] agree. *)
Theorem X23_drafts_set_get_clear (chatId html : string) (d : DraftManager) :
  Drafts.set "" html d = d
  /\ (chatId <> ""%string -> inherited chatId = false ->
      Drafts.get chatId (Drafts.set chatId html d)
      = (if blank html then None else Some (Draft html))
      /\ has chatId (Drafts.set chatId html d) = Returned (negb (blank html))
      /\ head (persisted (Drafts.set chatId html d))
         = Some (draftMap (Drafts.set chatId html d)))
  /\ (forall other, other <> chatId ->
        draftMap (Drafts.set chatId html d) !! other = draftMap d !! other
        /\ draftMap (clear chatId d) !! other = draftMap d !! other)
  /\ (inherited chatId = false ->
      Drafts.get chatId (clear chatId d) = None
      /\ has chatId (clear chatId d) = Returned false)
  /\ head (persisted (clear chatId d)) = Some (draftMap (clear chatId d))
  /\ (tidy d ->
      tidy (Drafts.set chatId html d) /\ tidy (clear chatId d)
      /\ forall k, inherited k = false ->
           (has k d = Returned true <-> is_Some (Drafts.get k d))).
Proof.
  split; [reflexivity|]. split; [|split; [|split; [|split]]].
  - intros Hid Hplain. unfold Drafts.set.
    assert (truthy_str chatId = true) as ->.
    { unfold truthy_str. destruct (String.eqb_spec chatId ""); [contradiction | reflexivity]. }
    cbn [negb]. unfold Drafts.get, has, persist. rewrite !(lookup_plain _ _ Hplain).
    cbn [draftMap persisted head].
    destruct (blank html) eqn:Hb; cbn [negb].
    + rewrite lookup_delete_eq. repeat split.
    + rewrite (assign_plain _ _ _ Hplain), lookup_insert_eq, Hb, (visible_nonempty html Hb).
      repeat split.
  - intros other Hother. unfold Drafts.set, clear.
    destruct (negb (truthy_str chatId)); cbn [persist draftMap].
    + split; [reflexivity|]. apply lookup_delete_ne. congruence.
    + split; [|apply lookup_delete_ne; congruence].
      destruct (negb (blank html));
        [apply assign_other; exact Hother | apply lookup_delete_ne; congruence].
  - intros Hplain. unfold Drafts.get, has, clear, persist. rewrite !(lookup_plain _ _ Hplain).
    cbn [draftMap persisted head].
    rewrite lookup_delete_eq. split; reflexivity.
  - reflexivity.
  - intros Htidy. split; [|split].
    + unfold Drafts.set. destruct (negb (truthy_str chatId)); [exact Htidy|].
      intros k v. cbn [persist draftMap].
      destruct (blank html) eqn:Hb; cbn [negb].
      * rewrite lookup_delete. case_decide; [discriminate | apply Htidy].
      * apply assign_tidy; [exact Hb | exact Htidy].
    + intros k v. unfold clear. cbn [persist draftMap].
      rewrite lookup_delete. case_decide; [discriminate | apply Htidy].
    + intros k Hplain. unfold has, Drafts.get. rewrite !(lookup_plain _ _ Hplain).
      destruct (draftMap d !! k) as [v|] eqn:Hv.
      * rewrite (Htidy k v Hv), (visible_nonempty v (Htidy k v Hv)). cbn [negb].
        split; [eauto | reflexivity].
      * split; [discriminate | intros [? [=]]].
Qed.

End DraftProofs.

Section DraftExamples.
Import Drafts MoreSamples.

(** A text of white space only deletes the draft, whichever white space it
    is: a blank, a no-break space or an ideographic space. *)
Example set_of_wide_space_deletes :
  Drafts.get "c1" oneDraft = Some (Draft "<p>on my way</p>")
  /\ Drafts.get "c1" (Drafts.set "c1" " " oneDraft) = None
  /\ Drafts.get "c1" (Drafts.set "c1" noBreakSpace oneDraft) = None
  /\ Drafts.get "c1" (Drafts.set "c1" ideographicSpace oneDraft) = None
  /\ has "c1" (Drafts.set "c1" (ideographicSpace ++ "x") oneDraft) = Returned true.
Proof. repeat split. Qed.

(** Under the name of a member of [Object.prototype] the map answers with
    that member: [get] returns it, [has] fails on its missing [trim], and a
    text assigned to [__proto__] is lost. *)
Example inherited_names_answer :
  Drafts.get "constructor" oneDraft = Some Builtin
  /\ has "toString" oneDraft = Thrown NotAFunction
  /\ Drafts.get "constructor" (clear "constructor" oneDraft) = Some Builtin
  /\ draftMap (Drafts.set "__proto__" "hello" oneDraft) = draftMap oneDraft
  /\ Drafts.get "constructor" (Drafts.set "constructor" "hello" oneDraft)
     = Some (Draft "hello").
Proof. repeat split. Qed.

End DraftExamples.

Section FileTypeProofs.
Import ErrorHandler FileTypes.

Lemma lowerAscii_idem c : lowerAscii (lowerAscii c) = lowerAscii c.
Proof. destruct c as [[] [] [] [] [] [] [] []]; reflexivity. Qed.

Lemma toLowerCase_idem s : toLowerCase (toLowerCase s) = toLowerCase s.
Proof.
  induction s as [|c s IH]; [reflexivity|].
  cbn [toLowerCase]. rewrite lowerAscii_idem, IH. reflexivity.
Qed.

Lemma append_cons c s1 s2 : (String c s1 ++ s2)%string = String c (s1 ++ s2)%string.
Proof. reflexivity. Qed.

Lemma append_nil s : (EmptyString ++ s)%string = s.
Proof. reflexivity. Qed.

Lemma afterLastDot_dotless s : dotless s = true <-> afterLastDot s = None.
Proof.
  induction s as [|c s IH]; cbn [dotless afterLastDot]; [tauto|].
  destruct (afterLastDot s) as [e|].
  - split; [|discriminate]. rewrite andb_true_iff. intros [_ H].
    apply IH in H. discriminate.
  - destruct (Ascii.eqb c "."); cbn [negb andb]; [split; discriminate|].
    split; [reflexivity|]. intros _. apply IH. reflexivity.
Qed.

Lemma afterLastDot_append base s ext :
  afterLastDot s = Some ext -> afterLastDot (base ++ s) = Some ext.
Proof.
  intros Hs. induction base as [|c base IH].
  - rewrite append_nil. exact Hs.
  - rewrite append_cons. cbn [afterLastDot]. rewrite IH. reflexivity.
Qed.

Lemma afterLastDot_extension base ext :
  dotless ext = true -> afterLastDot (base ++ String "." ext) = Some ext.
Proof.
  intros Hext. apply afterLastDot_append. cbn [afterLastDot].
  rewrite (proj1 (afterLastDot_dotless ext) Hext). reflexivity.
Qed.

Lemma toLowerCase_empty s : toLowerCase s = ""%string -> s = ""%string.
Proof. destruct s; [reflexivity | discriminate]. Qed.

(** X24: [fromFileName] reads the type off what follows the last dot of the
    name, through [fromExtension]; a name that ends in a dot or has none is of
    type [Other]; [fromExtension] does not see the case of the ASCII letters;
    and every extension listed in [extensionMap] is given the type it is
    listed under. *)
Theorem X24_fromFileName_reads_last_extension (base ext : string) :
  dotless ext = true ->
  (ext <> ""%string -> fromFileName (base ++ String "." ext) = fromExtension ext)
  /\ fromFileName (base ++ ".") = Other
  /\ fromFileName ext = Other
  /\ fromExtension (toLowerCase ext) = fromExtension ext
  /\ (forall type exts e,
        In (type, exts) extensionMap -> In e exts -> fromExtension e = type).
Proof.
  intros Hext. split; [|split; [|split; [|split]]].
  - intros Hne. unfold fromFileName, getExtension.
    rewrite (afterLastDot_extension base ext Hext).
    destruct ext as [|c ext]; [contradiction|].
    unfold fromExtension. rewrite toLowerCase_idem. reflexivity.
  - unfold fromFileName, getExtension.
    rewrite (afterLastDot_extension base "" eq_refl). reflexivity.
  - unfold fromFileName, getExtension.
    rewrite (proj1 (afterLastDot_dotless ext) Hext). reflexivity.
  - unfold fromExtension. rewrite toLowerCase_idem. reflexivity.
  - intros type exts e Hentry He. unfold extensionMap in Hentry.
    cbn [In] in Hentry.
    repeat (destruct Hentry as [[= <- <-] | Hentry];
            [cbn [In] in He;
             repeat (destruct He as [<- | He]; [reflexivity|]); contradiction|]).
    contradiction.
Qed.

End FileTypeProofs.

Section FileTypeExamples.
Import FileTypes.

(** The type of an archive of photographs is read from the last extension. *)
Lemma X24_fromFileName_reads_last_extension_witness :
  fromFileName "holiday.tar.JPG" = Image.
Proof.
  destruct (X24_fromFileName_reads_last_extension "holiday.tar" "JPG" eq_refl) as [Hname _].
  exact (Hname ltac:(discriminate)).
Defined.

End FileTypeExamples.

Section FileQueueProofs.
Import FileQueue.

Variable generateFileId : File -> string.
Variable readAsDataURL : File -> option string.

Lemma known_fingerprint (f : File) (q : list PendingFile) :
  existsb (fun p => String.eqb (name p) (fileName f) && (size p =? fileSize f)) q = false ->
  ~ In (fileName f, fileSize f) (List.map fingerprint q).
Proof.
  intros Hnone Hin. apply in_map_iff in Hin as [p [Hp Hin]].
  assert (Hsome : existsb (fun p => String.eqb (name p) (fileName f) && (size p =? fileSize f)) q = true).
  { apply existsb_exists. exists p. split; [exact Hin|].
    unfold fingerprint in Hp. injection Hp as Hn Hs.
    rewrite Hn, Hs, String.eqb_refl, Z.eqb_refl. reflexivity. }
  congruence.
Qed.

(** What one turn of the loop keeps. *)
Lemma addFile_step (q : list PendingFile) (r : Added) (f : File) :
  let '(q', r') := addFile generateFileId readAsDataURL (q, r) f in
  added r' + skipped r' = added r + skipped r + 1
  /\ Z.of_nat (length q') - added r' = Z.of_nat (length q) - added r
  /\ Z.of_nat (length (errors r')) - skipped r' <= Z.of_nat (length (errors r)) - skipped r
  /\ added r <= added r' /\ skipped r <= skipped r'
  /\ (Z.of_nat (length q) <= MAX_FILE_COUNT -> Z.of_nat (length q') <= MAX_FILE_COUNT)
  /\ (MAX_FILE_COUNT <= Z.of_nat (length q) -> q' = q)
  /\ (exists more, q' = q ++ more
        /\ Forall (fun p => In (file p) [f] /\ name p = fileName (file p)
                            /\ size p = fileSize (file p) /\ type p = fileType (file p)
                            /\ size p <= MAX_FILE_SIZE) more)
  /\ (List.NoDup (List.map fingerprint q) -> List.NoDup (List.map fingerprint q')).
Proof.
  unfold FileQueue.addFile.
  destruct (Z.geb_spec (Z.of_nat (length q)) MAX_FILE_COUNT) as [Hfull | Hroom].
  { cbn [added skipped errors]. rewrite length_app. cbn [length].
    repeat split; try lia; try tauto.
    exists []. rewrite app_nil_r. split; [reflexivity | constructor]. }
  destruct (Z.gtb_spec (fileSize f) MAX_FILE_SIZE) as [Hbig | Hfit].
  { cbn [added skipped errors]. rewrite length_app. cbn [length].
    repeat split; try lia; try tauto.
    exists []. rewrite app_nil_r. split; [reflexivity | constructor]. }
  destruct (existsb _ q) eqn:Hdup.
  { cbn [added skipped errors].
    repeat split; try lia; try tauto.
    exists []. rewrite app_nil_r. split; [reflexivity | constructor]. }
  cbn [added skipped errors]. rewrite length_app. cbn [length].
  split; [lia|]. split; [lia|]. split; [lia|]. split; [lia|]. split; [lia|].
  split; [lia|]. split; [lia|]. split.
  - eexists. split; [reflexivity|]. constructor; [|constructor].
    cbn [file name size type In]. repeat split; first [tauto | lia].
  - intros Hnodup. rewrite map_app. cbn [List.map fingerprint name size].
    apply NoDup_ListNoDup. apply NoDup_app. repeat split.
    + apply NoDup_ListNoDup. exact Hnodup.
    + intros x Hx Hx'. apply list_elem_of_singleton in Hx'. subst x.
      apply list_elem_of_In in Hx. exact (known_fingerprint f q Hdup Hx).
    + apply NoDup_singleton.
Qed.

Lemma addFiles_fold (files : list File) (q : list PendingFile) (r : Added) :
  let '(q', r') := fold_left (addFile generateFileId readAsDataURL) files (q, r) in
  added r' + skipped r' = added r + skipped r + Z.of_nat (length files)
  /\ Z.of_nat (length q') - added r' = Z.of_nat (length q) - added r
  /\ Z.of_nat (length (errors r')) - skipped r' <= Z.of_nat (length (errors r)) - skipped r
  /\ added r <= added r' /\ skipped r <= skipped r'
  /\ (Z.of_nat (length q) <= MAX_FILE_COUNT -> Z.of_nat (length q') <= MAX_FILE_COUNT)
  /\ (MAX_FILE_COUNT <= Z.of_nat (length q) -> q' = q)
  /\ (exists more, q' = q ++ more
        /\ Forall (fun p => In (file p) files /\ name p = fileName (file p)
                            /\ size p = fileSize (file p) /\ type p = fileType (file p)
                            /\ size p <= MAX_FILE_SIZE) more)
  /\ (List.NoDup (List.map fingerprint q) -> List.NoDup (List.map fingerprint q')).
Proof.
  revert q r. induction files as [|f files IH]; intros q r.
  - cbn [fold_left length]. repeat split; try lia; try tauto.
    exists []. rewrite app_nil_r. split; [reflexivity | constructor].
  - cbn [fold_left]. pose proof (addFile_step q r f) as Hstep.
    destruct (addFile generateFileId readAsDataURL (q, r) f) as [q1 r1].
    specialize (IH q1 r1). destruct (fold_left (addFile generateFileId readAsDataURL) files (q1, r1)) as [q' r'].
    destruct Hstep as (S1 & S2 & S3 & S4 & S5 & S6 & S7 & (m1 & Sm & SF) & S9).
    destruct IH as (I1 & I2 & I3 & I4 & I5 & I6 & I7 & (m2 & Im & IF) & I9).
    cbn [length].
    split; [lia|]. split; [lia|]. split; [lia|]. split; [lia|]. split; [lia|].
    split; [tauto|]. split; [|split; [|tauto]].
    + intros Hfull. pose proof (S7 Hfull) as Hsame. rewrite Hsame in I7. exact (I7 Hfull).
    + exists (m1 ++ m2). split; [rewrite Im, Sm, app_assoc; reflexivity|].
      apply Forall_app. split.
      * eapply List.Forall_impl; [|exact SF]. cbv beta. intros p (Hp & Hrest).
        split; [|exact Hrest]. cbn [In] in Hp |- *. tauto.
      * eapply List.Forall_impl; [|exact IF]. cbv beta. intros p (Hp & Hrest).
        split; [|exact Hrest]. cbn [In]. tauto.
Qed.

(** X25: [addFiles] accounts for every file, as added or as skipped; the queue
    grows at its end by the files added, each with the name, size and type of
    its file and of at most [MAX_FILE_SIZE] bytes; there are no more error
    messages than files skipped; a queue of at most [MAX_FILE_COUNT] files
    stays so, and one that is full is left as it is; and no two entries come
    to share name and size. *)
Theorem X25_addFiles_respects_limits (files : list File) (pendingFiles : list PendingFile) :
  let queue := fst (addFiles generateFileId readAsDataURL files pendingFiles) in
  let report := snd (addFiles generateFileId readAsDataURL files pendingFiles) in
  added report + skipped report = Z.of_nat (length files)
  /\ 0 <= added report /\ 0 <= skipped report
  /\ Z.of_nat (length queue) = Z.of_nat (length pendingFiles) + added report
  /\ Z.of_nat (length (errors report)) <= skipped report
  /\ (exists more, queue = pendingFiles ++ more
        /\ Forall (fun p => In (file p) files /\ name p = fileName (file p)
                            /\ size p = fileSize (file p) /\ type p = fileType (file p)
                            /\ size p <= MAX_FILE_SIZE) more)
  /\ (Z.of_nat (length pendingFiles) <= MAX_FILE_COUNT ->
      Z.of_nat (length queue) <= MAX_FILE_COUNT)
  /\ (MAX_FILE_COUNT <= Z.of_nat (length pendingFiles) ->
      queue = pendingFiles /\ skipped report = Z.of_nat (length files))
  /\ (List.NoDup (List.map fingerprint pendingFiles) ->
      List.NoDup (List.map fingerprint queue)).
Proof.
  unfold FileQueue.addFiles.
  pose proof (addFiles_fold files pendingFiles {| added := 0; skipped := 0; errors := [] |}) as H.
  destruct (fold_left _ files _) as [q' r'].
  cbn [added skipped errors length] in H. cbn [fst snd].
  destruct H as (I1 & I2 & I3 & I4 & I5 & I6 & I7 & I8 & I9).
  split; [lia|]. split; [lia|]. split; [lia|]. split; [lia|]. split; [lia|].
  split; [exact I8|]. split; [exact I6|]. split; [|exact I9].
  intros Hfull. split; [exact (I7 Hfull)|]. rewrite (I7 Hfull) in I2. lia.
Qed.

Lemma delete_last {A} (l : list A) (x : A) : delete (length l) (l ++ [x]) = l.
Proof. induction l as [|y l IH]; [reflexivity|]. cbn. f_equal. exact IH. Qed.

(** X26: [removeFile] does nothing for an index outside the queue; for one
    inside it removes that entry and no other, keeping the order, and revokes
    the preview of the entry when it is a blob URL; it never makes two entries
    share name and size; and removing the entry that [addFiles] has just added
    restores the queue. *)
Theorem X26_removeFile_checks_bounds (index : Z) (pendingFiles : list PendingFile) (f : File) :
  let queue := fst (removeFile index pendingFiles) in
  let revoked := snd (removeFile index pendingFiles) in
  (index < 0 \/ Z.of_nat (length pendingFiles) <= index ->
     queue = pendingFiles /\ revoked = [])
  /\ (0 <= index < Z.of_nat (length pendingFiles) ->
      Z.of_nat (length queue) = Z.of_nat (length pendingFiles) - 1
      /\ (forall i, (i < Z.to_nat index)%nat -> queue !! i = pendingFiles !! i)
      /\ (forall i, (Z.to_nat index <= i)%nat -> queue !! i = pendingFiles !! S i)
      /\ (forall p, pendingFiles !! Z.to_nat index = Some p ->
            revoked = if isBlob p then [default ""%string (preview p)] else []))
  /\ (List.NoDup (List.map fingerprint pendingFiles) ->
      List.NoDup (List.map fingerprint queue))
  /\ (added (snd (addFiles generateFileId readAsDataURL [f] pendingFiles)) = 1 ->
      fst (removeFile (Z.of_nat (length pendingFiles)) (fst (addFiles generateFileId readAsDataURL [f] pendingFiles)))
      = pendingFiles).
Proof.
  cbv zeta. split; [|split; [|split]].
  - intros Hout. unfold removeFile.
    destruct (Z.leb_spec 0 index) as [Hlow | Hlow];
      destruct (Z.ltb_spec index (Z.of_nat (length pendingFiles))) as [Hhigh | Hhigh];
      cbn [andb fst snd]; first [lia | split; reflexivity].
  - intros [Hlow Hhigh]. unfold removeFile.
    rewrite (proj2 (Z.leb_le 0 index) Hlow), (proj2 (Z.ltb_lt _ _) Hhigh).
    cbn [andb fst snd].
    assert (Hsome : is_Some (pendingFiles !! Z.to_nat index)).
    { apply lookup_lt_is_Some. lia. }
    split; [|split; [|split]].
    + rewrite (length_delete _ _ Hsome). destruct Hsome as [p Hp].
      apply lookup_lt_Some in Hp. lia.
    + intros i Hi. apply list_lookup_delete_lt. exact Hi.
    + intros i Hi. apply list_lookup_delete_ge. exact Hi.
    + intros p Hp. rewrite Hp. reflexivity.
  - intros Hnodup. unfold removeFile.
    destruct ((0 <=? index) && (index <? Z.of_nat (length pendingFiles)));
      cbn [fst]; [|exact Hnodup].
    apply NoDup_ListNoDup. apply NoDup_ListNoDup in Hnodup.
    refine (sublist_NoDup _ _ Hnodup _).
    change (List.map fingerprint) with (fmap (M := list) fingerprint).
    rewrite list_fmap_delete. apply sublist_delete.
  - unfold FileQueue.addFiles, FileQueue.addFile. cbn [fold_left].
    destruct (Z.of_nat (length pendingFiles) >=? MAX_FILE_COUNT);
      [cbn [snd added]; discriminate|].
    destruct (fileSize f >? MAX_FILE_SIZE); [cbn [snd added]; discriminate|].
    destruct (existsb _ pendingFiles); [cbn [snd added]; discriminate|].
    cbn [fst snd added]. intros _. unfold removeFile.
    rewrite length_app. cbn [length].
    rewrite (proj2 (Z.leb_le 0 _) (Nat2Z.is_nonneg _)).
    rewrite (proj2 (Z.ltb_lt _ _)) by lia.
    cbn [andb fst]. rewrite Nat2Z.id. apply delete_last.
Qed.

End FileQueueProofs.

(** ** Escaping and previews ([hooks/useChatInput.ts]) *)
Section EscapeProofs.
Import Models ChatInput Markup Collected.

Lemma append_assoc (a b c : string) : ((a ++ b) ++ c = a ++ (b ++ c))%string.
Proof.
  induction a as [|x a IH]; [reflexivity|].
  rewrite !append_cons, IH. reflexivity.
Qed.

Lemma append_empty_r (a : string) : (a ++ "")%string = a.
Proof.
  induction a as [|x a IH]; [reflexivity|]. rewrite append_cons, IH. reflexivity.
Qed.

Lemma escapeHtml_cons c s : escapeHtml (String c s) = (escapeHtmlChar c ++ escapeHtml s)%string.
Proof. reflexivity. Qed.

Lemma escapeHtml_app a b : escapeHtml (a ++ b) = (escapeHtml a ++ escapeHtml b)%string.
Proof.
  induction a as [|x a IH]; [reflexivity|].
  rewrite append_cons, !escapeHtml_cons, IH, append_assoc. reflexivity.
Qed.

Lemma markupFree_app a b :
  markupFree (a ++ b) = markupFree a && markupFree b.
Proof.
  induction a as [|x a IH]; [reflexivity|].
  rewrite append_cons. cbn [markupFree]. rewrite IH, andb_assoc. reflexivity.
Qed.

Lemma escapeHtmlChar_cases c :
  (Ascii.eqb c "&" || isMarkup c = false /\ escapeHtmlChar c = String c "")
  \/ (Ascii.eqb c "&" || isMarkup c = true
      /\ markupFree (escapeHtmlChar c) = true
      /\ escapeHtmlChar c <> String c ""
      /\ (1 < String.length (escapeHtmlChar c))%nat).
Proof.
  unfold escapeHtmlChar, isMarkup.
  destruct (Ascii.eqb_spec c "&") as [-> | _]; [right; repeat split; [discriminate | cbn; lia]|].
  destruct (Ascii.eqb_spec c "<") as [-> | _]; [right; repeat split; [discriminate | cbn; lia]|].
  destruct (Ascii.eqb_spec c ">") as [-> | _]; [right; repeat split; [discriminate | cbn; lia]|].
  destruct (Ascii.eqb_spec c "034") as [-> | _]; [right; repeat split; [discriminate | cbn; lia]|].
  destruct (Ascii.eqb_spec c "'") as [-> | _]; [right; repeat split; [discriminate | cbn; lia]|].
  left. split; reflexivity.
Qed.

Lemma escapeHtml_markupFree s : markupFree (escapeHtml s) = true.
Proof.
  induction s as [|c s IH]; [reflexivity|].
  rewrite escapeHtml_cons, markupFree_app, IH, andb_true_r.
  destruct (escapeHtmlChar_cases c) as [[Hc ->] | (_ & Hfree & _)]; [|exact Hfree].
  cbn [markupFree]. apply orb_false_iff in Hc as [_ ->]. reflexivity.
Qed.

Lemma length_append (a b : string) :
  String.length (a ++ b) = (String.length a + String.length b)%nat.
Proof.
  induction a as [|x a IH]; [reflexivity|].
  rewrite append_cons. cbn [String.length]. rewrite IH. reflexivity.
Qed.

Lemma escapeHtml_length s : (String.length s <= String.length (escapeHtml s))%nat.
Proof.
  induction s as [|c s IH]; [reflexivity|].
  rewrite escapeHtml_cons, length_append. cbn [String.length].
  destruct (escapeHtmlChar_cases c) as [[_ ->] | (_ & _ & _ & Hlen)]; [cbn [String.length]|]; lia.
Qed.

Lemma escapeHtml_unescaped s : escapeHtml s = s <-> unescaped s = true.
Proof.
  induction s as [|c s IH]; [cbn; tauto|].
  rewrite escapeHtml_cons. cbn [unescaped].
  destruct (escapeHtmlChar_cases c) as [[Hc ->] | (Hc & _ & _ & Hlen)]; rewrite Hc; cbn [negb andb].
  - rewrite append_cons, append_nil. rewrite <- IH. split; [intros [= H]; exact H | intros ->; reflexivity].
  - split; [|discriminate]. intros Heq. exfalso.
    apply (f_equal String.length) in Heq. rewrite length_append in Heq.
    cbn [String.length] in Heq. pose proof (escapeHtml_length s). lia.
Qed.

Lemma unescaped_app a b : unescaped (a ++ b) = unescaped a && unescaped b.
Proof.
  induction a as [|x a IH]; [reflexivity|].
  rewrite append_cons. cbn [unescaped]. rewrite IH, andb_assoc. reflexivity.
Qed.

Lemma unescaped_escapeHtml s : unescaped (escapeHtml s) = unescaped s.
Proof.
  induction s as [|c s IH]; [reflexivity|].
  rewrite escapeHtml_cons, unescaped_app, IH. cbn [unescaped]. f_equal.
  unfold escapeHtmlChar, isMarkup.
  destruct (Ascii.eqb c "&") eqn:H1; [reflexivity|].
  destruct (Ascii.eqb c "<") eqn:H2; [reflexivity|].
  destruct (Ascii.eqb c ">") eqn:H3; [reflexivity|].
  destruct (Ascii.eqb c "034") eqn:H4; [reflexivity|].
  destruct (Ascii.eqb c "'") eqn:H5; [reflexivity|].
  cbn [unescaped]. unfold isMarkup. rewrite H1, H2, H3, H4, H5. reflexivity.
Qed.

(** X27: [escapeHtml] works character by character, so that it distributes
    over concatenation; its result holds none of the characters that open or
    close a tag or an attribute value, and is at least as long as the text; it
    returns the text itself exactly when the text holds no character of
    [HTML_ESCAPE_MAP], and only then is escaping twice the same as escaping
    once. *)
Theorem X27_escapeHtml_leaves_no_markup (a b : string) :
  escapeHtml (a ++ b) = (escapeHtml a ++ escapeHtml b)%string
  /\ markupFree (escapeHtml a) = true
  /\ (String.length a <= String.length (escapeHtml a))%nat
  /\ (escapeHtml a = a <-> unescaped a = true)
  /\ (escapeHtml (escapeHtml a) = escapeHtml a <-> unescaped a = true).
Proof.
  split; [apply escapeHtml_app|]. split; [apply escapeHtml_markupFree|].
  split; [apply escapeHtml_length|]. split; [apply escapeHtml_unescaped|].
  rewrite escapeHtml_unescaped, unescaped_escapeHtml. tauto.
Qed.

End EscapeProofs.

Section PreviewProofs.
Import Models ChatInput Markup Collected.

Variable t : string -> string.

Lemma buildTextBody_fold (l : list jsval) (acc : string * string) :
  fst acc = escapeHtml (snd acc) ->
  let out :=
    fold_left
      (fun acc p =>
         let piece :=
           if hasType p "text" then textOf (get p "content")
           else getPlaceholder t (get p "type") in
         (fst acc ++ escapeHtml piece, snd acc ++ piece)%string)
      l acc in
  fst out = escapeHtml (snd out).
Proof.
  revert acc. induction l as [|p l IH]; intros acc Hacc; [exact Hacc|].
  cbn [fold_left]. apply IH. cbn [fst snd]. rewrite escapeHtml_app, Hacc. reflexivity.
Qed.

Lemma buildTextBody_escaped (parts : option (list jsval)) (fallbackText : string) :
  fst (buildTextBody t parts fallbackText)
  = escapeHtml (snd (buildTextBody t parts fallbackText)).
Proof.
  unfold buildTextBody. destruct parts as [[|p l]|]; try reflexivity.
  apply buildTextBody_fold. reflexivity.
Qed.

Lemma str_or_markupFree a b :
  markupFree a = true -> markupFree b = true -> markupFree (str_or (Some a) b) = true.
Proof. intros Ha Hb. unfold str_or. destruct (String.eqb a ""); assumption. Qed.

(** X28: the [html] of [buildTextBody] is its [plain] text escaped.  The
    [html] of a preview is free of markup when [asHtml] is off or the message
    is not a text message, and also for a text message without mentions or
    parts; for a tip, and for any message that is not a text message when
    [asHtml] is off, it is the plain text of the preview, escaped. *)
Theorem X28_preview_html_is_escaped (message : IMessage.t) (highlightClass currentUserId : string)
    (asHtml : bool) (parts : option (list jsval)) (fallbackText : string) :
  let preview := buildMessagePreview t message highlightClass currentUserId asHtml in
  let code := IMessage.messageContentType message in
  fst (buildTextBody t parts fallbackText)
  = escapeHtml (snd (buildTextBody t parts fallbackText))
  /\ (asHtml = false \/ code <> MessageContentType.TEXT ->
      markupFree (html preview) = true)
  /\ (code = MessageContentType.TIP \/ (asHtml = false /\ code <> MessageContentType.TEXT) ->
      html preview = escapeHtml (plainText preview))
  /\ (code = MessageContentType.TEXT ->
      IMessage.mentionAll message = None ->
      IMessage.mentionedUserIds message = None ->
      partsOf (IMessage.messageBody message) = None ->
      markupFree (html preview) = true
      /\ originalText preview = textOf (get (IMessage.messageBody message) "text")).
Proof.
  cbv zeta. split; [apply buildTextBody_escaped|].
  unfold buildMessagePreview.
  destruct (Z.eqb_spec (IMessage.messageContentType message) MessageContentType.TIP) as [Htip | Htip].
  { unfold buildTipPreview. cbn [html plainText originalText].
    split; [intros _; apply escapeHtml_markupFree|].
    split; [reflexivity|]. intros Htext. rewrite Htext in Htip. discriminate Htip. }
  destruct (Z.eqb_spec (IMessage.messageContentType message) MessageContentType.TEXT) as [Htext | Htext].
  - split; [|split].
    + intros [-> | Hno]; [|contradiction].
      unfold buildTextMessagePreview.
      destruct (buildTextBody t _ _) as [bodyHtml bodyPlain].
      cbn [html]. apply str_or_markupFree; apply escapeHtml_markupFree.
    + intros [Hc | [_ Hc]]; contradiction.
    + intros _ Hall Hids Hparts. unfold buildTextMessagePreview.
      rewrite Hparts, Hall. unfold collectMentionIds. rewrite Hids.
      cbn [default fold_left memberOf existsb hasAllMention orb buildMentionBadges app prefixOf].
      pose proof (buildTextBody_escaped None (textOf (get (IMessage.messageBody message) "text"))) as Hbody.
      destruct (buildTextBody t None _) as [bodyHtml bodyPlain].
      cbn [fst snd] in Hbody. cbn [html originalText]. split; [|reflexivity].
      destruct asHtml; apply str_or_markupFree; rewrite ?Hbody; apply escapeHtml_markupFree.
  - unfold buildNonTextMessagePreview. cbn [html plainText].
    split; [|split].
    + intros _. destruct asHtml; [|apply escapeHtml_markupFree].
      rewrite markupFree_app, !escapeHtml_markupFree. reflexivity.
    + intros [Hc | [-> _]]; [contradiction | reflexivity].
    + intros Hc. contradiction.
Qed.

End PreviewProofs.

Section MentionProofs.
Import Models ChatInput Markup Collected.

Lemma collectMentionIds_addKeys (msg : IMessage.t) (parts : option (list jsval)) :
  collectMentionIds msg parts
  = addKeys (fun p => textOf (get p "id"))
      (fun p => hasType p "at" && match get p "id" with Some v => truthy v | None => false end)
      (default [] parts)
      (addKeys (fun id : string => id) (fun _ => true)
         (default [] (IMessage.mentionedUserIds msg)) []).
Proof. reflexivity. Qed.

(** X29: [collectMentionIds] returns each id once; an id is returned exactly
    when it is among [mentionedUserIds] of the message or is the id, as a
    string, of a part of type [at] whose id is truthy; the ids of the message
    come first, in the order in which they are first met; and a user among
    [mentionedUserIds] is found in the result. *)
Theorem X29_collectMentionIds_is_a_set (msg : IMessage.t) (parts : option (list jsval)) :
  let ids := collectMentionIds msg parts in
  NoDup ids
  /\ (forall id, In id ids
        <-> In id (default [] (IMessage.mentionedUserIds msg))
            \/ exists p v, In p (default [] parts) /\ hasType p "at" = true
                           /\ get p "id" = Some v /\ truthy v = true
                           /\ String_of v = id)
  /\ (exists more, ids = collectMentionIds msg None ++ more)
  /\ (forall currentUserId,
        In currentUserId (default [] (IMessage.mentionedUserIds msg)) ->
        memberOf currentUserId ids = true).
Proof.
  cbv zeta. rewrite collectMentionIds_addKeys.
  assert (Hin : forall id,
    In id (addKeys (fun p => textOf (get p "id"))
      (fun p => hasType p "at" && match get p "id" with Some v => truthy v | None => false end)
      (default [] parts)
      (addKeys (fun id : string => id) (fun _ => true)
         (default [] (IMessage.mentionedUserIds msg)) []))
    <-> In id (default [] (IMessage.mentionedUserIds msg))
        \/ exists p v, In p (default [] parts) /\ hasType p "at" = true
                       /\ get p "id" = Some v /\ truthy v = true
                       /\ String_of v = id).
  { intros id. rewrite !addAll_In. cbn [In]. split.
    - intros [[[] | (a & Ha & _ & <-)] | (p & Hp & Hkeep & Hkey)]; [left; exact Ha|].
      right. apply andb_true_iff in Hkeep as [Hat Hid].
      destruct (get p "id") as [v|] eqn:Hv; [|discriminate].
      exists p, v. repeat split; try assumption.
      rewrite <- Hkey. unfold textOf, nullish_or. destruct v; try reflexivity.
      discriminate Hid.
    - intros [Hid | (p & v & Hp & Hat & Hv & Htruthy & Hkey)].
      + left. right. exists id. auto.
      + right. exists p. split; [exact Hp|]. rewrite Hat, Hv, Htruthy.
        split; [reflexivity|]. rewrite <- Hkey. unfold textOf, nullish_or.
        destruct v; try reflexivity. discriminate Htruthy. }
  split; [apply addAll_NoDup, addAll_NoDup, NoDup_nil_2|].
  split; [exact Hin|]. split.
  - rewrite collectMentionIds_addKeys. cbn [default]. apply addAll_prefix.
  - intros currentUserId Hmine. apply memberOf_In, Hin. left. exact Hmine.
Qed.

End MentionProofs.
